(** * dungeonhelper: the retrieval and ranking layer of [src/lib/rag.ts]

    A shallow embedding of the Query Interpreter ([detectEncounterPosition]),
    of the provider wrapper [searchSimilar] (vector-store module) and of the
    Retrieval Engine ([retrieveRelevantMechanics]), followed by the properties
    the specification states about them.

    Modelling conventions.
    - JavaScript strings are [string]s; [toLowerCase] folds the ASCII letters
      A-Z and [includes] is the substring test.
    - Scores are JavaScript numbers; they are modelled as exact rationals [Q].
      The code only adds the constants 0.8 and 0.3 to a score, takes
      [Math.min] with 1.0 and compares scores, so every property below is a
      statement about order, which the rationals share with the floats.
    - Encounter orders and [topK] are integers ([Z]); an optional field is an
      [option]; JavaScript truthiness is written out ([truthyStr],
      [truthyNum], [orDefault]).
    - [mechanicStore] is a [Map]: an association list in insertion order with
      [set] replacing in place.
    - [await]ed provider calls are the only effects.  They run in a small
      monad that logs every provider call and carries a thrown error. *)

From Stdlib Require Import String Ascii List Bool ZArith NArith QArith Qminmax Lia.
From Stdlib Require Import Sorting.Sorted Sorting.Permutation.
From Stdlib Require Import DecimalString.
Import ListNotations.

Set Implicit Arguments.

(* ================================================================== *)
(** ** JavaScript primitives used by the code                          *)
(* ================================================================== *)

Module JS.

(** [c.toLowerCase()] on one ASCII character. *)
Definition lowerAscii (c : ascii) : ascii :=
  let n := N_of_ascii c in
  if ((65 <=? n) && (n <=? 90))%N then ascii_of_N (n + 32) else c.

(** [s.toLowerCase()]. *)
Fixpoint toLowerCase (s : string) : string :=
  match s with
  | EmptyString => EmptyString
  | String c rest => String (lowerAscii c) (toLowerCase rest)
  end.

(** [haystack.includes(needle)]. *)
Fixpoint includes (haystack needle : string) : bool :=
  if String.prefix needle haystack then true
  else match haystack with
       | EmptyString => false
       | String _ rest => includes rest needle
       end.

(** Truthiness of a string: only the empty string is falsy. *)
Definition truthyStr (s : string) : bool :=
  match s with EmptyString => false | _ => true end.

(** Truthiness of an optional string ([undefined] is falsy). *)
Definition truthyOptStr (o : option string) : bool :=
  match o with Some s => truthyStr s | None => false end.

(** Truthiness of a number: only 0 is falsy. *)
Definition truthyNum (n : Z) : bool := negb (n =? 0)%Z.

(** Truthiness of an optional number. *)
Definition truthyOptNum (o : option Z) : bool :=
  match o with Some n => truthyNum n | None => false end.

(** [x || d] on an optional number. *)
Definition orDefault (o : option Z) (d : Z) : Z :=
  match o with
  | Some n => if truthyNum n then n else d
  | None => d
  end.

(** [a ?? b]. *)
Definition nullish {A : Type} (a b : option A) : option A :=
  match a with Some _ => a | None => b end.

(** [x === y] on optional numbers ([undefined === undefined] included). *)
Definition strictEqOptNum (a b : option Z) : bool :=
  match a, b with
  | Some x, Some y => (x =? y)%Z
  | None, None => true
  | _, _ => false
  end.

(** [arr.slice(0, end)]: a negative [end] counts from the end of the
    array, and the bounds are clamped to the array. *)
Definition slice0 {A : Type} (arr : list A) (end_ : Z) : list A :=
  let len := Z.of_nat (length arr) in
  let final := if (end_ <? 0)%Z then Z.max (len + end_) 0 else Z.min end_ len in
  firstn (Z.to_nat final) arr.

(** [Math.min(1.0, x)]. *)
Definition min1 (x : Q) : Q := Qmin 1 x.

(** Insertion of a number in an ascending list. *)
Fixpoint insertAsc (x : Z) (l : list Z) : list Z :=
  match l with
  | [] => [x]
  | y :: ys => if (x <? y)%Z then x :: l else y :: insertAsc x ys
  end.

(** [[...arr].sort((a, b) => a - b)]. *)
Definition sortAsc (arr : list Z) : list Z := fold_right insertAsc [] arr.

(** [Math.min(...arr)] on a non-empty array. *)
Definition minOf (first : Z) (rest : list Z) : Z := fold_left Z.min rest first.

End JS.

(* ================================================================== *)
(** ** Data model ([types] module)                                     *)
(* ================================================================== *)

(** [MechanicSchema].  The enumerated [type] and [difficulty] are string
    literal unions in TypeScript and plain strings at run time (the
    reconstruction path of the Retrieval Engine stores metadata strings in
    them through [as any]), so they are strings here. *)
Record Mechanic := {
  mechanic_id : string;
  mechanic_name : string;
  mechanic_description : string;
  mechanic_type : string;
  mechanic_solution : option string;
  mechanic_tips : option (list string);
  mechanic_relatedMechanics : option (list string);
  mechanic_difficulty : option string;
  mechanic_contestModeSpecific : option bool;
  mechanic_contestModeNotes : option string
}.

(** [EncounterSchema]. *)
Record Encounter := {
  encounter_id : string;
  encounter_name : string;
  encounter_description : string;
  encounter_type : string;
  encounter_mechanics : list Mechanic;
  encounter_order : option Z
}.

(** [DungeonRaidSchema]. *)
Record DungeonRaid := {
  dungeonRaid_id : string;
  dungeonRaid_name : string;
  dungeonRaid_type : string;
  dungeonRaid_description : string;
  dungeonRaid_encounters : list Encounter;
  dungeonRaid_releaseDate : option string;
  dungeonRaid_contestModeDate : option string
}.

(** [VectorMetadata]. *)
Record VectorMetadata := {
  md_mechanicId : string;
  md_mechanicName : string;
  md_encounterId : string;
  md_encounterName : string;
  md_encounterOrder : option Z;
  md_dungeonRaidId : string;
  md_dungeonRaidName : string;
  md_dungeonRaidType : string;
  md_mechanicType : string;
  md_encounterType : string;
  md_difficulty : option string;
  md_contestModeSpecific : option bool
}.

(** The [{ id, name, type }] projection of a collection in a result. *)
Record DungeonRaidRef := {
  ref_id : string;
  ref_name : string;
  ref_type : string
}.

(** [SearchResult]. *)
Record SearchResult := {
  result_id : string;
  score : Q;
  mechanic : Mechanic;
  encounter : Encounter;
  dungeonRaid : DungeonRaidRef
}.

(** The [filter] of [SearchOptions]. *)
Record SearchFilter := {
  f_dungeonRaidName : option string;
  f_encounterType : option string;
  f_mechanicType : option string;
  f_difficulty : option string;
  f_contestModeSpecific : option bool;
  f_encounterOrder : option Z
}.

(** [SearchOptions]. *)
Record SearchOptions := {
  opts_filter : option SearchFilter;
  opts_topK : option Z
}.

(** An element of the array [searchSimilar] returns. *)
Record Candidate := {
  c_id : string;
  c_score : Q;
  c_metadata : VectorMetadata
}.

(** What [mechanicStore] maps a mechanic identifier to. *)
Record Stored := {
  s_mechanic : Mechanic;
  s_encounter : Encounter;
  s_dungeonRaid : DungeonRaid
}.

(* ================================================================== *)
(** ** Mechanic Store                                                  *)
(* ================================================================== *)

Module Store.

(** [Map<string, Stored>], in insertion order. *)
Definition t := list (string * Stored).

(** [mechanicStore.get(key)]. *)
Fixpoint get (m : t) (key : string) : option Stored :=
  match m with
  | [] => None
  | (k, v) :: rest => if String.eqb k key then Some v else get rest key
  end.

(** [mechanicStore.set(key, v)]: an existing key keeps its place. *)
Fixpoint set (m : t) (key : string) (v : Stored) : t :=
  match m with
  | [] => [(key, v)]
  | (k, w) :: rest =>
      if String.eqb k key then (k, v) :: rest else (k, w) :: set rest key v
  end.

(** [mechanicStore.entries()]. *)
Definition entries (m : t) : list (string * Stored) := m.

End Store.

(** [registerMechanic]. *)
Definition registerMechanic (store : Store.t)
    (m : Mechanic) (e : Encounter) (d : DungeonRaid) : Store.t :=
  Store.set store (mechanic_id m)
    {| s_mechanic := m; s_encounter := e; s_dungeonRaid := d |}.

(* ================================================================== *)
(** ** Query Interpreter                                               *)
(* ================================================================== *)

(** The [position] literals of [detectEncounterPosition]'s result type. *)
Inductive Position := PosFirst | PosSecond | PosThird | PosLast | PosFinal.

(** The result object of [detectEncounterPosition]. *)
Record PositionSpec := {
  position : Position;
  orderNumber : option Z;
  isBossQuery : option bool
}.

Definition positionEqb (a b : Position) : bool :=
  match a, b with
  | PosFirst, PosFirst | PosSecond, PosSecond | PosThird, PosThird
  | PosLast, PosLast | PosFinal, PosFinal => true
  | _, _ => false
  end.

(** [isEncounterFlowMechanic] applied to a mechanic name; the reconstruction
    path of the Retrieval Engine runs the same test on the metadata name. *)
Definition flowKeywords : list string :=
  ["flow"; "strategy"; "progression"; "overall encounter"]%string.

Definition isFlowName (name : string) : bool :=
  let nameLower := JS.toLowerCase name in
  existsb (fun keyword => JS.includes nameLower keyword) flowKeywords.

Definition isEncounterFlowMechanic (m : Mechanic) : bool :=
  isFlowName (mechanic_name m).

(** [detectEncounterPosition]. *)
Definition detectEncounterPosition (query : string) : option PositionSpec :=
  let queryLower := JS.toLowerCase query in
  if JS.includes queryLower "final boss" || JS.includes queryLower "last boss" then
    Some {| position := PosFinal; orderNumber := None; isBossQuery := Some true |}
  else if JS.includes queryLower "final encounter"
          || JS.includes queryLower "last encounter" then
    Some {| position := PosFinal; orderNumber := None; isBossQuery := Some false |}
  else if JS.includes queryLower "first boss" || JS.includes queryLower "1st boss" then
    Some {| position := PosFirst; orderNumber := None; isBossQuery := Some true |}
  else if JS.includes queryLower "first encounter"
          || JS.includes queryLower "1st encounter" then
    Some {| position := PosFirst; orderNumber := Some 1%Z; isBossQuery := Some false |}
  else if JS.includes queryLower "second boss" || JS.includes queryLower "2nd boss" then
    Some {| position := PosSecond; orderNumber := None; isBossQuery := Some true |}
  else if JS.includes queryLower "second encounter"
          || JS.includes queryLower "2nd encounter" then
    Some {| position := PosSecond; orderNumber := Some 2%Z; isBossQuery := Some false |}
  else if JS.includes queryLower "third boss" || JS.includes queryLower "3rd boss" then
    Some {| position := PosThird; orderNumber := None; isBossQuery := Some true |}
  else if JS.includes queryLower "third encounter"
          || JS.includes queryLower "3rd encounter" then
    Some {| position := PosThird; orderNumber := Some 3%Z; isBossQuery := Some false |}
  else None.

(** The Query Interpreter as the specification words it: a table of phrase
    groups in priority order, each with the position descriptor it yields;
    the first group with a phrase occurring in the lower-cased query wins. *)
Definition positionPhraseTable : list (list string * PositionSpec) :=
  [ (["final boss"; "last boss"]%string,
     {| position := PosFinal; orderNumber := None; isBossQuery := Some true |});
    (["final encounter"; "last encounter"]%string,
     {| position := PosFinal; orderNumber := None; isBossQuery := Some false |});
    (["first boss"; "1st boss"]%string,
     {| position := PosFirst; orderNumber := None; isBossQuery := Some true |});
    (["first encounter"; "1st encounter"]%string,
     {| position := PosFirst; orderNumber := Some 1%Z; isBossQuery := Some false |});
    (["second boss"; "2nd boss"]%string,
     {| position := PosSecond; orderNumber := None; isBossQuery := Some true |});
    (["second encounter"; "2nd encounter"]%string,
     {| position := PosSecond; orderNumber := Some 2%Z; isBossQuery := Some false |});
    (["third boss"; "3rd boss"]%string,
     {| position := PosThird; orderNumber := None; isBossQuery := Some true |});
    (["third encounter"; "3rd encounter"]%string,
     {| position := PosThird; orderNumber := Some 3%Z; isBossQuery := Some false |}) ].

Fixpoint firstMatchingPhrase (queryLower : string)
    (table : list (list string * PositionSpec)) : option PositionSpec :=
  match table with
  | [] => None
  | (phrases, spec) :: rest =>
      if existsb (JS.includes queryLower) phrases then Some spec
      else firstMatchingPhrase queryLower rest
  end.

Definition interpretPosition_spec (query : string) : option PositionSpec :=
  firstMatchingPhrase (JS.toLowerCase query) positionPhraseTable.

(* ================================================================== *)
(** ** Effects: awaited provider calls and thrown errors               *)
(* ================================================================== *)

(** The request object [searchSimilar] hands to [index.query]. *)
Record PineconeFilter := {
  pf_dungeonRaidName : option string;
  pf_encounterType : option string;
  pf_mechanicType : option string;
  pf_difficulty : option string;
  pf_contestModeSpecific : option bool;
  pf_encounterOrder : option Z
}.

Record QueryRequest := {
  qr_vector : list Q;
  qr_topK : Z;
  qr_includeMetadata : bool;
  qr_filter : option PineconeFilter
}.

(** A match of the provider's response; [score] is optional there. *)
Record PineconeMatch := {
  match_id : string;
  match_score : option Q;
  match_metadata : VectorMetadata
}.

Record QueryResponse := {
  matches : option (list PineconeMatch)
}.

(** A call that leaves the process. *)
Inductive ProviderCall :=
| EmbeddingCall (text : string)
| IndexQueryCall (request : QueryRequest).

(** How an awaited computation ends. *)
Inductive Outcome (A : Type) :=
| Returned (value : A)
| Thrown (message : string).

Arguments Returned {A} value.
Arguments Thrown {A} message.

(** The external collaborators: the embedding endpoint, [getIndex()] (which
    throws when the provider key is not configured) and [index.query]. *)
Record Providers := {
  embeddingsCreate : string -> Outcome (list Q);
  getIndex : Outcome unit;
  indexQuery : QueryRequest -> Outcome QueryResponse
}.

Module Eff.

(** A computation: the provider calls it made, in order, and its end. *)
Definition t (A : Type) : Type := list ProviderCall * Outcome A.

Definition ret {A} (a : A) : t A := ([], Returned a).

Definition throw {A} (message : string) : t A := ([], Thrown message).

Definition bind {A B} (m : t A) (k : A -> t B) : t B :=
  match m with
  | (log, Thrown e) => (log, Thrown e)
  | (log, Returned a) => let (log', r) := k a in (log ++ log', r)
  end.

(** [try { m } catch (error) { handler(error) }]. *)
Definition tryCatch {A} (m : t A) (handler : string -> t A) : t A :=
  match m with
  | (log, Thrown e) => let (log', r) := handler e in (log ++ log', r)
  | (log, Returned a) => (log, Returned a)
  end.

(** An awaited provider call, logged. *)
Definition call {A} (c : ProviderCall) (result : Outcome A) : t A := ([c], result).

(** An awaited local step that may throw and contacts no provider. *)
Definition lift {A} (result : Outcome A) : t A := ([], result).

Definition calls {A} (m : t A) : list ProviderCall := fst m.
Definition outcome {A} (m : t A) : Outcome A := snd m.

End Eff.

Declare Scope eff_scope.
Delimit Scope eff_scope with eff.
Notation "x <- m ;; k" := (Eff.bind m (fun x => k))
  (at level 61, m at next level, right associativity) : eff_scope.

(** [generateEmbedding] (embeddings module). *)
Definition generateEmbedding (env : Providers) (text : string) : Eff.t (list Q) :=
  Eff.tryCatch
    (Eff.call (EmbeddingCall text) (embeddingsCreate env text))
    (fun message => Eff.throw ("Failed to generate embedding: " ++ message)).

Definition keepTruthy (o : option string) : option string :=
  match o with
  | Some s => if JS.truthyStr s then Some s else None
  | None => None
  end.

(** The filter object [searchSimilar] builds; [None] when it has no key. *)
Definition buildPineconeFilter (options : SearchOptions) : option PineconeFilter :=
  match opts_filter options with
  | None => None
  | Some f =>
      let pf := {| pf_dungeonRaidName := keepTruthy (f_dungeonRaidName f);
                   pf_encounterType := keepTruthy (f_encounterType f);
                   pf_mechanicType := keepTruthy (f_mechanicType f);
                   pf_difficulty := keepTruthy (f_difficulty f);
                   pf_contestModeSpecific := f_contestModeSpecific f;
                   pf_encounterOrder := f_encounterOrder f |} in
      match pf_dungeonRaidName pf, pf_encounterType pf, pf_mechanicType pf,
            pf_difficulty pf, pf_contestModeSpecific pf, pf_encounterOrder pf with
      | None, None, None, None, None, None => None
      | _, _, _, _, _, _ => Some pf
      end
  end.

(** [match.score || 0]. *)
Definition scoreOrZero (o : option Q) : Q :=
  match o with Some q => q | None => 0%Q end.

Definition candidateOfMatch (m : PineconeMatch) : Candidate :=
  {| c_id := match_id m;
     c_score := scoreOrZero (match_score m);
     c_metadata := match_metadata m |}.

(** [searchSimilar] (vector-store module). *)
Definition searchSimilar (env : Providers) (queryVector : list Q)
    (options : SearchOptions) : Eff.t (list Candidate) :=
  Eff.tryCatch
    (_ <- Eff.lift (getIndex env) ;;
     let queryRequest :=
       {| qr_vector := queryVector;
          qr_topK := JS.orDefault (opts_topK options) 10;
          qr_includeMetadata := true;
          qr_filter := buildPineconeFilter options |} in
     queryResponse <- Eff.call (IndexQueryCall queryRequest) (indexQuery env queryRequest) ;;
     Eff.ret (map candidateOfMatch
                (match matches queryResponse with Some l => l | None => [] end)))%eff
    (fun _ => Eff.throw "Failed to search vector store").

(* ================================================================== *)
(** ** Retrieval Engine                                                *)
(* ================================================================== *)

(** [options.filter?.dungeonRaidName] where the code tests it for
    truthiness: [Some name] exactly when it is a non-empty string. *)
Definition filterDungeonRaidName (options : SearchOptions) : option string :=
  match opts_filter options with
  | Some f => keepTruthy (f_dungeonRaidName f)
  | None => None
  end.

(** [encounterPosition?.position === p]. *)
Definition positionIs (encounterPosition : option PositionSpec) (p : Position) : bool :=
  match encounterPosition with
  | Some spec => positionEqb (position spec) p
  | None => false
  end.

(** [encounterPosition?.isBossQuery]. *)
Definition isBossQueryOf (encounterPosition : option PositionSpec) : option bool :=
  match encounterPosition with
  | Some spec => isBossQuery spec
  | None => None
  end.

(** [encounterPosition?.orderNumber]. *)
Definition orderNumberOf (encounterPosition : option PositionSpec) : option Z :=
  match encounterPosition with
  | Some spec => orderNumber spec
  | None => None
  end.

(** Truthiness of [isBossQuery], and [isBossQuery === true]; they agree. *)
Definition isTrue (o : option bool) : bool :=
  match o with Some true => true | _ => false end.

Definition isBoss (encounterType : string) : bool := String.eqb encounterType "boss".

(** The redundant flag computed at the top of [retrieveRelevantMechanics]. *)
Definition isFinalBossQueryOf (query : string) : bool :=
  let queryLower := JS.toLowerCase query in
  JS.includes queryLower "final boss"
  || JS.includes queryLower "last boss"
  || JS.includes queryLower "final encounter".

(** The store loop of the final-position branch: the running maximum of the
    truthy orders of the collection's entries, boss entries only when
    [isBossQuery] is truthy. *)
Definition maxOrderInStore (store : Store.t) (name : string)
    (isBossQuery : option bool) (maxEncounterOrder : Z) : Z :=
  fold_left
    (fun maxEncounterOrder (entry : string * Stored) =>
       let stored := snd entry in
       match encounter_order (s_encounter stored) with
       | Some order =>
           if String.eqb (dungeonRaid_name (s_dungeonRaid stored)) name
              && JS.truthyNum order
           then
             if isTrue isBossQuery && negb (isBoss (encounter_type (s_encounter stored)))
             then maxEncounterOrder
             else Z.max maxEncounterOrder order
           else maxEncounterOrder
       | None => maxEncounterOrder
       end)
    (Store.entries store) maxEncounterOrder.

(** The [bossEncounters] array of the first/second/third-boss branches: one
    push per store entry, that is per registered mechanic. *)
Definition bossEncounters (store : Store.t) (options : SearchOptions) : list Z :=
  fold_left
    (fun (acc : list Z) (entry : string * Stored) =>
       let stored := snd entry in
       match filterDungeonRaidName options with
       | Some name =>
           if String.eqb (dungeonRaid_name (s_dungeonRaid stored)) name then
             match encounter_order (s_encounter stored) with
             | Some order =>
                 if isBoss (encounter_type (s_encounter stored)) && JS.truthyNum order
                 then acc ++ [order]
                 else acc
             | None => acc
             end
           else acc
       | None => acc
       end)
    (Store.entries store) [].

(** The two variables the engine threads through its three resolution steps. *)
Record Resolution := {
  maxEncounterOrder : Z;
  targetEncounterOrder : option Z
}.

(** Step 1: the [if / else if] chain that runs before the search. *)
Definition resolveFromStore (store : Store.t) (options : SearchOptions)
    (encounterPosition : option PositionSpec) (isFinalBossQuery : bool) : Resolution :=
  let isBossQuery := isBossQueryOf encounterPosition in
  let unresolved := {| maxEncounterOrder := 0; targetEncounterOrder := None |} in
  let resolved t := {| maxEncounterOrder := 0; targetEncounterOrder := t |} in
  let finalBranch :=
    match filterDungeonRaidName options with
    | Some name =>
        if positionIs encounterPosition PosFinal || isFinalBossQuery
        then Some name else None
    | None => None
    end in
  match finalBranch with
  | Some name =>
      let m := maxOrderInStore store name isBossQuery 0 in
      {| maxEncounterOrder := m; targetEncounterOrder := Some m |}
  | None =>
      if positionIs encounterPosition PosFirst && isTrue isBossQuery then
        match bossEncounters store options with
        | [] => unresolved
        | x :: xs => resolved (Some (JS.minOf x xs))
        end
      else if positionIs encounterPosition PosSecond && isTrue isBossQuery then
        let boss := bossEncounters store options in
        if (2 <=? length boss)%nat then resolved (nth_error (JS.sortAsc boss) 1)
        else unresolved
      else if positionIs encounterPosition PosThird && isTrue isBossQuery then
        let boss := bossEncounters store options in
        if (3 <=? length boss)%nat then resolved (nth_error (JS.sortAsc boss) 2)
        else unresolved
      else if JS.truthyOptNum (orderNumberOf encounterPosition) then
        resolved (orderNumberOf encounterPosition)
      else unresolved
  end.

(** The metadata the fallback rebuilds from a store entry. *)
Definition metadataOfStored (stored : Stored) : VectorMetadata :=
  {| md_mechanicId := mechanic_id (s_mechanic stored);
     md_mechanicName := mechanic_name (s_mechanic stored);
     md_encounterId := encounter_id (s_encounter stored);
     md_encounterName := encounter_name (s_encounter stored);
     md_encounterOrder := encounter_order (s_encounter stored);
     md_dungeonRaidId := dungeonRaid_id (s_dungeonRaid stored);
     md_dungeonRaidName := dungeonRaid_name (s_dungeonRaid stored);
     md_dungeonRaidType := dungeonRaid_type (s_dungeonRaid stored);
     md_mechanicType := mechanic_type (s_mechanic stored);
     md_encounterType := encounter_type (s_encounter stored);
     md_difficulty := mechanic_difficulty (s_mechanic stored);
     md_contestModeSpecific := mechanic_contestModeSpecific (s_mechanic stored) |}.

(** The default score of a direct store lookup. *)
Definition defaultScore : Q := 0.5.

(** The [directResults] array of the fallback: every entry of the collection,
    in store order, at the default score. *)
Definition directResults (store : Store.t) (name : string) : list Candidate :=
  fold_left
    (fun (acc : list Candidate) (entry : string * Stored) =>
       let mechanicId := fst entry in
       let stored := snd entry in
       if String.eqb (dungeonRaid_name (s_dungeonRaid stored)) name then
         acc ++ [ {| c_id := mechanicId;
                     c_score := defaultScore;
                     c_metadata := metadataOfStored stored |} ]
       else acc)
    (Store.entries store) [].

(** [if (order && order > maxEncounterOrder) maxEncounterOrder = order]. *)
Definition raiseMax (order : option Z) (maxEncounterOrder : Z) : Z :=
  match order with
  | Some o => if JS.truthyNum o && (maxEncounterOrder <? o)%Z then o else maxEncounterOrder
  | None => maxEncounterOrder
  end.

(** The maximum loop inside the fallback, over the metadata alone. *)
Definition maxOrderInMetadata (isFinalBossQuery : bool) (isBossQuery : option bool)
    (searchResults : list Candidate) (maxEncounterOrder : Z) : Z :=
  fold_left
    (fun maxEncounterOrder (result : Candidate) =>
       let order := md_encounterOrder (c_metadata result) in
       if (isFinalBossQuery || isTrue isBossQuery)
          && negb (isBoss (md_encounterType (c_metadata result)))
       then maxEncounterOrder
       else raiseMax order maxEncounterOrder)
    searchResults maxEncounterOrder.

(** Step 2: the fallback to a direct store scan. *)
Definition fallbackToStore (store : Store.t) (options : SearchOptions)
    (encounterPosition : option PositionSpec) (isFinalBossQuery : bool)
    (searchResults : list Candidate) (r : Resolution) : list Candidate * Resolution :=
  match searchResults, filterDungeonRaidName options with
  | [], Some name =>
      let direct := directResults store name in
      match targetEncounterOrder r with
      | None =>
          if positionIs encounterPosition PosFinal || isFinalBossQuery then
            let m := maxOrderInMetadata isFinalBossQuery (isBossQueryOf encounterPosition)
                       direct (maxEncounterOrder r) in
            (direct, {| maxEncounterOrder := m; targetEncounterOrder := Some m |})
          else (direct, r)
      | Some _ => (direct, r)
      end
  | _, _ => (searchResults, r)
  end.

(** The maximum loop over the search results, store data first. *)
Definition maxOrderInResults (store : Store.t) (isFinalBossQuery : bool)
    (isBossQuery : option bool) (searchResults : list Candidate)
    (maxEncounterOrder : Z) : Z :=
  fold_left
    (fun maxEncounterOrder (result : Candidate) =>
       let stored := Store.get store (md_mechanicId (c_metadata result)) in
       let order :=
         JS.nullish
           (match stored with Some st => encounter_order (s_encounter st) | None => None end)
           (md_encounterOrder (c_metadata result)) in
       let encounterType :=
         match stored with
         | Some st => encounter_type (s_encounter st)
         | None => md_encounterType (c_metadata result)
         end in
       if (isFinalBossQuery || isTrue isBossQuery) && negb (isBoss encounterType)
       then maxEncounterOrder
       else raiseMax order maxEncounterOrder)
    searchResults maxEncounterOrder.

(** Step 3: a final-position query still unresolved takes the maximum order
    of the search results. *)
Definition resolveFromResults (store : Store.t)
    (encounterPosition : option PositionSpec) (isFinalBossQuery : bool)
    (searchResults : list Candidate) (r : Resolution) : Resolution :=
  match targetEncounterOrder r with
  | None =>
      if positionIs encounterPosition PosFinal || isFinalBossQuery then
        let m := maxOrderInResults store isFinalBossQuery (isBossQueryOf encounterPosition)
                   searchResults (maxEncounterOrder r) in
        {| maxEncounterOrder := m; targetEncounterOrder := Some m |}
      else r
  | Some _ => r
  end.

(** [Math.min(1.0, score + 0.8)] and [Math.min(1.0, score + 0.3)]. *)
Definition boostPosition (s : Q) : Q := JS.min1 (s + 0.8).
Definition boostFlow (s : Q) : Q := JS.min1 (s + 0.3).

Definition isSome {A : Type} (o : option A) : bool :=
  match o with Some _ => true | None => false end.

(** The encounter order the loop resolves for a candidate:
    [stored.encounter.order ?? result.metadata.encounterOrder] when the store
    knows the mechanic, the metadata order otherwise. *)
Definition resolvedOrder (store : Store.t) (result : Candidate) : option Z :=
  match Store.get store (md_mechanicId (c_metadata result)) with
  | Some stored =>
      JS.nullish (encounter_order (s_encounter stored))
                 (md_encounterOrder (c_metadata result))
  | None => md_encounterOrder (c_metadata result)
  end.

(** The position filter and boost of one candidate: [None] is the loop's
    [continue], [Some s] the score before the flow boost.  [fromStore] tells
    the two branches of the loop apart: only the store branch has the
    boost for a final-position query left without a target. *)
Definition positionScore (fromStore : bool) (r : Resolution) (isFinalBossQuery : bool)
    (encounterOrder : option Z) (resultScore : Q) : option Q :=
  match targetEncounterOrder r with
  | Some target =>
      if JS.strictEqOptNum encounterOrder (Some target) then
        Some (boostPosition resultScore)
      else if isSome encounterOrder
              && negb (JS.strictEqOptNum encounterOrder (Some target)) then
        None
      else Some resultScore
  | None =>
      if fromStore && isFinalBossQuery && isSome encounterOrder
         && JS.strictEqOptNum encounterOrder (Some (maxEncounterOrder r))
         && (0 <? maxEncounterOrder r)%Z
      then Some (boostPosition resultScore)
      else Some resultScore
  end.

(** The result object of the store branch, and of the reconstruction branch
    (description replaced by a placeholder). *)
Definition resultFromStore (result : Candidate) (stored : Stored) (s : Q) : SearchResult :=
  {| result_id := c_id result;
     score := s;
     mechanic := s_mechanic stored;
     encounter := s_encounter stored;
     dungeonRaid := {| ref_id := dungeonRaid_id (s_dungeonRaid stored);
                       ref_name := dungeonRaid_name (s_dungeonRaid stored);
                       ref_type := dungeonRaid_type (s_dungeonRaid stored) |} |}.

Definition resultFromMetadata (result : Candidate) (s : Q) : SearchResult :=
  let metadata := c_metadata result in
  {| result_id := c_id result;
     score := s;
     mechanic :=
       {| mechanic_id := md_mechanicId metadata;
          mechanic_name := md_mechanicName metadata;
          mechanic_description :=
            "[Description not available - server needs to reload mechanic data]";
          mechanic_type := md_mechanicType metadata;
          mechanic_solution := None;
          mechanic_tips := None;
          mechanic_relatedMechanics := None;
          mechanic_difficulty := md_difficulty metadata;
          mechanic_contestModeSpecific := md_contestModeSpecific metadata;
          mechanic_contestModeNotes := None |};
     encounter :=
       {| encounter_id := md_encounterId metadata;
          encounter_name := md_encounterName metadata;
          encounter_description := "";
          encounter_type := md_encounterType metadata;
          encounter_mechanics := [];
          encounter_order := md_encounterOrder metadata |};
     dungeonRaid := {| ref_id := md_dungeonRaidId metadata;
                       ref_name := md_dungeonRaidName metadata;
                       ref_type := md_dungeonRaidType metadata |} |}.

(** What one iteration of the main loop does with its candidate. *)
Inductive Step :=
| Skip
| PushFlow (searchResult : SearchResult)
| PushOther (searchResult : SearchResult).

Definition processCandidate (store : Store.t) (r : Resolution)
    (isFinalBossQuery : bool) (result : Candidate) : Step :=
  match Store.get store (md_mechanicId (c_metadata result)) with
  | Some stored =>
      let encounterOrder :=
        JS.nullish (encounter_order (s_encounter stored))
                   (md_encounterOrder (c_metadata result)) in
      match positionScore true r isFinalBossQuery encounterOrder (c_score result) with
      | None => Skip
      | Some s =>
          if isEncounterFlowMechanic (s_mechanic stored)
          then PushFlow (resultFromStore result stored (boostFlow s))
          else PushOther (resultFromStore result stored s)
      end
  | None =>
      let encounterOrder := md_encounterOrder (c_metadata result) in
      match positionScore false r isFinalBossQuery encounterOrder (c_score result) with
      | None => Skip
      | Some s =>
          if isFlowName (md_mechanicName (c_metadata result))
          then PushFlow (resultFromMetadata result (boostFlow s))
          else PushOther (resultFromMetadata result s)
      end
  end.

(** The main loop: [flowMechanics] and [otherMechanics] after all pushes. *)
Definition bucketLoop (store : Store.t) (r : Resolution) (isFinalBossQuery : bool)
    (searchResults : list Candidate) : list SearchResult * list SearchResult :=
  fold_left
    (fun (buckets : list SearchResult * list SearchResult) (result : Candidate) =>
       let (flowMechanics, otherMechanics) := buckets in
       match processCandidate store r isFinalBossQuery result with
       | Skip => (flowMechanics, otherMechanics)
       | PushFlow sr => (flowMechanics ++ [sr], otherMechanics)
       | PushOther sr => (flowMechanics, otherMechanics ++ [sr])
       end)
    searchResults ([], []).

(** [arr.sort((a, b) => b.score - a.score)]: a stable sort, highest score
    first.  An element is inserted in front of the sorted rest of the array
    and moves behind the elements with a strictly higher score. *)
Fixpoint insertByScore (x : SearchResult) (l : list SearchResult) : list SearchResult :=
  match l with
  | [] => [x]
  | y :: ys =>
      if Qle_bool (score y) (score x) then x :: l else y :: insertByScore x ys
  end.

Definition sortByScore (arr : list SearchResult) : list SearchResult :=
  fold_right insertByScore [] arr.

(** [options.topK || 10], used for the provider request and for the final
    truncation. *)
Definition baseTopK (options : SearchOptions) : Z := JS.orDefault (opts_topK options) 10.

Definition adjustedTopK (options : SearchOptions) : Z :=
  if isSome (filterDungeonRaidName options)
  then baseTopK options * 4
  else baseTopK options * 2.

(** [{ ...options, topK: adjustedTopK }]. *)
Definition searchOptionsOf (options : SearchOptions) : SearchOptions :=
  {| opts_filter := opts_filter options; opts_topK := Some (adjustedTopK options) |}.

(** The candidate list and the resolution with which the main loop starts:
    steps 1 to 3 applied to what [searchSimilar] returned. *)
Definition candidatesAndTarget (store : Store.t) (query : string)
    (options : SearchOptions) (providerResults : list Candidate)
    : list Candidate * Resolution :=
  let isFinalBossQuery := isFinalBossQueryOf query in
  let encounterPosition := detectEncounterPosition query in
  let r1 := resolveFromStore store options encounterPosition isFinalBossQuery in
  let (searchResults, r2) :=
    fallbackToStore store options encounterPosition isFinalBossQuery providerResults r1 in
  (searchResults,
   resolveFromResults store encounterPosition isFinalBossQuery searchResults r2).

(** [[...flowMechanics, ...otherMechanics]] after both sorts. *)
Definition finalResults (store : Store.t) (query : string)
    (options : SearchOptions) (providerResults : list Candidate) : list SearchResult :=
  let (searchResults, r) := candidatesAndTarget store query options providerResults in
  let (flowMechanics, otherMechanics) :=
    bucketLoop store r (isFinalBossQueryOf query) searchResults in
  sortByScore flowMechanics ++ sortByScore otherMechanics.

(** Everything [retrieveRelevantMechanics] does once the search has returned. *)
Definition rankResults (store : Store.t) (query : string)
    (options : SearchOptions) (providerResults : list Candidate) : list SearchResult :=
  let limit := baseTopK options in
  JS.slice0 (finalResults store query options providerResults) limit.

(** [retrieveRelevantMechanics], on a store that [loadMechanicStore] has
    filled (that call catches its own errors and never throws). *)
Definition retrieveRelevantMechanics (env : Providers) (store : Store.t)
    (query : string) (options : SearchOptions) : Eff.t (list SearchResult) :=
  Eff.tryCatch
    (queryEmbedding <- generateEmbedding env query ;;
     searchResults <- searchSimilar env queryEmbedding (searchOptionsOf options) ;;
     Eff.ret (rankResults store query options searchResults))%eff
    (fun _ => Eff.throw "Failed to retrieve relevant mechanics").

(* ================================================================== *)
(** ** Sample data                                                     *)
(* ================================================================== *)

Module Sample.

Definition mkMechanic (mid name : string) : Mechanic :=
  {| mechanic_id := mid; mechanic_name := name;
     mechanic_description := "description"; mechanic_type := "boss";
     mechanic_solution := None; mechanic_tips := None;
     mechanic_relatedMechanics := None; mechanic_difficulty := None;
     mechanic_contestModeSpecific := None; mechanic_contestModeNotes := None |}.

Definition mkEncounter (eid name type : string) (order : option Z) : Encounter :=
  {| encounter_id := eid; encounter_name := name; encounter_description := "";
     encounter_type := type; encounter_mechanics := []; encounter_order := order |}.

Definition duality : DungeonRaid :=
  {| dungeonRaid_id := "duality"; dungeonRaid_name := "Duality";
     dungeonRaid_type := "dungeon"; dungeonRaid_description := "";
     dungeonRaid_encounters := []; dungeonRaid_releaseDate := None;
     dungeonRaid_contestModeDate := None |}.

Definition gahlran : Encounter := mkEncounter "gahlran" "Gahlran" "boss" (Some 2%Z).
Definition caiatl : Encounter := mkEncounter "caiatl" "Caiatl" "boss" (Some 5%Z).
Definition vault : Encounter := mkEncounter "vault" "Vault" "encounter" (Some 3%Z).
Definition entrance : Encounter := mkEncounter "entrance" "Entrance" "opening" (Some 0%Z).
Definition hidden : Encounter := mkEncounter "hidden" "Hidden chest" "secret" None.

Definition bells : Mechanic := mkMechanic "m-bells" "Bell teleport".
Definition gahlranFlow : Mechanic := mkMechanic "m-gflow" "Gahlran Encounter Flow".
Definition caiatlFlow : Mechanic := mkMechanic "m-cflow" "Caiatl Overall Strategy".
Definition caiatlDps : Mechanic := mkMechanic "m-cdps" "Damage phase".
Definition vaultSymbols : Mechanic := mkMechanic "m-vault" "Symbol matching".
Definition entranceJump : Mechanic := mkMechanic "m-entrance" "Jumping puzzle".
Definition chest : Mechanic := mkMechanic "m-chest" "Chest route".

Definition register (entry : Mechanic * Encounter) (store : Store.t) : Store.t :=
  registerMechanic store (fst entry) (snd entry) duality.

(** Two boss encounters (orders 2 and 5), two mechanics each, and three
    other encounters. *)
Definition store : Store.t :=
  fold_right register []
    [ (chest, hidden); (entranceJump, entrance); (vaultSymbols, vault);
      (caiatlDps, caiatl); (caiatlFlow, caiatl);
      (gahlranFlow, gahlran); (bells, gahlran) ].

(** One boss encounter with two registered mechanics. *)
Definition oneBossStore : Store.t :=
  fold_right register [] [ (gahlranFlow, gahlran); (bells, gahlran) ].


Definition inDuality (k : option Z) : SearchOptions :=
  {| opts_filter := Some {| f_dungeonRaidName := Some "Duality"%string;
                            f_encounterType := None; f_mechanicType := None;
                            f_difficulty := None; f_contestModeSpecific := None;
                            f_encounterOrder := None |};
     opts_topK := k |}.

Definition unfiltered (k : option Z) : SearchOptions :=
  {| opts_filter := None; opts_topK := k |}.

Definition matchOf (m : Mechanic) (e : Encounter) (s : Q) : PineconeMatch :=
  {| match_id := mechanic_id m;
     match_score := Some s;
     match_metadata :=
       metadataOfStored {| s_mechanic := m; s_encounter := e; s_dungeonRaid := duality |} |}.

(** A provider that embeds every text and answers every query with the
    given matches. *)
Definition answering (ms : list PineconeMatch) : Providers :=
  {| embeddingsCreate := fun _ => Returned [0.1; 0.2]%Q;
     getIndex := Returned tt;
     indexQuery := fun _ => Returned {| matches := Some ms |} |}.

(** What the provider answers in the final-boss scenario: a mechanic of the
    boss at order 2, two of the boss at order 5, one without order. *)
Definition finalBossMatches : list PineconeMatch :=
  [ matchOf bells gahlran 0.9; matchOf caiatlDps caiatl 0.1;
    matchOf chest hidden 0.3; matchOf caiatlFlow caiatl 0.4 ]%Q.

(** A cosine similarity below zero. *)
Definition negativeMatch : list PineconeMatch :=
  [ matchOf caiatlDps caiatl (-0.2)%Q ].


(** What the provider answers to "second boss": one mechanic of each boss
    and one of the vault. *)
Definition secondBossMatches : list PineconeMatch :=
  [ matchOf bells gahlran 0.5; matchOf caiatlDps caiatl 0.7;
    matchOf vaultSymbols vault 0.6 ]%Q.

Definition embeddingDown : Providers :=
  {| embeddingsCreate := fun _ => Thrown "429 rate limited";
     getIndex := Returned tt;
     indexQuery := fun _ => Returned {| matches := Some [] |} |}.

Definition searchDown : Providers :=
  {| embeddingsCreate := fun _ => Returned [0.1; 0.2]%Q;
     getIndex := Returned tt;
     indexQuery := fun _ => Thrown "503 unavailable" |}.

End Sample.

(* ================================================================== *)
(** ** Vocabulary of the properties                                    *)
(* ================================================================== *)

(** The order number the specification gives a descriptor: the ordinal for
    an encounter-qualified first/second/third, none otherwise. *)
Definition expectedOrderNumber (spec : PositionSpec) : option Z :=
  match isBossQuery spec, position spec with
  | Some false, PosFirst => Some 1%Z
  | Some false, PosSecond => Some 2%Z
  | Some false, PosThird => Some 3%Z
  | _, _ => None
  end.

(** Some phrase of the table occurs in the lower-cased query. *)
Definition anyPhraseMatches (query : string) : bool :=
  existsb (fun row => existsb (JS.includes (JS.toLowerCase query)) (fst row))
          positionPhraseTable.

(** The bucket of a returned result, read off the result itself. *)
Definition inFlowBucket (r : SearchResult) : bool :=
  isFlowName (mechanic_name (mechanic r)).

(** Scores in descending order along a list. *)
Definition descending (l : list SearchResult) : Prop :=
  StronglySorted (fun a b => (score b <= score a)%Q) l.

(** A score in the unit interval. *)
Definition inUnitInterval (s : Q) : Prop := (0 <= s)%Q /\ (s <= 1)%Q.

(** The flow boost of a result in the flow bucket. *)
Definition flowBoostIf (flow : bool) (s : Q) : Q :=
  if flow then boostFlow s else s.

(** What the two provider calls of a retrieval hand back to the engine. *)
Definition providerAnswer (env : Providers) (query : string)
    (options : SearchOptions) : Outcome (list Candidate) :=
  Eff.outcome
    (queryEmbedding <- generateEmbedding env query ;;
     searchSimilar env queryEmbedding (searchOptionsOf options))%eff.

(** The request [searchSimilar] sends for a retrieval with [options]. *)
Definition requestOf (queryVector : list Q) (options : SearchOptions) : QueryRequest :=
  {| qr_vector := queryVector;
     qr_topK := adjustedTopK options;
     qr_includeMetadata := true;
     qr_filter := buildPineconeFilter options |}.

(** The candidate a store entry becomes in the fallback. *)
Definition directCandidate (entry : string * Stored) : Candidate :=
  {| c_id := fst entry; c_score := defaultScore; c_metadata := metadataOfStored (snd entry) |}.

Definition inCollection (name : string) (entry : string * Stored) : bool :=
  String.eqb (dungeonRaid_name (s_dungeonRaid (snd entry))) name.

(** The query asks for a final position, as the engine tests it. *)
Definition isFinalQuery (query : string) : bool :=
  positionIs (detectEncounterPosition query) PosFinal || isFinalBossQueryOf query.


(** What one iteration of the main loop pushes on either bucket. *)
Definition flowPushOf (store : Store.t) (r : Resolution) (isFinalBossQuery : bool)
    (c : Candidate) : list SearchResult :=
  match processCandidate store r isFinalBossQuery c with
  | PushFlow sr => [sr]
  | _ => []
  end.

Definition otherPushOf (store : Store.t) (r : Resolution) (isFinalBossQuery : bool)
    (c : Candidate) : list SearchResult :=
  match processCandidate store r isFinalBossQuery c with
  | PushOther sr => [sr]
  | _ => []
  end.


(** The encounters of a collection that are boss-type and carry an order,
    each counted once (by identifier). *)
Definition bossEncounterIds (store : Store.t) (name : string) : list string :=
  nodup string_dec
    (map (fun entry : string * Stored => encounter_id (s_encounter (snd entry)))
       (filter (fun entry : string * Stored =>
                  inCollection name entry
                  && isBoss (encounter_type (s_encounter (snd entry)))
                  && isSome (encounter_order (s_encounter (snd entry))))
               (Store.entries store))).

(** The [error.message] of the one error [retrieveRelevantMechanics] throws. *)
Definition retrievalFailed : string := "Failed to retrieve relevant mechanics".

(* ================================================================== *)
(** ** Maps with string keys ([Map<string, V>])                        *)
(* ================================================================== *)

Module JSMap.

Section Ops.

Variable V : Type.

(** The entries in insertion order. *)
Definition t := list (string * V).

(** [m.get(key)]. *)
Fixpoint get (m : t) (key : string) : option V :=
  match m with
  | [] => None
  | (k, v) :: rest => if String.eqb k key then Some v else get rest key
  end.

(** [m.set(key, v)]: an existing key keeps its place. *)
Fixpoint set (m : t) (key : string) (v : V) : t :=
  match m with
  | [] => [(key, v)]
  | (k, w) :: rest =>
      if String.eqb k key then (k, v) :: rest else (k, w) :: set rest key v
  end.

(** [m.delete(key)], the map afterwards. *)
Fixpoint delete (m : t) (key : string) : t :=
  match m with
  | [] => []
  | (k, w) :: rest =>
      if String.eqb k key then delete rest key else (k, w) :: delete rest key
  end.

(** [m.has(key)], also the boolean [m.delete(key)] returns. *)
Definition has (m : t) (key : string) : bool :=
  match get m key with Some _ => true | None => false end.

(** [Array.from(m.values())]. *)
Definition values (m : t) : list V := map snd m.

End Ops.

End JSMap.

(* ================================================================== *)
(** ** Rate limiter ([rate-limit] module)                              *)
(* ================================================================== *)

Module RateLimit.

(** [interface RateLimitStore]: the record kept per client. *)
Record RateLimitStore := {
  count : Z;
  resetTime : Z
}.

(** [interface RateLimitOptions]. *)
Record RateLimitOptions := {
  maxRequests : Z;
  windowMs : Z
}.

(** The object [checkRateLimit] returns. *)
Record Verdict := {
  allowed : bool;
  remaining : Z;
  resetAt : Z
}.

(** The default of the [options] parameter. *)
Definition defaultOptions : RateLimitOptions :=
  {| maxRequests := 10; windowMs := 60000 |}.

(** [checkRateLimit], with the module's map and [Date.now()] passed in and
    the map afterwards passed out.  [record.count++] updates the object the
    map holds, so the key keeps its place. *)
Definition checkRateLimit (store : JSMap.t RateLimitStore) (now : Z)
    (identifier : string) (options : RateLimitOptions)
    : JSMap.t RateLimitStore * Verdict :=
  let key := identifier in
  let record := JSMap.get store key in
  let '(record, store) :=
    match record with
    | Some r =>
        if (resetTime r <? now)%Z then (None, JSMap.delete store key)
        else (Some r, store)
    | None => (None, store)
    end in
  match record with
  | None =>
      let r := {| count := 1; resetTime := now + windowMs options |} in
      (JSMap.set store key r,
       {| allowed := true;
          remaining := maxRequests options - 1;
          resetAt := resetTime r |})
  | Some r =>
      if (maxRequests options <=? count r)%Z then
        (store, {| allowed := false; remaining := 0; resetAt := resetTime r |})
      else
        let r' := {| count := count r + 1; resetTime := resetTime r |} in
        (JSMap.set store key r',
         {| allowed := true;
            remaining := maxRequests options - count r';
            resetAt := resetTime r' |})
  end.

(** Successive calls of one client with fixed options, at the given times:
    the map afterwards and the verdicts in call order. *)
Fixpoint checkAll (store : JSMap.t RateLimitStore) (identifier : string)
    (options : RateLimitOptions) (times : list Z)
    : JSMap.t RateLimitStore * list Verdict :=
  match times with
  | [] => (store, [])
  | now :: later =>
      let (store1, v) := checkRateLimit store now identifier options in
      let (store2, vs) := checkAll store1 identifier options later in
      (store2, v :: vs)
  end.

(** The verdict of the [i]-th request of a window that ends at [reset], under
    a limit of [limit] requests. *)
Definition nthVerdict (limit reset : Z) (i : nat) : Verdict :=
  if (Z.of_nat i <=? limit)%Z
  then {| allowed := true; remaining := limit - Z.of_nat i; resetAt := reset |}
  else {| allowed := false; remaining := 0; resetAt := reset |}.

(** White space that [String.prototype.trim] strips, among the ASCII
    characters: tab, line feed, vertical tab, form feed, carriage return
    and space. *)
Definition isSpace (c : ascii) : bool :=
  let n := N_of_ascii c in
  (((9 <=? n) && (n <=? 13)) || (n =? 32))%N.

Fixpoint trimStart (s : string) : string :=
  match s with
  | String c rest => if isSpace c then trimStart rest else s
  | EmptyString => EmptyString
  end.

(** The string without its trailing white space. *)
Fixpoint trimEnd (s : string) : string :=
  match s with
  | EmptyString => EmptyString
  | String c rest =>
      match trimEnd rest with
      | EmptyString => if isSpace c then EmptyString else String c EmptyString
      | kept => String c kept
      end
  end.

(** [s.trim()]. *)
Definition trim (s : string) : string := trimEnd (trimStart s).

(** [s.split(',')[0]]: the part before the first comma. *)
Fixpoint beforeComma (s : string) : string :=
  match s with
  | EmptyString => EmptyString
  | String c rest =>
      if Ascii.eqb c ","%char then EmptyString else String c (beforeComma rest)
  end.

(** The two headers [getClientIdentifier] reads; [None] is the [null] of
    [headers.get]. *)
Record RequestHeaders := {
  xForwardedFor : option string;
  xRealIp : option string
}.

(** [getClientIdentifier]. *)
Definition getClientIdentifier (headers : RequestHeaders) : string :=
  match keepTruthy (xForwardedFor headers) with
  | Some forwarded => trim (beforeComma forwarded)
  | None =>
      match keepTruthy (xRealIp headers) with
      | Some realIp => realIp
      | None => "unknown"
      end
  end.

End RateLimit.

(* ================================================================== *)
(** ** Cache ([cache] module)                                          *)
(* ================================================================== *)

Module Cache.

Section Entries.

Variable T : Type.

(** [interface CacheEntry<T>]. *)
Record CacheEntry := {
  data : T;
  expiresAt : Z
}.

Definition t := JSMap.t CacheEntry.

(** [get(key)] at time [now]: the map afterwards and the value or [null]. *)
Definition get (cache : t) (now : Z) (key : string) : t * option T :=
  match JSMap.get cache key with
  | None => (cache, None)
  | Some entry =>
      if (expiresAt entry <? now)%Z then (JSMap.delete cache key, None)
      else (cache, Some (data entry))
  end.

(** [set(key, data, ttlMs)] at time [now]. *)
Definition set (cache : t) (now : Z) (key : string) (d : T) (ttlMs : Z) : t :=
  JSMap.set cache key {| data := d; expiresAt := now + ttlMs |}.

(** The default of [ttlMs]. *)
Definition defaultTtlMs : Z := 60000.

(** [del(key)] and [clear()]. *)
Definition del (cache : t) (key : string) : t := JSMap.delete cache key.

Definition clear (cache : t) : t := [].

End Entries.

(** [getChatCacheKey]. *)
Definition getChatCacheKey (query historyHash : string) : string :=
  "chat:" ++ historyHash ++ ":" ++ query.

End Cache.

(* ================================================================== *)
(** ** Vocabulary of the further properties                            *)
(* ================================================================== *)

(** The first and the last character of a string. *)
Definition firstChar (s : string) : option ascii :=
  match s with
  | EmptyString => None
  | String c _ => Some c
  end.

Fixpoint lastChar (s : string) : option ascii :=
  match s with
  | EmptyString => None
  | String c rest =>
      match lastChar rest with
      | Some l => Some l
      | None => Some c
      end
  end.

(** The characters of a string. *)
Definition chars (s : string) : list ascii := list_ascii_of_string s.

(* ================================================================== *)
(** ** Collection name extraction and the chat route's filter          *)
(* ================================================================== *)

(** The [dungeonNames] array of [extractDungeonName]. *)
Definition dungeonNames : list string :=
  [ "warlord's ruin"; "warlords ruin"; "duality"; "vesper's host";
    "vespers host"; "sundered doctrine"; "equilibrium" ]%string.

(** The [canonicalNames] record of [extractDungeonName]. *)
Definition canonicalNames : list (string * string) :=
  [ ("warlord's ruin", "Warlord's Ruin");
    ("warlords ruin", "Warlord's Ruin");
    ("duality", "Duality");
    ("vesper's host", "Vesper's Host");
    ("vespers host", "Vesper's Host");
    ("sundered doctrine", "Sundered Doctrine");
    ("equilibrium", "Equilibrium") ]%string.

(** [canonicalNames[name]]. *)
Fixpoint lookupName (table : list (string * string)) (name : string) : option string :=
  match table with
  | [] => None
  | (k, v) :: rest => if String.eqb k name then Some v else lookupName rest name
  end.

(** The [for] loop of [extractDungeonName] over the remaining names. *)
Fixpoint firstDungeonName (queryLower : string) (names : list string) : option string :=
  match names with
  | [] => None
  | name :: rest =>
      if JS.includes queryLower (JS.toLowerCase name) then
        Some (match keepTruthy (lookupName canonicalNames name) with
              | Some canonical => canonical
              | None => name
              end)
      else firstDungeonName queryLower rest
  end.

(** [extractDungeonName]. *)
Definition extractDungeonName (query : string) : option string :=
  let queryLower := JS.toLowerCase query in
  firstDungeonName queryLower dungeonNames.

(** The [filters] object of a validated chat request. *)
Record ChatFilters := {
  cf_dungeonRaidName : option string;
  cf_encounterType : option string;
  cf_mechanicType : option string
}.

(** The filter the chat route hands to the engine: [validated.filters || {}]
    with the collection name found in the query filled in when the request
    gave none. *)
Definition chatFilter (requestFilters : option ChatFilters) (query : string)
    : SearchFilter :=
  let extractedDungeon := extractDungeonName query in
  let filters :=
    match requestFilters with
    | Some f => f
    | None => {| cf_dungeonRaidName := None; cf_encounterType := None;
                 cf_mechanicType := None |}
    end in
  let dungeonRaidName :=
    if negb (JS.truthyOptStr (cf_dungeonRaidName filters))
       && JS.truthyOptStr extractedDungeon
    then extractedDungeon
    else cf_dungeonRaidName filters in
  {| f_dungeonRaidName := dungeonRaidName;
     f_encounterType := cf_encounterType filters;
     f_mechanicType := cf_mechanicType filters;
     f_difficulty := None;
     f_contestModeSpecific := None;
     f_encounterOrder := None |}.

(** The retrieval of the chat route: [topK] is 5. *)
Definition chatRetrieve (env : Providers) (store : Store.t)
    (requestFilters : option ChatFilters) (query : string)
    : Eff.t (list SearchResult) :=
  retrieveRelevantMechanics env store query
    {| opts_filter := Some (chatFilter requestFilters query); opts_topK := Some 5%Z |}.

(** The five collection names of the data set. *)
Definition collectionNames : list string :=
  [ "Warlord's Ruin"; "Duality"; "Vesper's Host"; "Sundered Doctrine";
    "Equilibrium" ]%string.

(** The store as [registerMechanic] keeps it: one entry per key, filed
    under the identifier of its mechanic. *)
Definition storeWellFormed (store : Store.t) : Prop :=
  NoDup (map fst store)
  /\ Forall (fun entry : string * Stored =>
               fst entry = mechanic_id (s_mechanic (snd entry))) store.

(** The store entries a final-position query counts for its maximum. *)
Definition countedForFinal (name : string) (bossOnly : bool)
    (entry : string * Stored) (order : Z) : Prop :=
  inCollection name entry = true
  /\ encounter_order (s_encounter (snd entry)) = Some order
  /\ order <> 0%Z
  /\ (bossOnly = true -> isBoss (encounter_type (s_encounter (snd entry))) = true).

(** The store entries a boss-ordinal query collects. *)
Definition bossOrderOf (name : string) (entry : string * Stored) : list Z :=
  if inCollection name entry then
    match encounter_order (s_encounter (snd entry)) with
    | Some order =>
        if isBoss (encounter_type (s_encounter (snd entry))) && JS.truthyNum order
        then [order] else []
    | None => []
    end
  else [].

(* ================================================================== *)
(** ** Context Assembler ([buildContext])                              *)
(* ================================================================== *)

(** The line feed of the template strings. *)
Definition newline : string := String (ascii_of_nat 10) EmptyString.

(** The text returned for an empty result list. *)
Definition noMechanicsFound : string := "No relevant mechanics found.".

(** The [for] loop that separates flow mechanics from the others. *)
Definition contextBuckets (results : list SearchResult)
    : list SearchResult * list SearchResult :=
  fold_left
    (fun (buckets : list SearchResult * list SearchResult) (result : SearchResult) =>
       let (flowMechanics, otherMechanics) := buckets in
       if isEncounterFlowMechanic (mechanic result)
       then (flowMechanics ++ [result], otherMechanics)
       else (flowMechanics, otherMechanics ++ [result]))
    results ([], []).

(** The pushes of one loop iteration of a section.  The two sections of the
    source differ in the marker after the mechanic name only, which [flow]
    selects.  [toFixed1] is [Number.prototype.toFixed] with one digit, a
    rendering of a floating-point number that is passed in. *)
Definition contextEntry (toFixed1 : Q -> string) (flow : bool) (result : SearchResult)
    : list string :=
  let m := mechanic result in
  [ newline ++ "---" ++ newline;
    "Dungeon/Raid: " ++ ref_name (dungeonRaid result)
      ++ " (" ++ ref_type (dungeonRaid result) ++ ")";
    "Encounter: " ++ encounter_name (encounter result);
    "Mechanic: " ++ mechanic_name m ++ (if flow then " ⭐ FLOW" else "");
    "Type: " ++ mechanic_type m;
    "Description: " ++ mechanic_description m ]%string
  ++ match keepTruthy (mechanic_solution m) with
     | Some solution => [ "Solution: " ++ solution ]%string
     | None => []
     end
  ++ match mechanic_tips m with
     | Some (tip :: tips) => [ "Tips: " ++ String.concat "; " (tip :: tips) ]%string
     | _ => []
     end
  ++ match keepTruthy (mechanic_difficulty m) with
     | Some difficulty => [ "Difficulty: " ++ difficulty ]%string
     | None => []
     end
  ++ match mechanic_contestModeSpecific m with
     | Some true =>
         [ "Contest Mode: "
           ++ match keepTruthy (mechanic_contestModeNotes m) with
              | Some notes => notes
              | None => "This mechanic is particularly important in contest mode."
              end ]%string
     | _ => []
     end
  ++ [ "Similarity Score: " ++ toFixed1 (score result * 100)%Q ++ "%" ]%string.

(** A section: nothing for an empty bucket, else its heading and entries. *)
Definition contextSection (toFixed1 : Q -> string) (flow : bool) (heading : string)
    (bucket : list SearchResult) : list string :=
  match bucket with
  | [] => []
  | _ => heading :: flat_map (contextEntry toFixed1 flow) bucket
  end.

(** The [contextParts] array before the final [join]. *)
Definition contextParts (toFixed1 : Q -> string) (results : list SearchResult)
    : list string :=
  let (flowMechanics, otherMechanics) := contextBuckets results in
  [ "Relevant Destiny 2 mechanics from historical raids and dungeons:" ++ newline;
    "⚠️ MOST IMPORTANT: Encounter Flow mechanics are listed first - these contain the overall encounter flow and strategy."
      ++ newline ]%string
  ++ contextSection toFixed1 true
       (newline ++ "=== ENCOUNTER FLOW (MOST IMPORTANT) ===" ++ newline) flowMechanics
  ++ contextSection toFixed1 false
       (newline ++ "=== OTHER MECHANICS ===" ++ newline) otherMechanics.

(** [buildContext]. *)
Definition buildContext (toFixed1 : Q -> string) (results : list SearchResult) : string :=
  match results with
  | [] => noMechanicsFound
  | _ => String.concat newline (contextParts toFixed1 results)
  end.

(** The results in the order in which [buildContext] renders them. *)
Definition renderedOrder (results : list SearchResult) : list SearchResult :=
  fst (contextBuckets results) ++ snd (contextBuckets results).

(** The two preamble lines and the two section headings of the context. *)
Definition contextPreamble : list string :=
  [ "Relevant Destiny 2 mechanics from historical raids and dungeons:" ++ newline;
    "⚠️ MOST IMPORTANT: Encounter Flow mechanics are listed first - these contain the overall encounter flow and strategy."
      ++ newline ]%string.

Definition flowHeading : string :=
  newline ++ "=== ENCOUNTER FLOW (MOST IMPORTANT) ===" ++ newline.

Definition otherHeading : string :=
  newline ++ "=== OTHER MECHANICS ===" ++ newline.

(** The constraints of a provider filter, and their number. *)
Definition stringConstraints (pf : PineconeFilter) : list (option string) :=
  [ pf_dungeonRaidName pf; pf_encounterType pf; pf_mechanicType pf; pf_difficulty pf ].

Definition constraintCount (pf : PineconeFilter) : nat :=
  length (filter isSome (stringConstraints pf))
  + (if isSome (pf_contestModeSpecific pf) then 1 else 0)
  + (if isSome (pf_encounterOrder pf) then 1 else 0).

(** The [error.message] of the one error [searchSimilar] throws. *)
Definition searchFailed : string := "Failed to search vector store".

(* ================================================================== *)
(** ** Ingestion: embeddings in batches, upsert in batches, the route  *)
(* ================================================================== *)

(** [buildMechanicText] ([embeddings] module). *)
Definition buildMechanicText (mechanicName description : string)
    (solution : option string) (tips : option (list string))
    (encounterName dungeonRaidName : option string) : string :=
  let parts :=
    [ "Mechanic: " ++ mechanicName ]%string
    ++ match keepTruthy dungeonRaidName with
       | Some d => [ "Location: " ++ d ]%string
       | None => []
       end
    ++ match keepTruthy encounterName with
       | Some e => [ "Encounter: " ++ e ]%string
       | None => []
       end
    ++ [ "Description: " ++ description ]%string
    ++ match keepTruthy solution with
       | Some s => [ "Solution: " ++ s ]%string
       | None => []
       end
    ++ match tips with
       | Some (tip :: rest) => [ "Tips: " ++ String.concat " " (tip :: rest) ]%string
       | _ => []
       end in
  String.concat newline parts.

(** [interface UpsertVector] ([vector-store] module). *)
Record UpsertVector := {
  uv_id : string;
  uv_values : list Q;
  uv_metadata : VectorMetadata
}.

(** What ingestion does that is visible outside the process. *)
Inductive IngestEvent :=
| EmbedBatch (input : list string)
| Progress (processed total : nat)
| Sleep (ms : Z)
| UpsertBatch (batch : list UpsertVector).

(** The collaborators of ingestion: the embedding endpoint on a batch,
    [getIndex()] and [index.upsert]. *)
Record IngestProviders := {
  createEmbeddings : list string -> Outcome (list (list Q));
  ingestGetIndex : Outcome unit;
  indexUpsert : list UpsertVector -> Outcome unit
}.

Module Log.

(** A computation: its events in order, and its end. *)
Definition t (A : Type) : Type := list IngestEvent * Outcome A.

Definition ret {A} (a : A) : t A := ([], Returned a).

Definition throw {A} (message : string) : t A := ([], Thrown message).

Definition bind {A B} (m : t A) (k : A -> t B) : t B :=
  match m with
  | (log, Thrown e) => (log, Thrown e)
  | (log, Returned a) => let (log', r) := k a in (log ++ log', r)
  end.

Definition tryCatch {A} (m : t A) (handler : string -> t A) : t A :=
  match m with
  | (log, Thrown e) => let (log', r) := handler e in (log ++ log', r)
  | (log, Returned a) => (log, Returned a)
  end.

Definition emit {A} (e : IngestEvent) (result : Outcome A) : t A := ([e], result).

Definition events {A} (m : t A) : list IngestEvent := fst m.
Definition outcome {A} (m : t A) : Outcome A := snd m.

End Log.

Declare Scope log_scope.
Delimit Scope log_scope with log.
Notation "x <- m ;; k" := (Log.bind m (fun x => k))
  (at level 61, m at next level, right associativity) : log_scope.

(** [BATCH_SIZE] of the embeddings module and [batchSize] of
    [upsertMechanics]: both 100. *)
Definition BATCH_SIZE : nat := 100.

(** [arr.slice(start, end)] for [0 <= start <= end]. *)
Definition sliceRange {A : Type} (arr : list A) (start end_ : nat) : list A :=
  firstn (end_ - start) (skipn start arr).

(** The values of the loop variable of
    [for (let i = 0; i < n; i += BATCH_SIZE)]: 0, 100, 200, ... below [n]. *)
Definition batchStarts (n : nat) : list nat :=
  map (fun k => k * BATCH_SIZE)%nat (seq 0 ((n + (BATCH_SIZE - 1)) / BATCH_SIZE)).

(** The body of the loop of [generateEmbeddings], iteration by iteration;
    [onProgress] tells whether the callback was given. *)
Fixpoint embedLoop (env : IngestProviders) (onProgress : bool) (texts : list string)
    (starts : list nat) (embeddings : list (list Q)) (processed : nat)
    : Log.t (list (list Q)) :=
  match starts with
  | [] => Log.ret embeddings
  | i :: later =>
      let batch := sliceRange texts i (i + BATCH_SIZE) in
      (batchEmbeddings <- Log.emit (EmbedBatch batch) (createEmbeddings env batch) ;;
       let embeddings := embeddings ++ batchEmbeddings in
       let processed := (processed + length batch)%nat in
       _ <- (if onProgress
             then Log.emit (Progress processed (length texts)) (Returned tt)
             else Log.ret tt) ;;
       _ <- (if (i + BATCH_SIZE <? length texts)%nat
             then Log.emit (Sleep 100) (Returned tt)
             else Log.ret tt) ;;
       embedLoop env onProgress texts later embeddings processed)%log
  end.

(** [generateEmbeddings] ([embeddings] module). *)
Definition generateEmbeddings (env : IngestProviders) (onProgress : bool)
    (texts : list string) : Log.t (list (list Q)) :=
  Log.tryCatch
    (embedLoop env onProgress texts (batchStarts (length texts)) [] 0)
    (fun message => Log.throw ("Failed to generate embeddings: " ++ message)).

(** The loop of [upsertMechanics]. *)
Fixpoint upsertLoop (env : IngestProviders) (vectors : list UpsertVector)
    (starts : list nat) : Log.t unit :=
  match starts with
  | [] => Log.ret tt
  | i :: later =>
      let batch := sliceRange vectors i (i + BATCH_SIZE) in
      (_ <- Log.emit (UpsertBatch batch) (indexUpsert env batch) ;;
       upsertLoop env vectors later)%log
  end.

(** [upsertMechanics] ([vector-store] module). *)
Definition upsertMechanics (env : IngestProviders) (vectors : list UpsertVector)
    : Log.t unit :=
  Log.tryCatch
    (_ <- (([], ingestGetIndex env) : Log.t unit) ;;
     upsertLoop env vectors (batchStarts (length vectors)))%log
    (fun _ => Log.throw "Failed to upsert mechanics to vector store").

(** The text the ingest route embeds for an item. *)
Definition ingestText (item : Stored) : string :=
  buildMechanicText
    (mechanic_name (s_mechanic item))
    (mechanic_description (s_mechanic item))
    (mechanic_solution (s_mechanic item))
    (mechanic_tips (s_mechanic item))
    (Some (encounter_name (s_encounter item)))
    (Some (dungeonRaid_name (s_dungeonRaid item))).

(** The vector the ingest route builds from an embedding and its item. *)
Definition ingestVector (embedding : list Q) (item : Stored) : UpsertVector :=
  {| uv_id := mechanic_id (s_mechanic item);
     uv_values := embedding;
     uv_metadata :=
       {| md_mechanicId := mechanic_id (s_mechanic item);
          md_mechanicName := mechanic_name (s_mechanic item);
          md_encounterId := encounter_id (s_encounter item);
          md_encounterName := encounter_name (s_encounter item);
          md_encounterOrder := encounter_order (s_encounter item);
          md_dungeonRaidId := dungeonRaid_id (s_dungeonRaid item);
          md_dungeonRaidName := dungeonRaid_name (s_dungeonRaid item);
          md_dungeonRaidType := dungeonRaid_type (s_dungeonRaid item);
          md_mechanicType := mechanic_type (s_mechanic item);
          md_encounterType := encounter_type (s_encounter item);
          md_difficulty := mechanic_difficulty (s_mechanic item);
          md_contestModeSpecific := mechanic_contestModeSpecific (s_mechanic item) |} |}.

(** [embeddings.map((embedding, index) => ... metadata[index] ...)]: reading
    a field of [metadata[index]] beyond the array throws a [TypeError]. *)
Fixpoint ingestVectors (embeddings : list (list Q)) (metadata : list Stored)
    : Outcome (list UpsertVector) :=
  match embeddings, metadata with
  | [], _ => Returned []
  | _ :: _, [] => Thrown "Cannot read properties of undefined (reading 'mechanic')"
  | embedding :: es, item :: items =>
      match ingestVectors es items with
      | Returned vs => Returned (ingestVector embedding item :: vs)
      | Thrown m => Thrown m
      end
  end.

(** The [for] loop that registers the items in the store. *)
Definition registerAll (store : Store.t) (items : list Stored) : Store.t :=
  fold_left
    (fun store item =>
       registerMechanic store (s_mechanic item) (s_encounter item) (s_dungeonRaid item))
    items store.

(** The responses of the ingest route to a request that passed validation. *)
Inductive IngestResponse :=
| IngestRateLimited (resetAt : Z)
| Ingested (ingested : nat) (remaining : Z)
| IngestFailed (message : string).

(** The state the ingest route works on, and what a run leaves behind. *)
Record IngestRun := {
  run_limiter : JSMap.t RateLimit.RateLimitStore;
  run_store : Store.t;
  run_events : list IngestEvent;
  run_response : IngestResponse
}.

(** The [POST] handler of the ingest route after validation: rate limit of 5
    requests a minute, embeddings, vectors, upsert, registration. *)
Definition ingestRoute (env : IngestProviders)
    (limiter : JSMap.t RateLimit.RateLimitStore) (store : Store.t)
    (now : Z) (headers : RateLimit.RequestHeaders) (mechanics : list Stored)
    : IngestRun :=
  let clientId := RateLimit.getClientIdentifier headers in
  let (limiter', rateLimit) :=
    RateLimit.checkRateLimit limiter now clientId
      {| RateLimit.maxRequests := 5; RateLimit.windowMs := 60000 |} in
  if negb (RateLimit.allowed rateLimit) then
    {| run_limiter := limiter'; run_store := store; run_events := [];
       run_response := IngestRateLimited (RateLimit.resetAt rateLimit) |}
  else
    let texts := map ingestText mechanics in
    let work :=
      (embeddings <- generateEmbeddings env true texts ;;
       vectors <- (([], ingestVectors embeddings mechanics) : Log.t (list UpsertVector)) ;;
       upsertMechanics env vectors)%log in
    match Log.outcome work with
    | Returned _ =>
        {| run_limiter := limiter';
           run_store := registerAll store mechanics;
           run_events := Log.events work;
           run_response := Ingested (length mechanics) (RateLimit.remaining rateLimit) |}
    | Thrown message =>
        {| run_limiter := limiter'; run_store := store;
           run_events := Log.events work;
           run_response := IngestFailed message |}
    end.

(** The batches of a list: its consecutive slices of [BATCH_SIZE]. *)
Definition batchesOf {A : Type} (l : list A) : list (list A) :=
  map (fun i => sliceRange l i (i + BATCH_SIZE)) (batchStarts (length l)).

(** The batches up to and including the first one the provider refuses. *)
Fixpoint throughFirstFailure (env : IngestProviders) (batches : list (list UpsertVector))
    : list (list UpsertVector) :=
  match batches with
  | [] => []
  | b :: rest =>
      match indexUpsert env b with
      | Returned _ => b :: throughFirstFailure env rest
      | Thrown _ => [b]
      end
  end.

(** The [error.message] of the one error [upsertMechanics] throws. *)
Definition upsertFailed : string := "Failed to upsert mechanics to vector store".

(** The events of one iteration of [generateEmbeddings] at loop value [i]
    over [n] texts: the request, the progress notification with the running
    total, and the pause when more texts remain. *)
Definition embedIteration (texts : list string) (i : nat) : list IngestEvent :=
  [ EmbedBatch (sliceRange texts i (i + BATCH_SIZE));
    Progress (Nat.min (i + BATCH_SIZE) (length texts)) (length texts) ]
  ++ (if (i + BATCH_SIZE <? length texts)%nat then [Sleep 100] else []).

(** The item of a request that is registered last under an identifier. *)
Definition lastWithId (items : list Stored) (mechanicId : string) : option Stored :=
  find (fun item => String.eqb (mechanic_id (s_mechanic item)) mechanicId) (rev items).

(** The candidate [searchSimilar] makes of a provider match that carries an
    ingested vector's identifier and metadata. *)
Definition candidateOfVector (v : UpsertVector) (similarity : Q) : Candidate :=
  {| c_id := uv_id v; c_score := similarity; c_metadata := uv_metadata v |}.

(** The [error.message] prefix of [generateEmbeddings]. *)
Definition embeddingsFailed (message : string) : string :=
  "Failed to generate embeddings: " ++ message.

(* ================================================================== *)
(** ** The search route                                                *)
(* ================================================================== *)

(** The [filters] object of a validated search request. *)
Record SearchRequestFilters := {
  sf_dungeonRaidName : option string;
  sf_encounterType : option string;
  sf_mechanicType : option string;
  sf_difficulty : option string;
  sf_contestModeOnly : option bool
}.

(** A search request that passed [SearchRequestSchema]. *)
Record SearchRequest := {
  sq_query : string;
  sq_filters : option SearchRequestFilters;
  sq_limit : option Z
}.

(** The request's filter object read as the [filter] of [SearchOptions]: the
    engine and [searchSimilar] read [contestModeSpecific] and
    [encounterOrder], which the object does not have. *)
Definition filterOfRequest (f : SearchRequestFilters) : SearchFilter :=
  {| f_dungeonRaidName := sf_dungeonRaidName f;
     f_encounterType := sf_encounterType f;
     f_mechanicType := sf_mechanicType f;
     f_difficulty := sf_difficulty f;
     f_contestModeSpecific := None;
     f_encounterOrder := None |}.

(** [getSearchCacheKey] ([cache] module); [stringify] is [JSON.stringify] on
    the filter object, passed in. *)
Definition getSearchCacheKey (stringify : SearchRequestFilters -> string)
    (query : string) (filters : option SearchRequestFilters) : string :=
  let filterStr := match filters with Some f => stringify f | None => EmptyString end in
  "search:" ++ query ++ ":" ++ filterStr.

(** The responses of the search route to a validated request. *)
Inductive SearchResponse :=
| SearchRateLimited (resetAt : Z)
| SearchOk (results : list SearchResult) (cached : bool) (remaining : Z)
| SearchFailed (message : string).

(** What a run of the search route leaves behind. *)
Record SearchRun := {
  search_limiter : JSMap.t RateLimit.RateLimitStore;
  search_cache : Cache.t (list SearchResult);
  search_calls : list ProviderCall;
  search_response : SearchResponse
}.

(** The options the search route hands to the engine. *)
Definition searchRouteOptions (validated : SearchRequest) : SearchOptions :=
  {| opts_filter := option_map filterOfRequest (sq_filters validated);
     opts_topK := Some (JS.orDefault (sq_limit validated) 10) |}.

(** The [POST] handler of the search route after validation.  The three
    clock readings are those of [checkRateLimit], of the cache read and of
    the cache write. *)
Definition searchRoute (stringify : SearchRequestFilters -> string)
    (env : Providers) (store : Store.t)
    (limiter : JSMap.t RateLimit.RateLimitStore) (cache : Cache.t (list SearchResult))
    (nowLimit nowGet nowSet : Z)
    (headers : RateLimit.RequestHeaders) (validated : SearchRequest) : SearchRun :=
  let clientId := RateLimit.getClientIdentifier headers in
  let (limiter', rateLimit) :=
    RateLimit.checkRateLimit limiter nowLimit clientId
      {| RateLimit.maxRequests := 20; RateLimit.windowMs := 60000 |} in
  if negb (RateLimit.allowed rateLimit) then
    {| search_limiter := limiter'; search_cache := cache; search_calls := [];
       search_response := SearchRateLimited (RateLimit.resetAt rateLimit) |}
  else
    let cacheKey :=
      getSearchCacheKey stringify (sq_query validated) (sq_filters validated) in
    let (cache1, cached) := Cache.get cache nowGet cacheKey in
    match cached with
    | Some results =>
        {| search_limiter := limiter'; search_cache := cache1; search_calls := [];
           search_response := SearchOk results true (RateLimit.remaining rateLimit) |}
    | None =>
        let run :=
          retrieveRelevantMechanics env store (sq_query validated)
            (searchRouteOptions validated) in
        match Eff.outcome run with
        | Returned results =>
            {| search_limiter := limiter';
               search_cache := Cache.set cache1 nowSet cacheKey results (5 * 60 * 1000);
               search_calls := Eff.calls run;
               search_response :=
                 SearchOk results false (RateLimit.remaining rateLimit) |}
        | Thrown message =>
            {| search_limiter := limiter'; search_cache := cache1;
               search_calls := Eff.calls run;
               search_response := SearchFailed message |}
        end
    end.

(** The provider filter of a logged call, if the call is a query. *)
Definition callFilter (c : ProviderCall) : option PineconeFilter :=
  match c with
  | IndexQueryCall request => qr_filter request
  | EmbeddingCall _ => None
  end.

(* ================================================================== *)
(** ** Session store ([sessions] module)                               *)
(* ================================================================== *)

Module Sessions.

(** [interface SessionMechanic]; a [Date] is its time value. *)
Record SessionMechanic := {
  sm_id : string;
  sm_name : string;
  sm_description : string;
  sm_encounter : string;
  sm_type : option string;
  sm_difficulty : option string;
  sm_discoveredAt : Z;
  sm_status : string;
  sm_solution : option string;
  sm_tips : option (list string)
}.

(** [interface EncounterContext]. *)
Record EncounterContext := {
  ec_id : string;
  ec_name : string;
  ec_order : Z;
  ec_startedAt : Z
}.

(** [interface Session]. *)
Record Session := {
  id : string;
  dungeonName : string;
  startTime : Z;
  currentEncounter : option string;
  mechanics : list SessionMechanic;
  encounters : list EncounterContext
}.

(** The map [sessions]. *)
Definition t := JSMap.t Session.

(** [`${n}`] for an integer. *)
Definition showNumber (n : Z) : string := NilZero.string_of_int (Z.to_int n).

(** The readings of the clock one call takes, in the order it takes them:
    [Date.now()] for the identifier and [new Date()] for the time stamp of
    the object, then the same two for an encounter the call creates. *)
Record Clock := {
  idNow : Z;
  dateNow : Z;
  encounterIdNow : Z;
  encounterDateNow : Z
}.

(** [createSession]: [random] is the text
    [Math.random().toString(36).substr(2, 9)]. *)
Definition createSession (sessions : t) (clock : Clock) (random : string)
    (dungeonName : string) (currentEncounter : option string) : t * Session :=
  let session :=
    {| id := "session-" ++ showNumber (idNow clock) ++ "-" ++ random;
       dungeonName := dungeonName;
       startTime := dateNow clock;
       currentEncounter := currentEncounter;
       mechanics := [];
       encounters :=
         match keepTruthy currentEncounter with
         | Some name =>
             [ {| ec_id := "encounter-" ++ showNumber (encounterIdNow clock);
                  ec_name := name;
                  ec_order := 1;
                  ec_startedAt := encounterDateNow clock |} ]
         | None => []
         end |} in
  (JSMap.set sessions (id session) session, session).

(** [getSession] and [getAllSessions]. *)
Definition getSession (sessions : t) (sessionId : string) : option Session :=
  JSMap.get sessions sessionId.

Definition getAllSessions (sessions : t) : list Session := JSMap.values sessions.

(** The [updates] of [updateSession]; [None] is an absent key or one
    holding [undefined]. *)
Record SessionUpdates := {
  su_dungeonName : option string;
  su_currentEncounter : option string
}.

(** [updateSession]. *)
Definition updateSession (sessions : t) (clock : Clock) (sessionId : string)
    (updates : SessionUpdates) : t * option Session :=
  match JSMap.get sessions sessionId with
  | None => (sessions, None)
  | Some session =>
      let session :=
        match su_dungeonName updates with
        | Some d =>
            {| id := id session; dungeonName := d; startTime := startTime session;
               currentEncounter := currentEncounter session;
               mechanics := mechanics session; encounters := encounters session |}
        | None => session
        end in
      let session :=
        match su_currentEncounter updates with
        | Some name =>
            let existingEncounter :=
              find (fun e => String.eqb (ec_name e) name) (encounters session) in
            {| id := id session; dungeonName := dungeonName session;
               startTime := startTime session;
               currentEncounter := Some name;
               mechanics := mechanics session;
               encounters :=
                 match existingEncounter with
                 | None =>
                     if JS.truthyStr name then
                       encounters session
                       ++ [ {| ec_id := "encounter-" ++ showNumber (encounterIdNow clock);
                               ec_name := name;
                               ec_order := Z.of_nat (length (encounters session)) + 1;
                               ec_startedAt := encounterDateNow clock |} ]
                     else encounters session
                 | Some _ => encounters session
                 end |}
        | None => session
        end in
      (JSMap.set sessions sessionId session, Some session)
  end.

(** The argument of [addMechanic]: a mechanic without [id] and
    [discoveredAt]; [status] may be missing at run time. *)
Record MechanicInput := {
  mi_name : string;
  mi_description : string;
  mi_encounter : string;
  mi_type : option string;
  mi_difficulty : option string;
  mi_status : option string;
  mi_solution : option string;
  mi_tips : option (list string)
}.

Definition withMechanics (session : Session) (ms : list SessionMechanic) : Session :=
  {| id := id session; dungeonName := dungeonName session;
     startTime := startTime session; currentEncounter := currentEncounter session;
     mechanics := ms; encounters := encounters session |}.

(** [addMechanic]. *)
Definition addMechanic (sessions : t) (clock : Clock) (random : string)
    (sessionId : string) (mechanic : MechanicInput) : t * option SessionMechanic :=
  match JSMap.get sessions sessionId with
  | None => (sessions, None)
  | Some session =>
      let newMechanic :=
        {| sm_id := "mechanic-" ++ showNumber (idNow clock) ++ "-" ++ random;
           sm_name := mi_name mechanic;
           sm_description := mi_description mechanic;
           sm_encounter := mi_encounter mechanic;
           sm_type := mi_type mechanic;
           sm_difficulty := mi_difficulty mechanic;
           sm_discoveredAt := dateNow clock;
           sm_status := match keepTruthy (mi_status mechanic) with
                        | Some status => status
                        | None => "discovered"
                        end;
           sm_solution := mi_solution mechanic;
           sm_tips := mi_tips mechanic |} in
      (JSMap.set sessions sessionId
         (withMechanics session (mechanics session ++ [newMechanic])),
       Some newMechanic)
  end.

(** [arr.findIndex(m => m.id === mechanicId)]; [None] is -1. *)
Fixpoint findIndex (ms : list SessionMechanic) (mechanicId : string) : option nat :=
  match ms with
  | [] => None
  | m :: rest =>
      if String.eqb (sm_id m) mechanicId then Some 0%nat
      else option_map S (findIndex rest mechanicId)
  end.

(** The [updates] of [updateMechanic]: [None] is an absent key; on an
    optional field [Some None] is a key holding [undefined]. *)
Record MechanicUpdates := {
  mu_name : option string;
  mu_description : option string;
  mu_encounter : option string;
  mu_type : option (option string);
  mu_difficulty : option (option string);
  mu_status : option string;
  mu_solution : option (option string);
  mu_tips : option (option (list string))
}.

Definition orElse {A : Type} (update : option A) (current : A) : A :=
  match update with Some v => v | None => current end.

(** [{ ...mechanic, ...updates }]. *)
Definition applyUpdates (m : SessionMechanic) (u : MechanicUpdates) : SessionMechanic :=
  {| sm_id := sm_id m;
     sm_name := orElse (mu_name u) (sm_name m);
     sm_description := orElse (mu_description u) (sm_description m);
     sm_encounter := orElse (mu_encounter u) (sm_encounter m);
     sm_type := orElse (mu_type u) (sm_type m);
     sm_difficulty := orElse (mu_difficulty u) (sm_difficulty m);
     sm_discoveredAt := sm_discoveredAt m;
     sm_status := orElse (mu_status u) (sm_status m);
     sm_solution := orElse (mu_solution u) (sm_solution m);
     sm_tips := orElse (mu_tips u) (sm_tips m) |}.

(** [arr[index] = v] for an index inside the array. *)
Fixpoint setAt (ms : list SessionMechanic) (index : nat) (v : SessionMechanic)
    : list SessionMechanic :=
  match ms, index with
  | [], _ => []
  | _ :: rest, O => v :: rest
  | m :: rest, S i => m :: setAt rest i v
  end.

(** [arr.splice(index, 1)], the array afterwards. *)
Fixpoint removeAt (ms : list SessionMechanic) (index : nat) : list SessionMechanic :=
  match ms, index with
  | [], _ => []
  | _ :: rest, O => rest
  | m :: rest, S i => m :: removeAt rest i
  end.

(** [updateMechanic]. *)
Definition updateMechanic (sessions : t) (sessionId mechanicId : string)
    (updates : MechanicUpdates) : t * option SessionMechanic :=
  match JSMap.get sessions sessionId with
  | None => (sessions, None)
  | Some session =>
      match findIndex (mechanics session) mechanicId with
      | None => (sessions, None)
      | Some mechanicIndex =>
          match nth_error (mechanics session) mechanicIndex with
          | Some current =>
              let updated := applyUpdates current updates in
              (JSMap.set sessions sessionId
                 (withMechanics session (setAt (mechanics session) mechanicIndex updated)),
               Some updated)
          | None => (sessions, None)
          end
      end
  end.

(** [deleteMechanic]. *)
Definition deleteMechanic (sessions : t) (sessionId mechanicId : string) : t * bool :=
  match JSMap.get sessions sessionId with
  | None => (sessions, false)
  | Some session =>
      match findIndex (mechanics session) mechanicId with
      | None => (sessions, false)
      | Some mechanicIndex =>
          (JSMap.set sessions sessionId
             (withMechanics session (removeAt (mechanics session) mechanicIndex)),
           true)
      end
  end.

(** [text?.toLowerCase().includes(queryLower)] on an optional text. *)
Definition optIncludes (text : option string) (queryLower : string) : bool :=
  match text with
  | Some s => JS.includes (JS.toLowerCase s) queryLower
  | None => false
  end.

(** The predicate of the [filter] in [searchSessionMechanics]. *)
Definition matchesQuery (queryLower : string) (mechanic : SessionMechanic) : bool :=
  JS.includes (JS.toLowerCase (sm_name mechanic)) queryLower
  || JS.includes (JS.toLowerCase (sm_description mechanic)) queryLower
  || JS.includes (JS.toLowerCase (sm_encounter mechanic)) queryLower
  || optIncludes (sm_solution mechanic) queryLower
  || match sm_tips mechanic with
     | Some tips => existsb (fun tip => JS.includes (JS.toLowerCase tip) queryLower) tips
     | None => false
     end.

(** [searchSessionMechanics]. *)
Definition searchSessionMechanics (sessions : t) (sessionId query : string)
    : list SessionMechanic :=
  match JSMap.get sessions sessionId with
  | None => []
  | Some session =>
      let queryLower := JS.toLowerCase query in
      filter (matchesQuery queryLower) (mechanics session)
  end.

(** [deleteSession]: the map afterwards and what [Map.delete] returns. *)
Definition deleteSession (sessions : t) (sessionId : string) : t * bool :=
  (JSMap.delete sessions sessionId, JSMap.has sessions sessionId).

(** [arr.sort((a, b) => b.startTime.getTime() - a.startTime.getTime())]: a
    stable sort, latest start first. *)
Fixpoint insertByStart (x : Session) (l : list Session) : list Session :=
  match l with
  | [] => [x]
  | y :: ys =>
      if (startTime y <=? startTime x)%Z then x :: l else y :: insertByStart x ys
  end.

Definition sortByStart (arr : list Session) : list Session :=
  fold_right insertByStart [] arr.

(** [getLatestSession]. *)
Definition getLatestSession (sessions : t) : option Session :=
  let allSessions := getAllSessions sessions in
  match allSessions with
  | [] => None
  | _ => hd_error (sortByStart allSessions)
  end.

(** The encounter list of a session as the module keeps it: names distinct
    and not empty, orders 1, 2, 3, ... in list order. *)
Definition encountersOk (session : Session) : Prop :=
  NoDup (map ec_name (encounters session))
  /\ Forall (fun e => ec_name e <> EmptyString) (encounters session)
  /\ map ec_order (encounters session)
     = map (fun k => Z.of_nat k) (seq 1 (length (encounters session))).

(** The calls of the module that change the map. *)
Inductive Op :=
| OpCreate (clock : Clock) (random dungeonName : string)
    (currentEncounter : option string)
| OpUpdateSession (clock : Clock) (sessionId : string) (updates : SessionUpdates)
| OpAddMechanic (clock : Clock) (random sessionId : string) (mechanic : MechanicInput)
| OpUpdateMechanic (sessionId mechanicId : string) (updates : MechanicUpdates)
| OpDeleteMechanic (sessionId mechanicId : string)
| OpDeleteSession (sessionId : string).

Definition apply (sessions : t) (op : Op) : t :=
  match op with
  | OpCreate now random d c => fst (createSession sessions now random d c)
  | OpUpdateSession now sid u => fst (updateSession sessions now sid u)
  | OpAddMechanic now random sid m => fst (addMechanic sessions now random sid m)
  | OpUpdateMechanic sid mid u => fst (updateMechanic sessions sid mid u)
  | OpDeleteMechanic sid mid => fst (deleteMechanic sessions sid mid)
  | OpDeleteSession sid => fst (deleteSession sessions sid)
  end.

(** The map after a sequence of calls on the empty map. *)
Definition run (ops : list Op) : t := fold_left apply ops [].

End Sessions.

(** A session with one encounter and two captured mechanics. *)
Module SessionSample.

Local Open Scope string_scope.

Definition clockAt (time : Z) : Sessions.Clock :=
  {| Sessions.idNow := time;
     Sessions.dateNow := time;
     Sessions.encounterIdNow := time;
     Sessions.encounterDateNow := time + 1 |}.

Definition capture (name description : string) : Sessions.MechanicInput :=
  {| Sessions.mi_name := name;
     Sessions.mi_description := description;
     Sessions.mi_encounter := "Nightmare of Gahlran";
     Sessions.mi_type := None;
     Sessions.mi_difficulty := None;
     Sessions.mi_status := None;
     Sessions.mi_solution := None;
     Sessions.mi_tips := None |}.

Definition sessionId : string := "session-1000-k3x9".

Definition sessions : Sessions.t :=
  Sessions.run
    [ Sessions.OpCreate (clockAt 1000) "k3x9" "Duality" (Some "Nightmare of Gahlran");
      Sessions.OpAddMechanic (clockAt 2000) "a1" sessionId
        (capture "Bell Ringing" "Shoot the bell to swap realms");
      Sessions.OpAddMechanic (clockAt 3000) "b2" sessionId
        (capture "Standard Bearers" "Kill the bearer and carry the standard") ].

Definition noUpdates : Sessions.MechanicUpdates :=
  {| Sessions.mu_name := None;
     Sessions.mu_description := None;
     Sessions.mu_encounter := None;
     Sessions.mu_type := None;
     Sessions.mu_difficulty := None;
     Sessions.mu_status := None;
     Sessions.mu_solution := None;
     Sessions.mu_tips := None |}.

Definition solved : Sessions.MechanicUpdates :=
  {| Sessions.mu_name := None;
     Sessions.mu_description := None;
     Sessions.mu_encounter := None;
     Sessions.mu_type := None;
     Sessions.mu_difficulty := None;
     Sessions.mu_status := Some "solved"%string;
     Sessions.mu_solution := Some (Some "Ring both bells within five seconds"%string);
     Sessions.mu_tips := None |}.

End SessionSample.

(* ================================================================== *)
(** ** Loading the Mechanic Store ([loadMechanicStore])                *)
(* ================================================================== *)

(** The module state of [rag]: the map [mechanicStore] and the flag
    [storeLoaded]. *)
Record RagState := {
  rag_store : Store.t;
  rag_storeLoaded : bool
}.

(** What [loadMechanicStore] finds on disk.  [None]: an import or the
    directory listing throws, which the outer [catch] swallows.  Otherwise
    one element per [.json] file, in listing order: the collection that
    [DungeonRaidSchema.parse] returns, or [None] when reading the file,
    [JSON.parse] or the schema throws, which the [catch] inside the loop
    swallows. *)
Definition DataDir := option (list (option DungeonRaid)).

(** The two nested [for] loops over one parsed file. *)
Definition registerDungeonRaid (store : Store.t) (d : DungeonRaid) : Store.t :=
  fold_left
    (fun store e =>
       fold_left (fun store m => registerMechanic store m e d)
                 (encounter_mechanics e) store)
    (dungeonRaid_encounters d) store.

(** [loadMechanicStore]: it never throws. *)
Definition loadMechanicStore (dataDir : DataDir) (state : RagState) : RagState :=
  if rag_storeLoaded state then state
  else
    match dataDir with
    | None => state
    | Some files =>
        {| rag_store :=
             fold_left
               (fun store file =>
                  match file with
                  | Some d => registerDungeonRaid store d
                  | None => store
                  end)
               files (rag_store state);
           rag_storeLoaded := true |}
    end.

(** [retrieveRelevantMechanics] on the module state: the awaited
    [loadMechanicStore] first, then the engine on the map it leaves. *)
Definition retrieveFromState (env : Providers) (dataDir : DataDir) (state : RagState)
    (query : string) (options : SearchOptions) : RagState * Eff.t (list SearchResult) :=
  let state' := loadMechanicStore dataDir state in
  (state', retrieveRelevantMechanics env (rag_store state') query options).

(** The triples a parsed file holds, in the order of the two loops. *)
Definition triplesOf (d : DungeonRaid) : list Stored :=
  flat_map
    (fun e =>
       map (fun m => {| s_mechanic := m; s_encounter := e; s_dungeonRaid := d |})
           (encounter_mechanics e))
    (dungeonRaid_encounters d).

(** The triples of all the files that parse. *)
Definition diskTriples (dataDir : DataDir) : list Stored :=
  match dataDir with
  | None => []
  | Some files =>
      flat_map (fun file => match file with Some d => triplesOf d | None => [] end) files
  end.

(** The position filter keeps a candidate: there is no target, or the
    candidate's resolved order is the target or is undefined. *)
Definition keptAt (store : Store.t) (target : option Z) (c : Candidate) : bool :=
  match target, resolvedOrder store c with
  | Some t, Some o => (o =? t)%Z
  | _, _ => true
  end.

(** The candidate's resolved order is the target. *)
Definition atTarget (store : Store.t) (target : option Z) (c : Candidate) : bool :=
  match target, resolvedOrder store c with
  | Some t, Some o => (o =? t)%Z
  | _, _ => false
  end.

(** The score of a result built from a candidate at the default 0.5:
    min(1, 0.5 + 0.8) = 1 when its order is the target, with or without the
    flow boost on top; otherwise min(1, 0.5 + 0.3) = 0.8 for a flow mechanic
    and the default itself for any other. *)
Definition fallbackScore (positionMatched flow : bool) : Q :=
  if positionMatched then 1 else if flow then 0.8 else 0.5.

(** A collection file as [loadMechanicStore] parses it: one boss encounter
    with its two mechanics. *)
Module DiskSample.

Local Open Scope string_scope.

Definition gahlranOnDisk : Encounter :=
  {| encounter_id := "gahlran"; encounter_name := "Nightmare of Gahlran";
     encounter_description := "Second encounter"; encounter_type := "boss";
     encounter_mechanics :=
       [ Sample.mkMechanic "m-gflow" "Gahlran Encounter Flow";
         Sample.mkMechanic "m-bells" "Bell Ringing" ];
     encounter_order := Some 2%Z |}.

Definition dualityFile : DungeonRaid :=
  {| dungeonRaid_id := "duality"; dungeonRaid_name := "Duality";
     dungeonRaid_type := "dungeon"; dungeonRaid_description := "";
     dungeonRaid_encounters := [gahlranOnDisk];
     dungeonRaid_releaseDate := None; dungeonRaid_contestModeDate := None |}.

(** An ingested item whose identifier no file carries. *)
Definition urns : Stored :=
  {| s_mechanic := Sample.mkMechanic "m-urns" "Urn carrying";
     s_encounter := Sample.vault;
     s_dungeonRaid := Sample.duality |}.

End DiskSample.

(* ================================================================== *)
(** ** Query Interpreter: properties                                   *)
(* ================================================================== *)

Section QueryInterpreter.

Local Open Scope string_scope.

Lemma lowerAscii_idempotent (c : ascii) :
  JS.lowerAscii (JS.lowerAscii c) = JS.lowerAscii c.
Proof.
  destruct c as [[] [] [] [] [] [] [] []]; reflexivity.
Qed.

Lemma toLowerCase_idempotent (s : string) :
  JS.toLowerCase (JS.toLowerCase s) = JS.toLowerCase s.
Proof.
  induction s as [| c rest IH]; simpl.
  - reflexivity.
  - now rewrite lowerAscii_idempotent, IH.
Qed.

Lemma table_orderNumbers :
  Forall (fun row => orderNumber (snd row) = expectedOrderNumber (snd row))
         positionPhraseTable.
Proof.
  unfold positionPhraseTable. repeat constructor.
Qed.

Lemma firstMatchingPhrase_in (q : string) table spec :
  firstMatchingPhrase q table = Some spec ->
  exists phrases, In (phrases, spec) table /\ existsb (JS.includes q) phrases = true.
Proof.
  induction table as [| [phrases s0] rest IH]; simpl; [discriminate |].
  destruct (existsb (JS.includes q) phrases) eqn:E.
  - intros [= <-]. exists phrases. auto.
  - intros H. destruct (IH H) as [ph [Hin Hm]]. exists ph. auto.
Qed.

Lemma firstMatchingPhrase_none (q : string) table :
  existsb (fun row => existsb (JS.includes q) (fst row)) table = false ->
  firstMatchingPhrase q table = None.
Proof.
  induction table as [| [phrases s0] rest IH]; simpl; [reflexivity |].
  intros H. apply orb_false_iff in H. destruct H as [H1 H2].
  rewrite H1. auto.
Qed.

Lemma detect_refines_table (query : string) :
  detectEncounterPosition query = interpretPosition_spec query.
Proof.
  unfold detectEncounterPosition, interpretPosition_spec, positionPhraseTable.
  cbn [firstMatchingPhrase existsb].
  repeat match goal with
         | |- context [JS.includes ?q ?p] =>
             destruct (JS.includes q p); cbn [orb]; try reflexivity
         end.
Qed.

End QueryInterpreter.

(* ================================================================== *)
(** ** Sorting, buckets and truncation: lemmas                         *)
(* ================================================================== *)

Section Ranking.

Variable store : Store.t.
Variable r : Resolution.
Variable isFinalBossQuery : bool.

Local Abbreviation flowPush := (flowPushOf store r isFinalBossQuery).
Local Abbreviation otherPush := (otherPushOf store r isFinalBossQuery).

Lemma insertByScore_In x y l :
  In y (insertByScore x l) <-> y = x \/ In y l.
Proof.
  induction l as [| z zs IH]; simpl.
  - intuition congruence.
  - destruct (Qle_bool (score z) (score x)); simpl; [intuition congruence |].
    rewrite IH. intuition congruence.
Qed.

Lemma sortByScore_In y l : In y (sortByScore l) <-> In y l.
Proof.
  induction l as [| x xs IH]; simpl; [tauto |].
  rewrite insertByScore_In, IH. intuition congruence.
Qed.

Lemma sortByScore_Forall (P : SearchResult -> Prop) l :
  Forall P l -> Forall P (sortByScore l).
Proof.
  rewrite !Forall_forall. intros H y Hy. apply H. now apply sortByScore_In.
Qed.

Lemma insertByScore_perm x l : Permutation (x :: l) (insertByScore x l).
Proof.
  induction l as [| z zs IH]; simpl; [apply Permutation_refl |].
  destruct (Qle_bool (score z) (score x)); [apply Permutation_refl |].
  eapply perm_trans; [apply perm_swap |]. now apply perm_skip.
Qed.

Lemma sortByScore_perm l : Permutation l (sortByScore l).
Proof.
  induction l as [| x xs IH]; simpl; [constructor |].
  eapply perm_trans; [apply perm_skip, IH | apply insertByScore_perm].
Qed.

Lemma insertByScore_descending x l :
  descending l -> descending (insertByScore x l).
Proof.
  unfold descending.
  induction l as [| z zs IH]; simpl; intros H.
  - repeat constructor.
  - destruct (Qle_bool (score z) (score x)) eqn:E.
    + apply Qle_bool_iff in E. constructor; [exact H |].
      inversion H as [| ? ? _ Hz]; subst.
      constructor; [exact E |].
      eapply Forall_impl; [| exact Hz]. intros b Hb. simpl in *.
      eapply Qle_trans; eassumption.
    + inversion H as [| ? ? Hs Hz]; subst.
      constructor; [now apply IH |].
      rewrite Forall_forall. intros b Hb.
      apply insertByScore_In in Hb. destruct Hb as [-> | Hb].
      * apply Qlt_le_weak, Qnot_le_lt. intros C.
        apply Qle_bool_iff in C. congruence.
      * rewrite Forall_forall in Hz. now apply Hz.
Qed.

Lemma sortByScore_descending l : descending (sortByScore l).
Proof.
  induction l as [| x xs IH]; simpl.
  - constructor.
  - now apply insertByScore_descending.
Qed.

Lemma firstn_In_keep (A : Type) n (l : list A) x : In x (firstn n l) -> In x l.
Proof.
  revert n. induction l as [| y ys IH]; intros [| n]; simpl; try tauto.
  intros [-> | H]; [now left | right; eapply IH; eauto].
Qed.

Lemma descending_firstn n l : descending l -> descending (firstn n l).
Proof.
  unfold descending. revert n.
  induction l as [| x xs IH]; intros [| n] H; simpl; try constructor.
  - inversion H; subst. now apply IH.
  - inversion H as [| ? ? _ Hx]; subst.
    rewrite Forall_forall in *. intros b Hb. apply Hx.
    eapply firstn_In_keep; eauto.
Qed.

Lemma Forall_firstn_keep (P : SearchResult -> Prop) n l :
  Forall P l -> Forall P (firstn n l).
Proof.
  rewrite !Forall_forall. intros H y Hy. apply H.
  eapply firstn_In_keep; eauto.
Qed.

Lemma slice0_firstn (A : Type) (arr : list A) (limit : Z) :
  exists n, JS.slice0 arr limit = firstn n arr.
Proof. unfold JS.slice0. eexists. reflexivity. Qed.

Lemma slice0_In (A : Type) (arr : list A) (limit : Z) x :
  In x (JS.slice0 arr limit) -> In x arr.
Proof.
  destruct (slice0_firstn arr limit) as [n ->]. apply firstn_In_keep.
Qed.

Lemma bucketLoop_from (l : list Candidate) flow0 other0 :
  fold_left
    (fun (buckets : list SearchResult * list SearchResult) (result : Candidate) =>
       let (flowMechanics, otherMechanics) := buckets in
       match processCandidate store r isFinalBossQuery result with
       | Skip => (flowMechanics, otherMechanics)
       | PushFlow sr => (flowMechanics ++ [sr], otherMechanics)
       | PushOther sr => (flowMechanics, otherMechanics ++ [sr])
       end)
    l (flow0, other0)
  = (flow0 ++ flat_map flowPush l, other0 ++ flat_map otherPush l).
Proof.
  revert flow0 other0.
  induction l as [| c cs IH]; intros flow0 other0; simpl.
  - now rewrite !app_nil_r.
  - unfold flowPushOf, otherPushOf.
    destruct (processCandidate store r isFinalBossQuery c);
      rewrite IH; simpl; rewrite <- ?app_assoc; reflexivity.
Qed.

Lemma bucketLoop_flat_map (l : list Candidate) :
  bucketLoop store r isFinalBossQuery l = (flat_map flowPush l, flat_map otherPush l).
Proof. unfold bucketLoop. now rewrite bucketLoop_from. Qed.

Lemma processCandidate_flow c sr :
  processCandidate store r isFinalBossQuery c = PushFlow sr -> inFlowBucket sr = true.
Proof.
  unfold processCandidate, inFlowBucket, isEncounterFlowMechanic.
  destruct (Store.get store _) as [stored |].
  - destruct (positionScore _ _ _ _ _); [| discriminate].
    destruct (isFlowName (mechanic_name (s_mechanic stored))) eqn:E;
      intros [= <-]; exact E.
  - destruct (positionScore _ _ _ _ _); [| discriminate].
    destruct (isFlowName (md_mechanicName (c_metadata c))) eqn:E;
      intros [= <-]; exact E.
Qed.

Lemma processCandidate_other c sr :
  processCandidate store r isFinalBossQuery c = PushOther sr -> inFlowBucket sr = false.
Proof.
  unfold processCandidate, inFlowBucket, isEncounterFlowMechanic.
  destruct (Store.get store _) as [stored |].
  - destruct (positionScore _ _ _ _ _); [| discriminate].
    destruct (isFlowName (mechanic_name (s_mechanic stored))) eqn:E;
      intros [= <-]; exact E.
  - destruct (positionScore _ _ _ _ _); [| discriminate].
    destruct (isFlowName (md_mechanicName (c_metadata c))) eqn:E;
      intros [= <-]; exact E.
Qed.

Lemma flowPush_all l :
  Forall (fun sr => inFlowBucket sr = true) (flat_map flowPush l).
Proof.
  rewrite Forall_forall. intros sr H. apply in_flat_map in H.
  destruct H as [c [_ H]]. unfold flowPushOf in H.
  destruct (processCandidate store r isFinalBossQuery c) eqn:E; simpl in H;
    try contradiction.
  destruct H as [<- | []]. eapply processCandidate_flow; eauto.
Qed.

Lemma otherPush_all l :
  Forall (fun sr => inFlowBucket sr = false) (flat_map otherPush l).
Proof.
  rewrite Forall_forall. intros sr H. apply in_flat_map in H.
  destruct H as [c [_ H]]. unfold otherPushOf in H.
  destruct (processCandidate store r isFinalBossQuery c) eqn:E; simpl in H;
    try contradiction.
  destruct H as [<- | []]. eapply processCandidate_other; eauto.
Qed.

(** Every result in a bucket is the push of some candidate. *)
Lemma bucket_origin l sr :
  In sr (flat_map flowPush l ++ flat_map otherPush l) ->
  exists c, In c l
            /\ (processCandidate store r isFinalBossQuery c = PushFlow sr
                \/ processCandidate store r isFinalBossQuery c = PushOther sr).
Proof.
  intros H. apply in_app_or in H.
  destruct H as [H | H]; apply in_flat_map in H; destruct H as [c [Hc H]];
    exists c; split; try exact Hc.
  - unfold flowPushOf in H.
    destruct (processCandidate store r isFinalBossQuery c); simpl in H;
      try contradiction.
    destruct H as [<- | []]. now left.
  - unfold otherPushOf in H.
    destruct (processCandidate store r isFinalBossQuery c); simpl in H;
      try contradiction.
    destruct H as [<- | []]. now right.
Qed.

End Ranking.

(* ================================================================== *)
(** ** The awaited part of the engine: lemmas                          *)
(* ================================================================== *)

Section Awaited.

Variable env : Providers.
Variable store : Store.t.
Variable query : string.
Variable options : SearchOptions.

Lemma baseTopK_nonzero : baseTopK options <> 0%Z.
Proof.
  unfold baseTopK, JS.orDefault, JS.truthyNum.
  destruct (opts_topK options) as [n |]; [| discriminate].
  destruct (Z.eqb_spec n 0); simpl; [discriminate | assumption].
Qed.

Lemma adjustedTopK_nonzero : adjustedTopK options <> 0%Z.
Proof.
  pose proof baseTopK_nonzero. unfold adjustedTopK.
  destruct (isSome _); lia.
Qed.

(** The second [|| 10], inside [searchSimilar], never fires. *)
Lemma searchSimilar_topK :
  JS.orDefault (opts_topK (searchOptionsOf options)) 10 = adjustedTopK options.
Proof.
  pose proof adjustedTopK_nonzero as H. simpl. unfold JS.truthyNum.
  destruct (Z.eqb_spec (adjustedTopK options) 0); [contradiction | reflexivity].
Qed.

Lemma buildPineconeFilter_searchOptions :
  buildPineconeFilter (searchOptionsOf options) = buildPineconeFilter options.
Proof. reflexivity. Qed.

(** The outcome of a retrieval in terms of what the providers answered. *)
Lemma retrieve_outcome :
  Eff.outcome (retrieveRelevantMechanics env store query options)
  = match providerAnswer env query options with
    | Returned providerResults =>
        Returned (rankResults store query options providerResults)
    | Thrown _ => Thrown retrievalFailed
    end.
Proof.
  unfold retrieveRelevantMechanics, providerAnswer, generateEmbedding, searchSimilar,
    Eff.tryCatch, Eff.bind, Eff.call, Eff.lift, Eff.ret, Eff.throw, Eff.outcome.
  destruct (embeddingsCreate env query) as [v | m]; simpl; [| reflexivity].
  destruct (getIndex env) as [u | m]; simpl; [| reflexivity].
  destruct (indexQuery env _) as [resp | m]; simpl; reflexivity.
Qed.

Lemma retrieve_returned results :
  Eff.outcome (retrieveRelevantMechanics env store query options) = Returned results ->
  exists providerResults,
    providerAnswer env query options = Returned providerResults
    /\ results = rankResults store query options providerResults.
Proof.
  rewrite retrieve_outcome.
  destruct (providerAnswer env query options) as [pr | m]; [| discriminate].
  intros [= <-]. now exists pr.
Qed.

(** The provider calls of a retrieval. *)
Lemma retrieve_calls :
  Eff.calls (retrieveRelevantMechanics env store query options)
  = match embeddingsCreate env query with
    | Thrown _ => [EmbeddingCall query]
    | Returned queryEmbedding =>
        match getIndex env with
        | Thrown _ => [EmbeddingCall query]
        | Returned _ =>
            [EmbeddingCall query; IndexQueryCall (requestOf queryEmbedding options)]
        end
    end.
Proof.
  unfold retrieveRelevantMechanics, generateEmbedding, searchSimilar, requestOf,
    Eff.tryCatch, Eff.bind, Eff.call, Eff.lift, Eff.ret, Eff.throw, Eff.calls.
  rewrite searchSimilar_topK, buildPineconeFilter_searchOptions.
  destruct (embeddingsCreate env query) as [v | m]; simpl; [| reflexivity].
  destruct (getIndex env) as [u | m]; simpl; [| reflexivity].
  destruct (indexQuery env _) as [resp | m]; simpl; reflexivity.
Qed.

(** The shape of the list before truncation. *)
Lemma finalResults_buckets providerResults :
  exists flow other,
    finalResults store query options providerResults = flow ++ other
    /\ Forall (fun sr => inFlowBucket sr = true) flow
    /\ Forall (fun sr => inFlowBucket sr = false) other
    /\ descending flow /\ descending other.
Proof.
  unfold finalResults.
  destruct (candidatesAndTarget store query options providerResults) as [cands r].
  rewrite bucketLoop_flat_map.
  eexists _, _. split; [reflexivity |].
  repeat split.
  - apply sortByScore_Forall, flowPush_all.
  - apply sortByScore_Forall, otherPush_all.
  - apply sortByScore_descending.
  - apply sortByScore_descending.
Qed.

(** Every returned result is the push of a candidate of the main loop. *)
Lemma rankResults_origin providerResults sr :
  In sr (rankResults store query options providerResults) ->
  let cr := candidatesAndTarget store query options providerResults in
  exists c, In c (fst cr)
    /\ (processCandidate store (snd cr) (isFinalBossQueryOf query) c = PushFlow sr
        \/ processCandidate store (snd cr) (isFinalBossQueryOf query) c = PushOther sr).
Proof.
  unfold rankResults, finalResults. intros H. apply slice0_In in H.
  destruct (candidatesAndTarget store query options providerResults) as [cands r].
  rewrite bucketLoop_flat_map in H. simpl.
  apply bucket_origin.
  apply in_app_or in H. apply in_or_app.
  destruct H as [H | H]; [left | right]; exact (proj1 (sortByScore_In _ _) H).
Qed.

End Awaited.

(** C1.  In every list [retrieveRelevantMechanics] returns, the results of
    the flow bucket (mechanic name containing "flow", "strategy",
    "progression" or "overall encounter", in any letter case) come first and
    the results of the other bucket after them, whatever their scores; inside
    each bucket the scores are in descending order. *)
Theorem retrieve_flow_bucket_first
    (env : Providers) (store : Store.t) (query : string) (options : SearchOptions)
    (results : list SearchResult) :
  Eff.outcome (retrieveRelevantMechanics env store query options) = Returned results ->
  exists flow other,
    results = flow ++ other
    /\ Forall (fun sr => inFlowBucket sr = true) flow
    /\ Forall (fun sr => inFlowBucket sr = false) other
    /\ descending flow
    /\ descending other.
Proof.
  intros H. apply retrieve_returned in H. destruct H as [pr [_ ->]].
  unfold rankResults.
  destruct (finalResults_buckets store query options pr)
    as [flow [other [-> [Hf [Ho [Df Do]]]]]].
  destruct (slice0_firstn (flow ++ other) (baseTopK options)) as [n ->].
  rewrite firstn_app.
  eexists _, _. split; [reflexivity |].
  repeat split.
  - now apply Forall_firstn_keep.
  - now apply Forall_firstn_keep.
  - now apply descending_firstn.
  - now apply descending_firstn.
Qed.

(** The spec's example: a flow mechanic at raw score 0.40, boosted to 0.70,
    precedes a mechanic of the other bucket at 0.95. *)
Lemma retrieve_flow_bucket_first_witness :
  exists results,
    Eff.outcome
      (retrieveRelevantMechanics
         (Sample.answering [Sample.matchOf Sample.bells Sample.gahlran 0.95;
                            Sample.matchOf Sample.caiatlFlow Sample.caiatl 0.40;
                            Sample.matchOf Sample.caiatlDps Sample.caiatl 0.30])
         Sample.store "how does the fight work" (Sample.unfiltered None))
    = Returned results
    /\ map result_id results = ["m-cflow"; "m-bells"; "m-cdps"]%string
    /\ exists flow other,
         results = flow ++ other
         /\ Forall (fun sr => inFlowBucket sr = true) flow
         /\ Forall (fun sr => inFlowBucket sr = false) other
         /\ descending flow
         /\ descending other.
Proof.
  eexists. split; [vm_compute; reflexivity |].
  split; [reflexivity |].
  apply (retrieve_flow_bucket_first
           (Sample.answering [Sample.matchOf Sample.bells Sample.gahlran 0.95;
                              Sample.matchOf Sample.caiatlFlow Sample.caiatl 0.40;
                              Sample.matchOf Sample.caiatlDps Sample.caiatl 0.30])
           Sample.store "how does the fight work" (Sample.unfiltered None)).
  vm_compute; reflexivity.
Defined.

(* ================================================================== *)
(** ** Position filter and boost: lemmas                               *)
(* ================================================================== *)

Section PositionFilter.

Variable store : Store.t.
Variable r : Resolution.
Variable isFinalBossQuery : bool.
Variable target : Z.
Hypothesis resolved : targetEncounterOrder r = Some target.





End PositionFilter.



(* ================================================================== *)
(** ** Score range and truncation: lemmas                              *)
(* ================================================================== *)

Section ScoreRange.

Lemma min1_le_1 (x : Q) : (JS.min1 x <= 1)%Q.
Proof. unfold JS.min1. apply Q.le_min_l. Qed.

Lemma boostPosition_le_1 (s : Q) : (boostPosition s <= 1)%Q.
Proof. apply min1_le_1. Qed.

Lemma boostFlow_le_1 (s : Q) : (boostFlow s <= 1)%Q.
Proof. apply min1_le_1. Qed.

Lemma min1_nonneg (x : Q) : (0 <= x)%Q -> (0 <= JS.min1 x)%Q.
Proof.
  intros H. unfold JS.min1. apply Q.min_glb; [discriminate | exact H].
Qed.

Lemma boostPosition_unit (s : Q) : inUnitInterval s -> inUnitInterval (boostPosition s).
Proof.
  intros [H0 _]. split; [| apply boostPosition_le_1].
  apply min1_nonneg.
  apply Qle_trans with (y := (s + 0)%Q); [rewrite Qplus_0_r; exact H0 |].
  apply Qplus_le_r. discriminate.
Qed.

Lemma boostFlow_unit (s : Q) : inUnitInterval s -> inUnitInterval (boostFlow s).
Proof.
  intros [H0 _]. split; [| apply boostFlow_le_1].
  apply min1_nonneg.
  apply Qle_trans with (y := (s + 0)%Q); [rewrite Qplus_0_r; exact H0 |].
  apply Qplus_le_r. discriminate.
Qed.

Lemma positionScore_unit fromStore r fin encounterOrder resultScore s :
  inUnitInterval resultScore ->
  positionScore fromStore r fin encounterOrder resultScore = Some s ->
  inUnitInterval s.
Proof.
  intros H. unfold positionScore.
  destruct (targetEncounterOrder r) as [t |].
  - destruct (JS.strictEqOptNum encounterOrder (Some t)).
    + intros [= <-]. now apply boostPosition_unit.
    + destruct (isSome encounterOrder && negb false); [discriminate |].
      now intros [= <-].
  - destruct (_ && _); intros [= <-]; [now apply boostPosition_unit | exact H].
Qed.

Lemma processCandidate_unit store r fin c sr :
  inUnitInterval (c_score c) ->
  processCandidate store r fin c = PushFlow sr
  \/ processCandidate store r fin c = PushOther sr ->
  inUnitInterval (score sr).
Proof.
  intros Hc. unfold processCandidate.
  destruct (Store.get store _) as [stored |].
  - destruct (positionScore true r fin _ (c_score c)) as [s |] eqn:P;
      [| intros [H | H]; discriminate].
    apply positionScore_unit in P; [| exact Hc].
    destruct (isEncounterFlowMechanic _); intros [H | H]; try discriminate;
      injection H as <-; simpl; [now apply boostFlow_unit | exact P].
  - destruct (positionScore false r fin _ (c_score c)) as [s |] eqn:P;
      [| intros [H | H]; discriminate].
    apply positionScore_unit in P; [| exact Hc].
    destruct (isFlowName _); intros [H | H]; try discriminate;
      injection H as <-; simpl; [now apply boostFlow_unit | exact P].
Qed.

(** The fallback array, entry by entry. *)
Lemma directResults_from store name acc :
  fold_left
    (fun (acc : list Candidate) (entry : string * Stored) =>
       let mechanicId := fst entry in
       let stored := snd entry in
       if String.eqb (dungeonRaid_name (s_dungeonRaid stored)) name then
         acc ++ [ {| c_id := mechanicId;
                     c_score := defaultScore;
                     c_metadata := metadataOfStored stored |} ]
       else acc)
    store acc
  = acc ++ map directCandidate (filter (inCollection name) store).
Proof.
  revert acc. induction store as [| e es IH]; intros acc; simpl.
  - now rewrite app_nil_r.
  - rewrite IH. unfold inCollection at 2.
    destruct (String.eqb _ name); simpl; [| reflexivity].
    now rewrite <- app_assoc.
Qed.

Lemma directResults_map_filter store name :
  directResults store name
  = map directCandidate (filter (inCollection name) (Store.entries store)).
Proof. unfold directResults, Store.entries. now rewrite directResults_from. Qed.

Lemma defaultScore_unit : inUnitInterval defaultScore.
Proof. split; discriminate. Qed.

(** The candidates of the main loop are the provider's or the fallback's. *)
Lemma candidates_cases store query options providerResults :
  fst (candidatesAndTarget store query options providerResults) = providerResults
  \/ exists name,
       filterDungeonRaidName options = Some name
       /\ providerResults = []
       /\ fst (candidatesAndTarget store query options providerResults)
          = directResults store name.
Proof.
  unfold candidatesAndTarget, fallbackToStore.
  destruct providerResults as [| c cs]; [| now left].
  destruct (filterDungeonRaidName options) as [name |]; [| now left].
  right. exists name. split; [reflexivity |]. split; [reflexivity |].
  destruct (targetEncounterOrder _); [reflexivity |].
  destruct (_ || _); reflexivity.
Qed.

Lemma candidates_unit store query options providerResults :
  Forall (fun c => inUnitInterval (c_score c)) providerResults ->
  Forall (fun c => inUnitInterval (c_score c))
         (fst (candidatesAndTarget store query options providerResults)).
Proof.
  intros H.
  destruct (candidates_cases store query options providerResults)
    as [-> | [name [_ [_ ->]]]]; [exact H |].
  rewrite directResults_map_filter, Forall_forall.
  intros c Hc. apply in_map_iff in Hc. destruct Hc as [e [<- _]].
  apply defaultScore_unit.
Qed.

Lemma slice0_length_le (A : Type) (arr : list A) (limit : Z) :
  (0 < limit)%Z -> (Z.of_nat (length (JS.slice0 arr limit)) <= limit)%Z.
Proof.
  intros H. unfold JS.slice0.
  destruct (Z.ltb_spec limit 0); [lia |].
  rewrite length_firstn. lia.
Qed.

End ScoreRange.

(** C3, as the code has it.  Each boost is clamped: a boosted score never
    exceeds 1.0, also after both boosts, whatever the provider returned.  A
    result that gets no boost keeps the score of its candidate, so the
    returned scores lie in [0, 1] when the scores the provider returned do
    (the fallback score 0.5 does). *)
Theorem retrieve_scores_in_unit_interval
    (env : Providers) (store : Store.t) (query : string) (options : SearchOptions)
    (providerResults : list Candidate) (results : list SearchResult) :
  providerAnswer env query options = Returned providerResults ->
  Forall (fun c => inUnitInterval (c_score c)) providerResults ->
  Eff.outcome (retrieveRelevantMechanics env store query options) = Returned results ->
  Forall (fun sr => inUnitInterval (score sr)) results
  /\ (forall s : Q,
         (boostPosition s <= 1)%Q
         /\ (boostFlow s <= 1)%Q
         /\ (boostFlow (boostPosition s) <= 1)%Q).
Proof.
  intros Hp Hu Hr. split.
  - rewrite retrieve_outcome, Hp in Hr. injection Hr as <-.
    rewrite Forall_forall. intros sr Hin.
    apply rankResults_origin in Hin. destruct Hin as [c [Hc Hpush]].
    eapply processCandidate_unit; [| exact Hpush].
    pose proof (candidates_unit store query options Hu) as Hall.
    rewrite Forall_forall in Hall. now apply Hall.
  - intros s. repeat split; apply min1_le_1.
Qed.

(** Provider scores in [0, 1], both boosts on one result: score 1. *)
Lemma retrieve_scores_in_unit_interval_witness :
  exists results,
    Eff.outcome
      (retrieveRelevantMechanics (Sample.answering Sample.finalBossMatches)
         Sample.store "how do I beat the final boss" (Sample.inDuality None))
    = Returned results
    /\ Forall (fun sr => inUnitInterval (score sr)) results.
Proof.
  eexists. split; [vm_compute; reflexivity |].
  apply (retrieve_scores_in_unit_interval
           (Sample.answering Sample.finalBossMatches)
           Sample.store "how do I beat the final boss" (Sample.inDuality None)
           (providerResults := map candidateOfMatch Sample.finalBossMatches)).
  - vm_compute; reflexivity.
  - repeat constructor; discriminate.
  - vm_compute; reflexivity.
Defined.

(** C3 as stated fails: the index uses the cosine metric, and a match at
    similarity -0.2 that gets no boost is returned at -0.2. *)
Lemma retrieve_score_below_zero :
  exists results,
    Eff.outcome
      (retrieveRelevantMechanics (Sample.answering Sample.negativeMatch)
         Sample.store "how does the fight work" (Sample.unfiltered None))
    = Returned results
    /\ ~ Forall (fun sr => inUnitInterval (score sr)) results.
Proof.
  eexists. split; [vm_compute; reflexivity |].
  intros H. inversion H as [| sr rest [H0 _] _]; subst.
  apply H0. reflexivity.
Qed.

(** C4, as the code has it.  A positive [topK] bounds the length of the
    returned list; a [topK] that is absent or 0 leaves the bound at 10. *)
Theorem retrieve_length_at_most_topK
    (env : Providers) (store : Store.t) (query : string) (options : SearchOptions)
    (results : list SearchResult) :
  Eff.outcome (retrieveRelevantMechanics env store query options) = Returned results ->
  (forall N : Z, opts_topK options = Some N -> (0 < N)%Z ->
                 (Z.of_nat (length results) <= N)%Z)
  /\ (opts_topK options = None \/ opts_topK options = Some 0%Z ->
      (Z.of_nat (length results) <= 10)%Z).
Proof.
  intros H. apply retrieve_returned in H. destruct H as [pr [_ ->]].
  unfold rankResults, baseTopK. split.
  - intros N -> HN. unfold JS.orDefault, JS.truthyNum.
    destruct (Z.eqb_spec N 0); [lia |]. simpl.
    now apply slice0_length_le.
  - intros [-> | ->]; simpl; apply slice0_length_le; lia.
Qed.

(** Four candidates, [topK] 2: two results. *)
Lemma retrieve_length_at_most_topK_witness :
  exists results,
    Eff.outcome
      (retrieveRelevantMechanics (Sample.answering Sample.finalBossMatches)
         Sample.store "how does the fight work" (Sample.unfiltered (Some 2%Z)))
    = Returned results
    /\ length results = 2%nat
    /\ (Z.of_nat (length results) <= 2)%Z.
Proof.
  eexists. split; [vm_compute; reflexivity |].
  split; [reflexivity |].
  apply (retrieve_length_at_most_topK
           (Sample.answering Sample.finalBossMatches)
           Sample.store "how does the fight work" (Sample.unfiltered (Some 2%Z))).
  - vm_compute; reflexivity.
  - reflexivity.
  - lia.
Defined.

(** C4 as stated fails at N = 0: [options.topK || 10] reads 0 as absent, and
    the four candidates are all returned. *)
Lemma retrieve_topK_zero_returns_results :
  exists results,
    Eff.outcome
      (retrieveRelevantMechanics (Sample.answering Sample.finalBossMatches)
         Sample.store "how does the fight work" (Sample.unfiltered (Some 0%Z)))
    = Returned results
    /\ length results = 4%nat
    /\ ~ (Z.of_nat (length results) <= 0)%Z.
Proof.
  eexists. split; [vm_compute; reflexivity |].
  split; [reflexivity |]. simpl. lia.
Qed.

(* ================================================================== *)
(** ** Fallback and default limit: lemmas                              *)
(* ================================================================== *)

Section Fallback.

Variable store : Store.t.
Variable query : string.
Variable options : SearchOptions.

Lemma candidates_fallback name :
  filterDungeonRaidName options = Some name ->
  fst (candidatesAndTarget store query options [])
  = map directCandidate (filter (inCollection name) (Store.entries store)).
Proof.
  intros H. rewrite <- directResults_map_filter.
  unfold candidatesAndTarget, fallbackToStore. rewrite H.
  destruct (targetEncounterOrder _); [reflexivity |].
  destruct (_ || _); reflexivity.
Qed.

Lemma candidates_provider providerResults :
  providerResults <> [] ->
  fst (candidatesAndTarget store query options providerResults) = providerResults.
Proof.
  intros H. unfold candidatesAndTarget, fallbackToStore.
  destruct providerResults; [contradiction | reflexivity].
Qed.

Lemma slice0_nonneg (A : Type) (arr : list A) (limit : Z) :
  (0 <= limit)%Z -> JS.slice0 arr limit = firstn (Z.to_nat limit) arr.
Proof.
  intros H. unfold JS.slice0.
  destruct (Z.ltb_spec limit 0); [lia |].
  destruct (Z.le_gt_cases limit (Z.of_nat (length arr))).
  - now rewrite Z.min_l.
  - rewrite Z.min_r by lia. rewrite Nat2Z.id.
    rewrite !firstn_all2; [reflexivity | lia | lia].
Qed.

End Fallback.

(* ================================================================== *)
(** ** Kept and dropped candidates: lemmas                             *)
(* ================================================================== *)

Section KeptCandidates.

Variable store : Store.t.
Variable r : Resolution.
Variable isFinalBossQuery : bool.
Hypothesis unresolved_not_final :
  targetEncounterOrder r = None -> isFinalBossQuery = false.

Local Abbreviation target := (targetEncounterOrder r).

(** What [positionScore] answers, by the kept and at-target tests. *)
Lemma positionScore_cases fromStore (c : Candidate) :
  positionScore fromStore r isFinalBossQuery (resolvedOrder store c) (c_score c)
  = if keptAt store target c
    then Some (if atTarget store target c then boostPosition (c_score c) else c_score c)
    else None.
Proof.
  unfold positionScore, keptAt, atTarget.
  destruct (targetEncounterOrder r) as [t |] eqn:T.
  - destruct (resolvedOrder store c) as [o |]; simpl; [| reflexivity].
    now destruct (o =? t)%Z.
  - rewrite (unresolved_not_final eq_refl).
    now rewrite andb_false_r.
Qed.

(** One iteration of the main loop: a kept candidate is pushed once, under
    its identifier, with the position boost when it is at the target and the
    flow boost when it lands in the flow bucket; any other is skipped. *)
Lemma processCandidate_cases (c : Candidate) :
  if keptAt store target c then
    exists sr,
      flowPushOf store r isFinalBossQuery c ++ otherPushOf store r isFinalBossQuery c
      = [sr]
      /\ result_id sr = c_id c
      /\ score sr
         = flowBoostIf (inFlowBucket sr)
             (if atTarget store target c then boostPosition (c_score c) else c_score c)
  else
    flowPushOf store r isFinalBossQuery c ++ otherPushOf store r isFinalBossQuery c = [].
Proof.
  pose proof (positionScore_cases true c) as Pt.
  pose proof (positionScore_cases false c) as Pf.
  unfold flowPushOf, otherPushOf, processCandidate, resolvedOrder in *.
  unfold inFlowBucket, isEncounterFlowMechanic.
  destruct (Store.get store (md_mechanicId (c_metadata c))) as [stored |].
  - rewrite Pt. destruct (keptAt store target c); [| reflexivity].
    destruct (isFlowName (mechanic_name (s_mechanic stored))) eqn:F;
      eexists; (split; [reflexivity |]); (split; [reflexivity |]);
      cbn [score mechanic resultFromStore]; rewrite F; reflexivity.
  - rewrite Pf. destruct (keptAt store target c); [| reflexivity].
    destruct (isFlowName (md_mechanicName (c_metadata c))) eqn:F;
      eexists; (split; [reflexivity |]); (split; [reflexivity |]);
      cbn [score mechanic resultFromMetadata mechanic_name]; rewrite F; reflexivity.
Qed.

(** The two buckets hold one result per kept candidate. *)
Lemma buckets_hold_kept (l : list Candidate) :
  Permutation
    (map result_id (flat_map (flowPushOf store r isFinalBossQuery) l
                    ++ flat_map (otherPushOf store r isFinalBossQuery) l))
    (map c_id (filter (keptAt store target) l)).
Proof.
  induction l as [| c cs IH]; cbn [flat_map filter map]; [constructor |].
  pose proof (processCandidate_cases c) as H.
  eapply perm_trans.
  - apply Permutation_map.
    rewrite <- app_assoc.
    eapply perm_trans; [apply Permutation_app_head, Permutation_app_swap_app |].
    rewrite app_assoc. apply Permutation_refl.
  - rewrite map_app.
    destruct (keptAt store target c).
    + destruct H as [sr [-> [Hid _]]]. cbn [map app]. rewrite Hid.
      now apply perm_skip.
    + rewrite H. exact IH.
Qed.

(** Every result in a bucket was built from a kept candidate. *)
Lemma buckets_origin (l : list Candidate) sr :
  In sr (flat_map (flowPushOf store r isFinalBossQuery) l
         ++ flat_map (otherPushOf store r isFinalBossQuery) l) ->
  exists c,
    In c l
    /\ keptAt store target c = true
    /\ result_id sr = c_id c
    /\ score sr
       = flowBoostIf (inFlowBucket sr)
           (if atTarget store target c then boostPosition (c_score c) else c_score c).
Proof.
  intros H.
  assert (X : exists c, In c l
              /\ In sr (flowPushOf store r isFinalBossQuery c
                        ++ otherPushOf store r isFinalBossQuery c)).
  { apply in_app_or in H. destruct H as [H | H]; apply in_flat_map in H;
      destruct H as [c [Hc Hs]]; exists c; (split; [exact Hc |]);
      apply in_or_app; [now left | now right]. }
  destruct X as [c [Hc Hs]]. exists c. split; [exact Hc |].
  pose proof (processCandidate_cases c) as P.
  destruct (keptAt store target c).
  - destruct P as [sr' [E [Hid Hscore]]]. rewrite E in Hs.
    destruct Hs as [<- | []]. auto.
  - rewrite P in Hs. destruct Hs.
Qed.

End KeptCandidates.

Section RankedList.

Variable store : Store.t.
Variable query : string.
Variable options : SearchOptions.
Variable providerResults : list Candidate.

Local Abbreviation cr := (candidatesAndTarget store query options providerResults).

Hypothesis unresolved_not_final :
  targetEncounterOrder (snd cr) = None -> isFinalBossQueryOf query = false.

(** The ranked list holds one result per kept candidate. *)
Lemma finalResults_hold_kept :
  Permutation
    (map result_id (finalResults store query options providerResults))
    (map c_id (filter (keptAt store (targetEncounterOrder (snd cr))) (fst cr))).
Proof.
  unfold finalResults. revert unresolved_not_final.
  destruct (candidatesAndTarget store query options providerResults) as [cands res].
  cbn [fst snd]. intros U. rewrite bucketLoop_flat_map.
  eapply perm_trans; [| apply (@buckets_hold_kept store res (isFinalBossQueryOf query) U cands)].
  apply Permutation_map, Permutation_app; apply Permutation_sym, sortByScore_perm.
Qed.

Lemma finalResults_origin sr :
  In sr (finalResults store query options providerResults) ->
  exists c,
    In c (fst cr)
    /\ keptAt store (targetEncounterOrder (snd cr)) c = true
    /\ result_id sr = c_id c
    /\ score sr
       = flowBoostIf (inFlowBucket sr)
           (if atTarget store (targetEncounterOrder (snd cr)) c
            then boostPosition (c_score c) else c_score c).
Proof.
  unfold finalResults. revert unresolved_not_final.
  destruct (candidatesAndTarget store query options providerResults) as [cands res].
  cbn [fst snd]. intros U. rewrite bucketLoop_flat_map. intros H.
  apply (@buckets_origin store res (isFinalBossQueryOf query) U cands sr).
  apply in_app_or in H. apply in_or_app.
  destruct H as [H | H]; [left | right]; exact (proj1 (sortByScore_In _ _) H).
Qed.

End RankedList.

Section FallbackRanking.

Variable store : Store.t.
Variable query : string.
Variable options : SearchOptions.
Variable name : string.
Hypothesis filtered : filterDungeonRaidName options = Some name.

(** Under a collection filter, a retrieval left without target is no
    final-position query. *)
Lemma filtered_unresolved_not_final providerResults :
  targetEncounterOrder (snd (candidatesAndTarget store query options providerResults))
  = None ->
  isFinalBossQueryOf query = false.
Proof.
  unfold candidatesAndTarget, resolveFromStore, fallbackToStore, resolveFromResults.
  rewrite filtered.
  destruct (positionIs (detectEncounterPosition query) PosFinal
            || isFinalBossQueryOf query) eqn:F.
  - cbn [targetEncounterOrder]. destruct providerResults; cbn; discriminate.
  - intros _. now apply orb_false_iff in F.
Qed.

(** The fallback treats the store's candidates as it would treat them had
    the provider returned them. *)
Lemma fallback_as_provider :
  candidatesAndTarget store query options
    (fst (candidatesAndTarget store query options []))
  = candidatesAndTarget store query options [].
Proof.
  unfold candidatesAndTarget, resolveFromStore, fallbackToStore, resolveFromResults.
  rewrite filtered.
  destruct (positionIs (detectEncounterPosition query) PosFinal
            || isFinalBossQueryOf query) eqn:F; cbn [targetEncounterOrder fst snd].
  - destruct (directResults store name); reflexivity.
  - set (r1 := if positionIs (detectEncounterPosition query) PosFirst && _ then _ else _).
    destruct (targetEncounterOrder r1) eqn:T; cbn [fst snd];
      destruct (directResults store name); cbn [fst snd]; rewrite ?T; reflexivity.
Qed.

Lemma fallbackScore_default (matched flow : bool) :
  (flowBoostIf flow (if matched then boostPosition 0.5 else 0.5)
   == fallbackScore matched flow)%Q.
Proof. destruct matched, flow; vm_compute; reflexivity. Qed.

End FallbackRanking.

Lemma filter_all_kept (A : Type) (f : A -> bool) (l : list A) :
  (forall x, f x = true) -> filter f l = l.
Proof.
  intros H. induction l as [| x xs IH]; simpl; [reflexivity |]. now rewrite H, IH.
Qed.

(** C5.  With a collection filter and an empty answer of the search
    provider, the candidates of the main loop are the entries of the Mechanic
    Store whose collection name equals the filter, in store order, each at
    score 0.5.  The position and flow logic then runs on them: the ranked
    list, of which the returned list is the front up to the limit, holds one
    result per candidate that the position filter keeps (no target, or an
    order that is the target or undefined) and none for the others; a result
    scores 1 when its candidate is at the target order, else 0.8 in the flow
    bucket and 0.5 in the other.  A provider that returned these candidates
    itself would get the same answer. *)
Theorem retrieve_fallback_candidates
    (env : Providers) (store : Store.t) (query : string) (options : SearchOptions)
    (name : string) :
  filterDungeonRaidName options = Some name ->
  providerAnswer env query options = Returned [] ->
  let cr := candidatesAndTarget store query options [] in
  let target := targetEncounterOrder (snd cr) in
  let ranked := finalResults store query options [] in
  fst cr = map directCandidate (filter (inCollection name) (Store.entries store))
  /\ Forall (fun c => c_score c = 0.5%Q) (fst cr)
  /\ Eff.outcome (retrieveRelevantMechanics env store query options)
     = Returned (JS.slice0 ranked (baseTopK options))
  /\ Permutation (map result_id ranked)
                 (map c_id (filter (keptAt store target) (fst cr)))
  /\ Forall (fun sr =>
               exists c,
                 In c (fst cr)
                 /\ keptAt store target c = true
                 /\ result_id sr = c_id c
                 /\ (score sr
                     == fallbackScore (atTarget store target c) (inFlowBucket sr))%Q)
            ranked
  /\ (forall env',
         providerAnswer env' query options = Returned (fst cr) ->
         Eff.outcome (retrieveRelevantMechanics env' store query options)
         = Eff.outcome (retrieveRelevantMechanics env store query options)).
Proof.
  intros Hn Hp cr target ranked.
  assert (E : fst cr = map directCandidate
                         (filter (inCollection name) (Store.entries store))).
  { now apply candidates_fallback. }
  assert (S : Forall (fun c => c_score c = 0.5%Q) (fst cr)).
  { rewrite E, Forall_forall. intros c Hc.
    apply in_map_iff in Hc. destruct Hc as [e [<- _]]. reflexivity. }
  assert (U : targetEncounterOrder (snd (candidatesAndTarget store query options []))
              = None -> isFinalBossQueryOf query = false).
  { exact (@filtered_unresolved_not_final store query options name Hn []). }
  split; [exact E |]. split; [exact S |]. split.
  { rewrite retrieve_outcome, Hp. reflexivity. }
  split.
  { exact (@finalResults_hold_kept store query options [] U). }
  split.
  { apply Forall_forall. intros sr Hsr.
    destruct (@finalResults_origin store query options [] U sr Hsr)
      as [c [Hc [Hk [Hid Hs]]]].
    exists c. split; [exact Hc |]. split; [exact Hk |]. split; [exact Hid |].
    rewrite Forall_forall in S. rewrite Hs, (S c Hc).
    apply fallbackScore_default. }
  intros env' Hp'. rewrite !retrieve_outcome, Hp, Hp'.
  unfold rankResults, finalResults, cr.
  now rewrite (@fallback_as_provider store query options name Hn).
Qed.

(** A collection filter, an empty provider answer, a store with seven
    Duality mechanics and the query for the second boss: seven candidates
    at 0.5; the target order is 2, so the two mechanics of that boss are
    kept at score 1, the chest without order at 0.5, and four are dropped. *)
Lemma retrieve_fallback_candidates_witness :
  map c_id (fst (candidatesAndTarget Sample.store "what does the second boss do"
                   (Sample.inDuality None) []))
  = ["m-bells"; "m-gflow"; "m-cflow"; "m-cdps"; "m-vault"; "m-entrance"; "m-chest"]%string
  /\ Forall (fun c => c_score c = 0.5%Q)
            (fst (candidatesAndTarget Sample.store "what does the second boss do"
                    (Sample.inDuality None) []))
  /\ exists results,
       Eff.outcome
         (retrieveRelevantMechanics (Sample.answering []) Sample.store
            "what does the second boss do" (Sample.inDuality None))
       = Returned results
       /\ map (fun sr => (result_id sr, score sr)) results
          = [("m-gflow", 1); ("m-bells", 1); ("m-chest", 0.5)]%string%Q
       /\ Permutation (map result_id results) ["m-bells"; "m-gflow"; "m-chest"]%string.
Proof.
  destruct (retrieve_fallback_candidates
              (Sample.answering []) Sample.store "what does the second boss do"
              (Sample.inDuality None) (name := "Duality"%string)
              eq_refl eq_refl) as [H1 [H2 [H3 [H4 _]]]].
  split; [rewrite H1; reflexivity |].
  split; [exact H2 |].
  eexists. split; [exact H3 |]. split; [vm_compute; reflexivity |]. exact H4.
Defined.

Section NoPhrase.

Variable query : string.
Hypothesis no_phrase : anyPhraseMatches query = false.

(** The three phrases of the final-boss flag are phrases of the table. *)
Lemma no_phrase_not_final : isFinalBossQueryOf query = false.
Proof.
  revert no_phrase.
  unfold anyPhraseMatches, isFinalBossQueryOf, positionPhraseTable.
  cbn [existsb fst].
  destruct (JS.includes (JS.toLowerCase query) "final boss"); cbn [orb];
    [discriminate |].
  destruct (JS.includes (JS.toLowerCase query) "last boss"); cbn [orb];
    [discriminate |].
  destruct (JS.includes (JS.toLowerCase query) "final encounter"); cbn [orb];
    [discriminate |].
  reflexivity.
Qed.

Lemma no_phrase_undefined : detectEncounterPosition query = None.
Proof.
  rewrite detect_refines_table. now apply firstMatchingPhrase_none.
Qed.

(** Without a position phrase none of the three resolution steps sets a
    target. *)
Lemma no_phrase_unresolved store options providerResults :
  targetEncounterOrder (snd (candidatesAndTarget store query options providerResults))
  = None.
Proof.
  unfold candidatesAndTarget, resolveFromStore, fallbackToStore, resolveFromResults.
  rewrite no_phrase_undefined, no_phrase_not_final.
  cbn [positionIs isBossQueryOf orderNumberOf orb andb JS.truthyOptNum isTrue].
  destruct (filterDungeonRaidName options); cbn [targetEncounterOrder];
    destruct providerResults; reflexivity.
Qed.

End NoPhrase.

(** C7.  For every query, [detectEncounterPosition] returns what the first
    matching row of the priority table yields: the rows are final boss, final
    encounter, first boss, first encounter, second boss, second encounter,
    third boss, third encounter, each with its alternate spelling ("last ..."
    for the final rows, "1st"/"2nd"/"3rd" for the others), matched as
    substrings of the lower-cased query, so two queries that differ only in
    letter case get the same answer.  A returned descriptor carries order
    number 1/2/3 exactly when it is an encounter-qualified first/second/third
    and none when it is boss-qualified or final; when no phrase occurs in the
    query the result is undefined.  Retrieval then proceeds unfiltered by
    position: whatever the store, the options and the provider answer, no
    target order is set, the ranked list holds one result per candidate, and
    a result's score is its candidate's score, with the flow boost only. *)
Theorem detectEncounterPosition_first_match_wins (query : string) :
  detectEncounterPosition query = interpretPosition_spec query
  /\ (forall query', JS.toLowerCase query' = JS.toLowerCase query ->
        detectEncounterPosition query' = detectEncounterPosition query)
  /\ (forall spec, detectEncounterPosition query = Some spec ->
        orderNumber spec = expectedOrderNumber spec
        /\ (isBossQuery spec = Some true \/ position spec = PosFinal ->
            orderNumber spec = None)
        /\ (isBossQuery spec = Some false -> position spec = PosFirst ->
            orderNumber spec = Some 1%Z)
        /\ (isBossQuery spec = Some false -> position spec = PosSecond ->
            orderNumber spec = Some 2%Z)
        /\ (isBossQuery spec = Some false -> position spec = PosThird ->
            orderNumber spec = Some 3%Z))
  /\ (anyPhraseMatches query = false -> detectEncounterPosition query = None)
  /\ (anyPhraseMatches query = false ->
      forall store options providerResults,
        let cr := candidatesAndTarget store query options providerResults in
        let ranked := finalResults store query options providerResults in
        targetEncounterOrder (snd cr) = None
        /\ Permutation (map result_id ranked) (map c_id (fst cr))
        /\ Forall (fun sr =>
                     exists c,
                       In c (fst cr)
                       /\ result_id sr = c_id c
                       /\ score sr = flowBoostIf (inFlowBucket sr) (c_score c))
                  ranked
        /\ forall env,
             providerAnswer env query options = Returned providerResults ->
             Eff.outcome (retrieveRelevantMechanics env store query options)
             = Returned (JS.slice0 ranked (baseTopK options))).
Proof.
  split; [apply detect_refines_table |].
  split.
  { intros query' H. unfold detectEncounterPosition. now rewrite H. }
  split.
  { intros spec H. rewrite detect_refines_table in H.
    apply firstMatchingPhrase_in in H. destruct H as [phrases [Hin _]].
    assert (E : orderNumber spec = expectedOrderNumber spec).
    { pose proof table_orderNumbers as T. rewrite Forall_forall in T.
      exact (T _ Hin). }
    split; [exact E |]. rewrite E. unfold expectedOrderNumber.
    repeat split.
    + intros [-> | ->]; [reflexivity |]. now destruct (isBossQuery spec) as [[]|].
    + now intros -> ->.
    + now intros -> ->.
    + now intros -> ->. }
  split.
  { intros H. rewrite detect_refines_table. now apply firstMatchingPhrase_none. }
  intros H store options providerResults cr ranked.
  pose proof (@no_phrase_unresolved query H store options providerResults) as T.
  assert (U : targetEncounterOrder
                (snd (candidatesAndTarget store query options providerResults)) = None ->
              isFinalBossQueryOf query = false).
  { intros _. now apply no_phrase_not_final. }
  split; [exact T |]. split; [| split].
  - pose proof (@finalResults_hold_kept store query options providerResults U) as P.
    rewrite T in P. cbn [keptAt] in P.
    rewrite (@filter_all_kept _ (fun _ => true)) in P by reflexivity. exact P.
  - apply Forall_forall. intros sr Hsr.
    destruct (@finalResults_origin store query options providerResults U sr Hsr)
      as [c [Hc [_ [Hid Hs]]]].
    exists c. split; [exact Hc |]. split; [exact Hid |].
    rewrite T in Hs. exact Hs.
  - intros env Hp. rewrite retrieve_outcome, Hp. reflexivity.
Qed.

(** The priority order on a query with three position phrases, in mixed
    case, and a query with none, which leaves the four candidates of the
    provider unfiltered. *)
Lemma detectEncounterPosition_first_match_wins_witness :
  detectEncounterPosition "After the 2ND Encounter, is the First Boss or the third boss harder?"
  = Some {| position := PosFirst; orderNumber := None; isBossQuery := Some true |}
  /\ orderNumber {| position := PosSecond; orderNumber := Some 2%Z; isBossQuery := Some false |}
     = Some 2%Z
  /\ detectEncounterPosition "how do the bells work" = None
  /\ targetEncounterOrder
       (snd (candidatesAndTarget Sample.store "how do the bells work"
               (Sample.inDuality None) (map candidateOfMatch Sample.finalBossMatches)))
     = None
  /\ Permutation
       (map result_id
          (finalResults Sample.store "how do the bells work" (Sample.inDuality None)
             (map candidateOfMatch Sample.finalBossMatches)))
       ["m-bells"; "m-cdps"; "m-chest"; "m-cflow"]%string.
Proof.
  pose proof (detectEncounterPosition_first_match_wins
                "After the 2ND Encounter, is the First Boss or the third boss harder?")
    as [H1 _].
  pose proof (detectEncounterPosition_first_match_wins "what about the 2nd encounter")
    as [_ [_ [H3 _]]].
  pose proof (detectEncounterPosition_first_match_wins "how do the bells work")
    as [_ [_ [_ [H4 H5]]]].
  split; [rewrite H1; reflexivity |].
  split.
  - destruct (H3 {| position := PosSecond; orderNumber := Some 2%Z; isBossQuery := Some false |}
                eq_refl) as [_ [_ [_ [H _]]]].
    exact (H eq_refl eq_refl).
  - split; [apply H4; reflexivity |].
    destruct (H5 eq_refl Sample.store (Sample.inDuality None)
                (map candidateOfMatch Sample.finalBossMatches)) as [T [P _]].
    split; [exact T | exact P].
Defined.

(** C8.  When the embedding call throws, or the search call throws (in
    [getIndex] or in the query), [retrieveRelevantMechanics] throws the one
    error "Failed to retrieve relevant mechanics", and the log of provider
    calls shows each provider contacted at most once.  In every case the
    retrieval ends in a returned ranked list or in that error, nothing else. *)
Theorem retrieve_failure_is_one_wrapped_error
    (env : Providers) (store : Store.t) (query : string) (options : SearchOptions) :
  (forall m, embeddingsCreate env query = Thrown m ->
             retrieveRelevantMechanics env store query options
             = ([EmbeddingCall query], Thrown retrievalFailed))
  /\ (forall v m, embeddingsCreate env query = Returned v ->
                  getIndex env = Thrown m ->
                  retrieveRelevantMechanics env store query options
                  = ([EmbeddingCall query], Thrown retrievalFailed))
  /\ (forall v m, embeddingsCreate env query = Returned v ->
                  getIndex env = Returned tt ->
                  indexQuery env (requestOf v options) = Thrown m ->
                  retrieveRelevantMechanics env store query options
                  = ([EmbeddingCall query; IndexQueryCall (requestOf v options)],
                     Thrown retrievalFailed))
  /\ ((exists providerResults,
          providerAnswer env query options = Returned providerResults
          /\ Eff.outcome (retrieveRelevantMechanics env store query options)
             = Returned (rankResults store query options providerResults))
      \/ Eff.outcome (retrieveRelevantMechanics env store query options)
         = Thrown retrievalFailed)
  /\ (Eff.calls (retrieveRelevantMechanics env store query options) = [EmbeddingCall query]
      \/ exists v, Eff.calls (retrieveRelevantMechanics env store query options)
                   = [EmbeddingCall query; IndexQueryCall (requestOf v options)]).
Proof.
  repeat split.
  - intros m H. apply injective_projections.
    + change (Eff.calls (retrieveRelevantMechanics env store query options)
              = [EmbeddingCall query]).
      rewrite retrieve_calls, H. reflexivity.
    + change (Eff.outcome (retrieveRelevantMechanics env store query options)
              = Thrown retrievalFailed).
      rewrite retrieve_outcome. unfold providerAnswer, generateEmbedding.
      rewrite H. reflexivity.
  - intros v m H G. apply injective_projections.
    + change (Eff.calls (retrieveRelevantMechanics env store query options)
              = [EmbeddingCall query]).
      rewrite retrieve_calls, H, G. reflexivity.
    + change (Eff.outcome (retrieveRelevantMechanics env store query options)
              = Thrown retrievalFailed).
      rewrite retrieve_outcome. unfold providerAnswer, generateEmbedding, searchSimilar.
      rewrite H, G. reflexivity.
  - intros v m H G Q. apply injective_projections.
    + change (Eff.calls (retrieveRelevantMechanics env store query options)
              = [EmbeddingCall query; IndexQueryCall (requestOf v options)]).
      rewrite retrieve_calls, H, G. reflexivity.
    + change (Eff.outcome (retrieveRelevantMechanics env store query options)
              = Thrown retrievalFailed).
      rewrite retrieve_outcome. unfold providerAnswer, generateEmbedding, searchSimilar.
      rewrite searchSimilar_topK, buildPineconeFilter_searchOptions.
      fold (requestOf v options) in *.
      rewrite H, G. simpl. unfold requestOf in Q. rewrite Q. reflexivity.
  - rewrite retrieve_outcome.
    destruct (providerAnswer env query options) as [pr | m]; [left | right].
    + now exists pr.
    + reflexivity.
  - rewrite retrieve_calls.
    destruct (embeddingsCreate env query) as [v | m]; [| now left].
    destruct (getIndex env); [right | now left]. now exists v.
Qed.

(** The embedding provider down, then the search provider down. *)
Lemma retrieve_failure_is_one_wrapped_error_witness :
  retrieveRelevantMechanics Sample.embeddingDown Sample.store
    "how do I beat the final boss" (Sample.inDuality None)
  = ([EmbeddingCall "how do I beat the final boss"], Thrown retrievalFailed)
  /\ retrieveRelevantMechanics Sample.searchDown Sample.store
       "how do I beat the final boss" (Sample.inDuality None)
     = ([EmbeddingCall "how do I beat the final boss";
         IndexQueryCall (requestOf [0.1; 0.2]%Q (Sample.inDuality None))],
        Thrown retrievalFailed).
Proof.
  split.
  - destruct (retrieve_failure_is_one_wrapped_error Sample.embeddingDown Sample.store
                "how do I beat the final boss" (Sample.inDuality None)) as [H _].
    exact (H "429 rate limited"%string eq_refl).
  - destruct (retrieve_failure_is_one_wrapped_error Sample.searchDown Sample.store
                "how do I beat the final boss" (Sample.inDuality None))
      as [_ [_ [H _]]].
    exact (H [0.1; 0.2]%Q "503 unavailable"%string eq_refl eq_refl eq_refl).
Defined.



(* ================================================================== *)
(** ** Final position without a usable order: lemmas                   *)
(* ================================================================== *)

Section FinalPosition.

Variable store : Store.t.
Variable query : string.
Variable options : SearchOptions.
Variable name : string.
Hypothesis filtered : filterDungeonRaidName options = Some name.
Hypothesis final : isFinalQuery query = true.


(** A final-position query with a collection filter always leaves step 1
    with a target: the maximum, 0 when no order counted. *)
Lemma resolveFromStore_final :
  resolveFromStore store options (detectEncounterPosition query)
    (isFinalBossQueryOf query)
  = let m := maxOrderInStore store name
               (isBossQueryOf (detectEncounterPosition query)) 0 in
    {| maxEncounterOrder := m; targetEncounterOrder := Some m |}.
Proof.
  unfold resolveFromStore. rewrite filtered.
  unfold isFinalQuery in final. now rewrite final.
Qed.

Lemma candidatesAndTarget_final providerResults :
  snd (candidatesAndTarget store query options providerResults)
  = let m := maxOrderInStore store name
               (isBossQueryOf (detectEncounterPosition query)) 0 in
    {| maxEncounterOrder := m; targetEncounterOrder := Some m |}.
Proof.
  unfold candidatesAndTarget. rewrite resolveFromStore_final.
  unfold fallbackToStore, resolveFromResults. rewrite filtered. simpl.
  destruct providerResults; reflexivity.
Qed.

End FinalPosition.





(* ================================================================== *)
(** ** Boss ordinals: lemmas                                           *)
(* ================================================================== *)

Section BossOrdinal.

Variable store : Store.t.
Variable query : string.
Variable options : SearchOptions.
Variable spec : PositionSpec.
Hypothesis detected : detectEncounterPosition query = Some spec.

(** A query whose detected position is not final sets no final flag: the
    flag's phrases are among those of the two final rows. *)
Lemma not_final_position_no_flag :
  position spec <> PosFinal -> isFinalBossQueryOf query = false.
Proof.
  intros H. revert detected.
  unfold detectEncounterPosition, isFinalBossQueryOf.
  destruct (JS.includes (JS.toLowerCase query) "final boss"); simpl;
    [intros [= <-]; now elim H |].
  destruct (JS.includes (JS.toLowerCase query) "last boss"); simpl;
    [intros [= <-]; now elim H |].
  destruct (JS.includes (JS.toLowerCase query) "final encounter"); simpl;
    [intros [= <-]; now elim H |].
  reflexivity.
Qed.

(** What "second boss" resolves to: the second element of the sorted
    [bossEncounters] array when it has two elements, nothing otherwise; the
    later steps leave it alone. *)
Lemma second_boss_step1 :
  position spec = PosSecond -> isBossQuery spec = Some true ->
  resolveFromStore store options (Some spec) false
  = {| maxEncounterOrder := 0;
       targetEncounterOrder :=
         if (2 <=? length (bossEncounters store options))%nat
         then nth_error (JS.sortAsc (bossEncounters store options)) 1
         else None |}.
Proof.
  intros Hp Hb. unfold resolveFromStore, positionIs, isBossQueryOf.
  rewrite Hp, Hb. cbn [positionEqb isTrue orb andb].
  destruct (filterDungeonRaidName options);
    destruct (2 <=? length (bossEncounters store options))%nat; reflexivity.
Qed.

Lemma not_final_steps_keep providerResults r :
  position spec <> PosFinal ->
  let fb := fallbackToStore store options (Some spec) false providerResults r in
  snd fb = r
  /\ resolveFromResults store (Some spec) false (fst fb) r = r.
Proof.
  intros Hp.
  assert (P : positionIs (Some spec) PosFinal || false = false).
  { unfold positionIs. destruct (position spec); try reflexivity. now elim Hp. }
  unfold fallbackToStore, resolveFromResults. rewrite P. cbn zeta.
  split.
  - destruct providerResults; [| reflexivity].
    destruct (filterDungeonRaidName options); [| reflexivity].
    now destruct (targetEncounterOrder r).
  - now destruct (targetEncounterOrder r).
Qed.

Lemma second_boss_target providerResults :
  position spec = PosSecond -> isBossQuery spec = Some true ->
  snd (candidatesAndTarget store query options providerResults)
  = {| maxEncounterOrder := 0;
       targetEncounterOrder :=
         if (2 <=? length (bossEncounters store options))%nat
         then nth_error (JS.sortAsc (bossEncounters store options)) 1
         else None |}.
Proof.
  intros Hp Hb.
  assert (N : position spec <> PosFinal) by (rewrite Hp; discriminate).
  unfold candidatesAndTarget.
  rewrite detected, (not_final_position_no_flag N).
  destruct (not_final_steps_keep providerResults
              (resolveFromStore store options (Some spec) false) N) as [K1 K2].
  destruct (fallbackToStore store options (Some spec) false providerResults
              (resolveFromStore store options (Some spec) false)) as [cands r2].
  simpl in *. subst r2. rewrite K2. now apply second_boss_step1.
Qed.

(** Without a target and without the final flag the loop changes no score
    and drops no candidate on account of its position. *)
Lemma positionScore_unresolved fromStore r encounterOrder resultScore :
  targetEncounterOrder r = None ->
  positionScore fromStore r false encounterOrder resultScore = Some resultScore.
Proof.
  intros H. unfold positionScore. rewrite H.
  now rewrite andb_false_r.
Qed.

End BossOrdinal.

(** C6, at the failing inputs.  With one boss encounter (order 2) that has
    two registered mechanics, "second boss" resolves the target to 2 and the
    vault mechanic is filtered out, although the collection has a single
    boss encounter.  With boss encounters at orders 2 and 5, two mechanics
    each, the target is 2, the lowest order, not 5. *)
Theorem second_boss_counts_mechanics_not_encounters :
  length (bossEncounterIds Sample.oneBossStore "Duality") = 1%nat
  /\ bossEncounters Sample.oneBossStore (Sample.inDuality None) = [2; 2]%Z
  /\ targetEncounterOrder
       (snd (candidatesAndTarget Sample.oneBossStore "what does the second boss do"
               (Sample.inDuality None) (map candidateOfMatch Sample.secondBossMatches)))
     = Some 2%Z
  /\ map result_id
       (rankResults Sample.oneBossStore "what does the second boss do"
          (Sample.inDuality None) (map candidateOfMatch Sample.secondBossMatches))
     = ["m-bells"]%string
  /\ length (bossEncounterIds Sample.store "Duality") = 2%nat
  /\ bossEncounters Sample.store (Sample.inDuality None) = [2; 2; 5; 5]%Z
  /\ targetEncounterOrder
       (snd (candidatesAndTarget Sample.store "what does the second boss do"
               (Sample.inDuality None) (map candidateOfMatch Sample.secondBossMatches)))
     = Some 2%Z.
Proof.
  repeat split; vm_compute; reflexivity.
Qed.

(* ================================================================== *)
(** ** Maps with string keys: lemmas                                   *)
(* ================================================================== *)

Section MapLemmas.

Variable V : Type.

Lemma jsmap_get_set_same (m : JSMap.t V) key v :
  JSMap.get (JSMap.set m key v) key = Some v.
Proof.
  induction m as [| [k w] rest IH]; simpl.
  - now rewrite String.eqb_refl.
  - destruct (String.eqb k key) eqn:E; simpl; rewrite E; auto.
Qed.

Lemma jsmap_get_set_other (m : JSMap.t V) key other v :
  key <> other -> JSMap.get (JSMap.set m key v) other = JSMap.get m other.
Proof.
  intros H. induction m as [| [k w] rest IH]; simpl.
  - apply String.eqb_neq in H. now rewrite H.
  - destruct (String.eqb k key) eqn:E; simpl.
    + apply String.eqb_eq in E. subst k.
      apply String.eqb_neq in H. now rewrite H.
    + destruct (String.eqb k other); auto.
Qed.

Lemma jsmap_get_delete_same (m : JSMap.t V) key :
  JSMap.get (JSMap.delete m key) key = None.
Proof.
  induction m as [| [k w] rest IH]; simpl; [reflexivity |].
  destruct (String.eqb k key) eqn:E; simpl; [exact IH | now rewrite E].
Qed.

Lemma jsmap_get_delete_other (m : JSMap.t V) key other :
  key <> other -> JSMap.get (JSMap.delete m key) other = JSMap.get m other.
Proof.
  intros H. induction m as [| [k w] rest IH]; simpl; [reflexivity |].
  destruct (String.eqb k key) eqn:E; simpl.
  - apply String.eqb_eq in E. subst k.
    apply String.eqb_neq in H. now rewrite H.
  - destruct (String.eqb k other); auto.
Qed.

Lemma jsmap_delete_absent (m : JSMap.t V) key :
  JSMap.get m key = None -> JSMap.delete m key = m.
Proof.
  induction m as [| [k w] rest IH]; simpl; [reflexivity |].
  destruct (String.eqb k key); [discriminate |].
  intros H. now rewrite IH.
Qed.

End MapLemmas.

(* ================================================================== *)
(** ** Rate limiter: properties                                        *)
(* ================================================================== *)

Section RateLimiter.

Import RateLimit.

Variable identifier : string.
Variable options : RateLimitOptions.

(** A request that finds a live record of its client. *)
Lemma checkRateLimit_live store now r :
  JSMap.get store identifier = Some r ->
  (now <= resetTime r)%Z ->
  checkRateLimit store now identifier options
  = if (maxRequests options <=? count r)%Z then
      (store, {| allowed := false; remaining := 0; resetAt := resetTime r |})
    else
      (JSMap.set store identifier {| count := count r + 1; resetTime := resetTime r |},
       {| allowed := true;
          remaining := maxRequests options - (count r + 1);
          resetAt := resetTime r |}).
Proof.
  intros G L. unfold checkRateLimit. rewrite G.
  destruct (Z.ltb_spec (resetTime r) now); [lia | reflexivity].
Qed.

(** A request that finds no record of its client, or an expired one. *)
Lemma checkRateLimit_fresh store now :
  match JSMap.get store identifier with
  | Some r => (resetTime r < now)%Z
  | None => True
  end ->
  checkRateLimit store now identifier options
  = (JSMap.set (JSMap.delete store identifier) identifier
       {| count := 1; resetTime := now + windowMs options |},
     {| allowed := true;
        remaining := maxRequests options - 1;
        resetAt := now + windowMs options |}).
Proof.
  unfold checkRateLimit.
  destruct (JSMap.get store identifier) as [r |] eqn:G.
  - intros L. destruct (Z.ltb_spec (resetTime r) now); [reflexivity | lia].
  - intros _. now rewrite jsmap_delete_absent.
Qed.

Lemma checkAll_live times : forall store r (c : nat),
  JSMap.get store identifier = Some r ->
  (1 <= maxRequests options)%Z ->
  (1 <= c)%nat ->
  count r = Z.min (Z.of_nat c) (maxRequests options) ->
  Forall (fun now => (now <= resetTime r)%Z) times ->
  snd (checkAll store identifier options times)
  = map (nthVerdict (maxRequests options) (resetTime r)) (seq (S c) (length times)).
Proof.
  induction times as [| now later IH]; intros store r c G M C E F; [reflexivity |].
  inversion F as [| ? ? Hnow Hlater]; subst.
  cbn [checkAll length seq map].
  rewrite (@checkRateLimit_live store now r G Hnow).
  destruct (Z.leb_spec (maxRequests options) (count r)) as [D | D].
  - specialize (IH store r (S c) G M ltac:(lia) ltac:(lia) Hlater).
    destruct (checkAll store identifier options later) as [s2 vs].
    cbn [snd] in *. rewrite IH. f_equal.
    unfold nthVerdict.
    destruct (Z.leb_spec (Z.of_nat (S c)) (maxRequests options)); [lia | reflexivity].
  - set (r' := {| count := count r + 1; resetTime := resetTime r |}).
    specialize (IH (JSMap.set store identifier r') r' (S c)
                  (jsmap_get_set_same store identifier r') M ltac:(lia)).
    assert (E' : count r' = Z.min (Z.of_nat (S c)) (maxRequests options))
      by (unfold r'; cbn [count]; lia).
    specialize (IH E' Hlater).
    destruct (checkAll (JSMap.set store identifier r') identifier options later)
      as [s2 vs].
    cbn [snd] in *. rewrite IH. f_equal.
    unfold nthVerdict.
    destruct (Z.leb_spec (Z.of_nat (S c)) (maxRequests options)); [| lia].
    unfold r'. cbn [count resetTime]. f_equal. lia.
Qed.

End RateLimiter.

(** X1.  Fixed-window counting.  A client without a live record sends a
    request at [t0] and further requests no later than [t0 + windowMs], all
    under the same limit [maxRequests >= 1]: the [i]-th request is allowed
    with [remaining = maxRequests - i] while [i <= maxRequests] and denied
    with [remaining = 0] after that, and every verdict reports the reset
    time [t0 + windowMs].  A request exactly at the reset time still counts
    in the old window. *)
Theorem rate_limit_fixed_window
    (store : JSMap.t RateLimit.RateLimitStore) (identifier : string)
    (options : RateLimit.RateLimitOptions) (t0 : Z) (later : list Z) :
  match JSMap.get store identifier with
  | Some r => (RateLimit.resetTime r < t0)%Z
  | None => True
  end ->
  (1 <= RateLimit.maxRequests options)%Z ->
  Forall (fun now => (now <= t0 + RateLimit.windowMs options)%Z) later ->
  snd (RateLimit.checkAll store identifier options (t0 :: later))
  = map (RateLimit.nthVerdict (RateLimit.maxRequests options)
           (t0 + RateLimit.windowMs options))
        (seq 1 (S (length later))).
Proof.
  intros Hfresh M F.
  cbn [RateLimit.checkAll length seq map].
  rewrite (@checkRateLimit_fresh identifier options store t0 Hfresh).
  set (r := {| RateLimit.count := 1;
               RateLimit.resetTime := t0 + RateLimit.windowMs options |}).
  pose proof (@checkAll_live identifier options later
                (JSMap.set (JSMap.delete store identifier) identifier r) r 1%nat
                (jsmap_get_set_same _ identifier r) M (le_n 1)) as IH.
  assert (E : RateLimit.count r
              = Z.min (Z.of_nat 1) (RateLimit.maxRequests options)) by (simpl; lia).
  specialize (IH E F).
  destruct (RateLimit.checkAll _ identifier options later) as [s2 vs].
  cbn [snd] in *. rewrite IH. f_equal.
  unfold RateLimit.nthVerdict.
  destruct (Z.leb_spec (Z.of_nat 1) (RateLimit.maxRequests options)); [| lia].
  reflexivity.
Qed.

(** A limit of 2 and four requests in the window, the last at the reset
    time: allowed, allowed, denied, denied. *)
Lemma rate_limit_fixed_window_witness :
  map RateLimit.allowed
    (snd (RateLimit.checkAll [] "203.0.113.7"
            {| RateLimit.maxRequests := 2; RateLimit.windowMs := 60000 |}
            [1000; 1500; 30000; 61000]%Z))
  = [true; true; false; false]
  /\ map RateLimit.remaining
       (snd (RateLimit.checkAll [] "203.0.113.7"
               {| RateLimit.maxRequests := 2; RateLimit.windowMs := 60000 |}
               [1000; 1500; 30000; 61000]%Z))
     = [1; 0; 0; 0]%Z.
Proof.
  rewrite (@rate_limit_fixed_window [] "203.0.113.7"%string
             {| RateLimit.maxRequests := 2; RateLimit.windowMs := 60000 |}
             1000%Z [1500; 30000; 61000]%Z I ltac:(simpl; lia)
             ltac:(repeat constructor; simpl; lia)).
  split; reflexivity.
Defined.

(** X2.  A request that opens a window (no record of the client, or a record
    whose reset time has passed) is always allowed and starts the count at 1,
    whatever the count was before and even under a limit of 0 or less, where
    the reported [remaining] is negative. *)
Theorem rate_limit_new_window_always_allowed
    (store : JSMap.t RateLimit.RateLimitStore) (now : Z) (identifier : string)
    (options : RateLimit.RateLimitOptions) :
  match JSMap.get store identifier with
  | Some r => (RateLimit.resetTime r < now)%Z
  | None => True
  end ->
  let result := RateLimit.checkRateLimit store now identifier options in
  snd result
  = {| RateLimit.allowed := true;
       RateLimit.remaining := RateLimit.maxRequests options - 1;
       RateLimit.resetAt := now + RateLimit.windowMs options |}
  /\ JSMap.get (fst result) identifier
     = Some {| RateLimit.count := 1;
               RateLimit.resetTime := now + RateLimit.windowMs options |}
  /\ ((RateLimit.maxRequests options <= 0)%Z ->
      (RateLimit.remaining (snd result) < 0)%Z).
Proof.
  intros H result. unfold result.
  rewrite (@checkRateLimit_fresh identifier options store now H). simpl.
  split; [reflexivity |]. split; [apply jsmap_get_set_same | lia].
Qed.

(** A client at its limit comes back after the reset time; and a limit of 0
    lets the first request through. *)
Lemma rate_limit_new_window_always_allowed_witness :
  snd (RateLimit.checkRateLimit
         [("203.0.113.7"%string, {| RateLimit.count := 10; RateLimit.resetTime := 61000 |})]
         61001 "203.0.113.7" RateLimit.defaultOptions)
  = {| RateLimit.allowed := true; RateLimit.remaining := 9; RateLimit.resetAt := 121001 |}
  /\ (RateLimit.remaining
        (snd (RateLimit.checkRateLimit [] 5 "203.0.113.7"
                {| RateLimit.maxRequests := 0; RateLimit.windowMs := 1000 |})) < 0)%Z.
Proof.
  split.
  - exact (proj1 (@rate_limit_new_window_always_allowed
                    [("203.0.113.7"%string,
                      {| RateLimit.count := 10; RateLimit.resetTime := 61000 |})]
                    61001 "203.0.113.7"%string RateLimit.defaultOptions
                    ltac:(simpl; lia))).
  - apply (@rate_limit_new_window_always_allowed [] 5 "203.0.113.7"%string
             {| RateLimit.maxRequests := 0; RateLimit.windowMs := 1000 |} I).
    simpl. lia.
Defined.

(** X3.  [checkRateLimit] leaves the records of all other clients as they
    are, and a denied request leaves the whole map as it is. *)
Theorem rate_limit_touches_only_caller
    (store : JSMap.t RateLimit.RateLimitStore) (now : Z) (identifier : string)
    (options : RateLimit.RateLimitOptions) :
  (forall other, identifier <> other ->
     JSMap.get (fst (RateLimit.checkRateLimit store now identifier options)) other
     = JSMap.get store other)
  /\ (RateLimit.allowed (snd (RateLimit.checkRateLimit store now identifier options))
      = false ->
      fst (RateLimit.checkRateLimit store now identifier options) = store).
Proof.
  unfold RateLimit.checkRateLimit.
  destruct (JSMap.get store identifier) as [r |] eqn:G.
  - destruct (RateLimit.resetTime r <? now)%Z.
    + split; [| discriminate].
      intros other H. simpl.
      now rewrite jsmap_get_set_other, jsmap_get_delete_other.
    + destruct (RateLimit.maxRequests options <=? RateLimit.count r)%Z.
      * split; reflexivity.
      * split; [| discriminate].
        intros other H. simpl. now rewrite jsmap_get_set_other.
  - split; [| discriminate].
    intros other H. simpl. now rewrite jsmap_get_set_other.
Qed.

(** Two clients: the second one's request does not change the first one's
    record; the first one, at its limit, is denied and nothing changes. *)
Lemma rate_limit_touches_only_caller_witness :
  JSMap.get
    (fst (RateLimit.checkRateLimit
            [("203.0.113.7"%string, {| RateLimit.count := 10; RateLimit.resetTime := 61000 |})]
            2000 "198.51.100.4" RateLimit.defaultOptions))
    "203.0.113.7"
  = Some {| RateLimit.count := 10; RateLimit.resetTime := 61000 |}
  /\ fst (RateLimit.checkRateLimit
            [("203.0.113.7"%string, {| RateLimit.count := 10; RateLimit.resetTime := 61000 |})]
            2000 "203.0.113.7" RateLimit.defaultOptions)
     = [("203.0.113.7"%string, {| RateLimit.count := 10; RateLimit.resetTime := 61000 |})].
Proof.
  split.
  - rewrite (proj1 (rate_limit_touches_only_caller
                      [("203.0.113.7"%string,
                        {| RateLimit.count := 10; RateLimit.resetTime := 61000 |})]
                      2000 "198.51.100.4" RateLimit.defaultOptions)
               "203.0.113.7"%string).
    + reflexivity.
    + discriminate.
  - apply (proj2 (rate_limit_touches_only_caller
                    [("203.0.113.7"%string,
                      {| RateLimit.count := 10; RateLimit.resetTime := 61000 |})]
                    2000 "203.0.113.7" RateLimit.defaultOptions)).
    reflexivity.
Defined.

(* ================================================================== *)
(** ** Client identifier and cache: properties                         *)
(* ================================================================== *)

Section ClientIdentifier.

Import RateLimit.

Lemma beforeComma_no_comma s : ~ In ","%char (chars (beforeComma s)).
Proof.
  induction s as [| c rest IH]; simpl; [tauto |].
  destruct (Ascii.eqb_spec c ","%char) as [-> | N]; simpl; [tauto |].
  intros [H | H]; [now apply N | now apply IH].
Qed.

Lemma trimStart_chars s c : In c (chars (trimStart s)) -> In c (chars s).
Proof.
  induction s as [| a rest IH]; simpl; [tauto |].
  destruct (isSpace a); simpl; auto.
Qed.

Lemma trimEnd_chars s c : In c (chars (trimEnd s)) -> In c (chars s).
Proof.
  revert c. induction s as [| a rest IH]; intros c; simpl; [tauto |].
  destruct (trimEnd rest) as [| k ks] eqn:E.
  - destruct (isSpace a); simpl; tauto.
  - simpl. intros [H | H]; [now left | right]. apply IH. exact H.
Qed.

Lemma trimStart_first s c : firstChar (trimStart s) = Some c -> isSpace c = false.
Proof.
  induction s as [| a rest IH]; simpl; [discriminate |].
  destruct (isSpace a) eqn:E; [exact IH |].
  simpl. now intros [= <-].
Qed.

Lemma trimEnd_first s c :
  firstChar s = Some c -> isSpace c = false -> firstChar (trimEnd s) = Some c.
Proof.
  destruct s as [| a rest]; simpl; [discriminate |].
  intros [= ->] N. destruct (trimEnd rest); [now rewrite N | reflexivity].
Qed.

Lemma trimEnd_first_inv s c :
  firstChar (trimEnd s) = Some c -> firstChar s = Some c.
Proof.
  destruct s as [| a rest]; simpl; [discriminate |].
  destruct (trimEnd rest); [destruct (isSpace a); [discriminate |] |]; simpl; auto.
Qed.

Lemma lastChar_cons a s :
  s <> EmptyString -> lastChar (String a s) = lastChar s.
Proof.
  intros H. destruct s as [| k ks]; [contradiction |].
  change (lastChar (String a (String k ks)))
    with (match lastChar (String k ks) with Some l => Some l | None => Some a end).
  destruct (lastChar (String k ks)) eqn:L; [reflexivity |].
  simpl in L. destruct (lastChar ks); discriminate.
Qed.

Lemma trimEnd_last s c : lastChar (trimEnd s) = Some c -> isSpace c = false.
Proof.
  induction s as [| a rest IH]; simpl; [discriminate |].
  destruct (trimEnd rest) as [| k ks] eqn:E.
  - destruct (isSpace a) eqn:A; simpl; [discriminate |].
    now intros [= <-].
  - rewrite lastChar_cons by discriminate. exact IH.
Qed.

End ClientIdentifier.

(** X4.  The client identifier.  When [x-forwarded-for] is a non-empty
    string the identifier is its part before the first comma, trimmed: it
    contains no comma and neither starts nor ends with white space.
    [x-real-ip] is used only when [x-forwarded-for] is absent or empty, and
    the placeholder ["unknown"] only when both are. *)
Theorem client_identifier_first_forwarded_hop (headers : RateLimit.RequestHeaders) :
  (forall forwarded, keepTruthy (RateLimit.xForwardedFor headers) = Some forwarded ->
     RateLimit.getClientIdentifier headers
     = RateLimit.trim (RateLimit.beforeComma forwarded)
     /\ ~ In ","%char (chars (RateLimit.getClientIdentifier headers))
     /\ (forall c, firstChar (RateLimit.getClientIdentifier headers) = Some c ->
                   RateLimit.isSpace c = false)
     /\ (forall c, lastChar (RateLimit.getClientIdentifier headers) = Some c ->
                   RateLimit.isSpace c = false))
  /\ (keepTruthy (RateLimit.xForwardedFor headers) = None ->
      forall realIp, keepTruthy (RateLimit.xRealIp headers) = Some realIp ->
                     RateLimit.getClientIdentifier headers = realIp)
  /\ (keepTruthy (RateLimit.xForwardedFor headers) = None ->
      keepTruthy (RateLimit.xRealIp headers) = None ->
      RateLimit.getClientIdentifier headers = "unknown"%string).
Proof.
  unfold RateLimit.getClientIdentifier.
  split; [| split].
  - intros forwarded ->. split; [reflexivity |]. unfold RateLimit.trim.
    split; [| split].
    + intros H. apply trimEnd_chars, trimStart_chars in H.
      exact (beforeComma_no_comma forwarded H).
    + intros c H. apply trimEnd_first_inv in H. now apply trimStart_first in H.
    + intros c H. now apply trimEnd_last in H.
  - intros -> realIp ->. reflexivity.
  - intros -> ->. reflexivity.
Qed.

(** A proxy chain, and the two fallbacks. *)
Lemma client_identifier_first_forwarded_hop_witness :
  RateLimit.getClientIdentifier
    {| RateLimit.xForwardedFor := Some " 203.0.113.7 , 70.41.3.18, 150.172.238.178"%string;
       RateLimit.xRealIp := Some "10.0.0.1"%string |}
  = "203.0.113.7"%string
  /\ RateLimit.getClientIdentifier
       {| RateLimit.xForwardedFor := Some ""%string;
          RateLimit.xRealIp := Some "10.0.0.1"%string |}
     = "10.0.0.1"%string
  /\ RateLimit.getClientIdentifier
       {| RateLimit.xForwardedFor := None; RateLimit.xRealIp := None |}
     = "unknown"%string.
Proof.
  split; [| split].
  - destruct (client_identifier_first_forwarded_hop
                {| RateLimit.xForwardedFor :=
                     Some " 203.0.113.7 , 70.41.3.18, 150.172.238.178"%string;
                   RateLimit.xRealIp := Some "10.0.0.1"%string |}) as [H _].
    destruct (H _ eq_refl) as [E _]. rewrite E. reflexivity.
  - destruct (client_identifier_first_forwarded_hop
                {| RateLimit.xForwardedFor := Some ""%string;
                   RateLimit.xRealIp := Some "10.0.0.1"%string |}) as [_ [H _]].
    exact (H eq_refl _ eq_refl).
  - destruct (client_identifier_first_forwarded_hop
                {| RateLimit.xForwardedFor := None; RateLimit.xRealIp := None |})
      as [_ [_ H]].
    exact (H eq_refl eq_refl).
Defined.

(** X5.  Cache round trip.  A value stored with [set] is what [get] returns
    for that key at any time up to and including its expiry time
    [now + ttlMs], the cache being left as it is; it replaces what the key
    held before, and reads of other keys are not affected. *)
Theorem cache_set_then_get
    (T : Type) (cache : Cache.t T) (now later ttlMs : Z) (key : string) (d : T) :
  (later <= now + ttlMs)%Z ->
  Cache.get (Cache.set cache now key d ttlMs) later key
  = (Cache.set cache now key d ttlMs, Some d)
  /\ (forall other, key <> other ->
        snd (Cache.get (Cache.set cache now key d ttlMs) later other)
        = snd (Cache.get cache later other)).
Proof.
  intros H. unfold Cache.get, Cache.set. split.
  - rewrite jsmap_get_set_same. simpl.
    destruct (Z.ltb_spec (now + ttlMs) later); [lia | reflexivity].
  - intros other N. rewrite jsmap_get_set_other by exact N.
    destruct (JSMap.get cache other) as [e |]; [| reflexivity].
    now destruct (Cache.expiresAt e <? later)%Z.
Qed.

(** Search results cached for five minutes, read back at the last valid
    millisecond. *)
Lemma cache_set_then_get_witness :
  snd (Cache.get (Cache.set [("search:bells:"%string,
                               {| Cache.data := ["m-old"]%string; Cache.expiresAt := 5 |})]
                            1000 "search:bells:" ["m-bells"; "m-gflow"]%string 300000)
                 301000 "search:bells:")
  = Some ["m-bells"; "m-gflow"]%string.
Proof.
  rewrite (proj1 (@cache_set_then_get (list string)
                    [("search:bells:"%string,
                      {| Cache.data := ["m-old"]%string; Cache.expiresAt := 5 |})]
                    1000 301000 300000 "search:bells:"%string
                    ["m-bells"; "m-gflow"]%string ltac:(lia))).
  reflexivity.
Defined.

(** X6.  Cache expiry.  A read after the expiry time of an entry returns
    [null] and removes the entry, so every later read of the key returns
    [null] too, whatever the clock says, until the key is set again; the
    other keys keep their entries. *)
Theorem cache_expired_entry_is_evicted
    (T : Type) (cache : Cache.t T) (now : Z) (key : string) (entry : Cache.CacheEntry T) :
  JSMap.get cache key = Some entry ->
  (Cache.expiresAt entry < now)%Z ->
  snd (Cache.get cache now key) = None
  /\ JSMap.get (fst (Cache.get cache now key)) key = None
  /\ (forall t, snd (Cache.get (fst (Cache.get cache now key)) t key) = None)
  /\ (forall other, key <> other ->
        JSMap.get (fst (Cache.get cache now key)) other = JSMap.get cache other).
Proof.
  intros G E. unfold Cache.get at 1 2 4 5. rewrite G.
  destruct (Z.ltb_spec (Cache.expiresAt entry) now); [| lia]. simpl.
  split; [reflexivity |]. split; [apply jsmap_get_delete_same |]. split.
  - intros t. unfold Cache.get. now rewrite jsmap_get_delete_same.
  - intros other N. now apply jsmap_get_delete_other.
Qed.

(** An entry that expired at 301000, read at 301001 and again at 2000. *)
Lemma cache_expired_entry_is_evicted_witness :
  snd (Cache.get [("search:bells:"%string,
                   {| Cache.data := ["m-bells"]%string; Cache.expiresAt := 301000 |})]
                 301001 "search:bells:")
  = None
  /\ snd (Cache.get
            (fst (Cache.get [("search:bells:"%string,
                              {| Cache.data := ["m-bells"]%string;
                                 Cache.expiresAt := 301000 |})]
                            301001 "search:bells:"))
            2000 "search:bells:")
     = None.
Proof.
  destruct (@cache_expired_entry_is_evicted (list string)
              [("search:bells:"%string,
                {| Cache.data := ["m-bells"]%string; Cache.expiresAt := 301000 |})]
              301001 "search:bells:"%string
              {| Cache.data := ["m-bells"]%string; Cache.expiresAt := 301000 |}
              eq_refl ltac:(simpl; lia)) as [H1 [_ [H3 _]]].
  split; [exact H1 | exact (H3 2000%Z)].
Defined.

(* ================================================================== *)
(** ** Collection names and the Mechanic Store: properties             *)
(* ================================================================== *)

Section CollectionNames.

Local Open Scope string_scope.

Lemma extractDungeonName_in_collectionNames query name :
  extractDungeonName query = Some name ->
  In name collectionNames /\ JS.truthyStr name = true
  /\ extractDungeonName name = Some name.
Proof.
  unfold extractDungeonName, dungeonNames. cbn [firstDungeonName].
  repeat match goal with
         | |- context [JS.includes (JS.toLowerCase query) ?p] =>
             destruct (JS.includes (JS.toLowerCase query) p);
             [intros [= <-]; repeat split; vm_compute; tauto |]
         end.
  discriminate.
Qed.

Lemma keepTruthy_extractDungeonName query :
  keepTruthy (extractDungeonName query) = extractDungeonName query.
Proof.
  destruct (extractDungeonName query) as [name |] eqn:E; [| reflexivity].
  apply extractDungeonName_in_collectionNames in E. destruct E as [_ [T _]].
  simpl. now rewrite T.
Qed.

Lemma store_get_set_same (m : Store.t) key v :
  Store.get (Store.set m key v) key = Some v.
Proof.
  induction m as [| [k w] rest IH]; simpl.
  - now rewrite String.eqb_refl.
  - destruct (String.eqb k key) eqn:E; simpl; rewrite E; auto.
Qed.

Lemma store_get_set_other (m : Store.t) key other v :
  key <> other -> Store.get (Store.set m key v) other = Store.get m other.
Proof.
  intros H. induction m as [| [k w] rest IH]; simpl.
  - apply String.eqb_neq in H. now rewrite H.
  - destruct (String.eqb k key) eqn:E; simpl.
    + apply String.eqb_eq in E. subst k.
      apply String.eqb_neq in H. now rewrite H.
    + destruct (String.eqb k other); auto.
Qed.

Lemma store_set_In (m : Store.t) key v entry :
  In entry (Store.set m key v) -> entry = (key, v) \/ In entry m.
Proof.
  induction m as [| [k w] rest IH]; simpl.
  - intros [<- | []]. now left.
  - destruct (String.eqb k key) eqn:E; simpl.
    + apply String.eqb_eq in E. subst k. intros [<- | H]; auto.
    + intros [<- | H]; auto. destruct (IH H); auto.
Qed.

Lemma store_set_keys (m : Store.t) key v k :
  In k (map fst (Store.set m key v)) <-> k = key \/ In k (map fst m).
Proof.
  induction m as [| [k0 w] rest IH]; simpl.
  - intuition congruence.
  - destruct (String.eqb k0 key) eqn:E; simpl.
    + apply String.eqb_eq in E. subst k0. intuition congruence.
    + rewrite IH. intuition congruence.
Qed.

Lemma store_set_NoDup (m : Store.t) key v :
  NoDup (map fst m) -> NoDup (map fst (Store.set m key v)).
Proof.
  induction m as [| [k0 w] rest IH]; simpl; intros H.
  - repeat constructor. tauto.
  - inversion H as [| ? ? Hn Hr]; subst.
    destruct (String.eqb k0 key) eqn:E; simpl.
    + now constructor.
    + constructor; [| now apply IH].
      rewrite store_set_keys. intros [-> | C]; [| contradiction].
      now rewrite String.eqb_refl in E.
Qed.

Lemma store_set_length (m : Store.t) key v :
  length (Store.set m key v)
  = match Store.get m key with
    | Some _ => length m
    | None => S (length m)
    end.
Proof.
  induction m as [| [k0 w] rest IH]; simpl; [reflexivity |].
  destruct (String.eqb k0 key); simpl; [reflexivity |].
  rewrite IH. now destruct (Store.get rest key).
Qed.

Lemma store_get_In (m : Store.t) key st :
  NoDup (map fst m) -> In (key, st) m -> Store.get m key = Some st.
Proof.
  induction m as [| [k0 w] rest IH]; simpl; [tauto |].
  intros H Hin. inversion H as [| ? ? Hn Hr]; subst.
  destruct Hin as [[= -> ->] | Hin].
  - now rewrite String.eqb_refl.
  - destruct (String.eqb_spec k0 key) as [-> | _]; [| now apply IH].
    exfalso. apply Hn. apply in_map_iff. now exists (key, st).
Qed.

Lemma registerMechanic_wellFormed store m e d :
  storeWellFormed store -> storeWellFormed (registerMechanic store m e d).
Proof.
  intros [N F]. unfold registerMechanic. split.
  - now apply store_set_NoDup.
  - rewrite Forall_forall in *. intros entry H.
    apply store_set_In in H. destruct H as [-> | H]; [reflexivity | now apply F].
Qed.

End CollectionNames.

(** X7.  [extractDungeonName] looks for the collection names in the
    lower-cased query, so letter case does not matter; a name it returns is
    one of the five canonical names of the data set, never an alias spelling
    and never empty, and extracting from a returned name gives that name
    again. *)
Theorem extractDungeonName_returns_canonical_name (query : string) :
  (forall query', JS.toLowerCase query' = JS.toLowerCase query ->
                  extractDungeonName query' = extractDungeonName query)
  /\ (forall name, extractDungeonName query = Some name ->
        In name collectionNames
        /\ name <> EmptyString
        /\ extractDungeonName name = Some name).
Proof.
  split.
  - intros query' H. unfold extractDungeonName. now rewrite H.
  - intros name H. apply extractDungeonName_in_collectionNames in H.
    destruct H as [H1 [H2 H3]]. repeat split; auto.
    intros ->. discriminate.
Qed.

(** The alias without apostrophe, in capitals, gives the canonical name. *)
Lemma extractDungeonName_returns_canonical_name_witness :
  extractDungeonName "How do I open the door in WARLORDS RUIN?" = Some "Warlord's Ruin"%string
  /\ In "Warlord's Ruin"%string collectionNames
  /\ extractDungeonName "Warlord's Ruin" = Some "Warlord's Ruin"%string.
Proof.
  destruct (extractDungeonName_returns_canonical_name
              "How do I open the door in WARLORDS RUIN?") as [_ H].
  destruct (H "Warlord's Ruin"%string eq_refl) as [H1 [_ H3]].
  split; [reflexivity |]. split; assumption.
Defined.

(** X8.  The chat route's retrieval.  The collection filter is the
    request's own [dungeonRaidName] when that is a non-empty string, also
    when the query names another collection; otherwise it is the collection
    named in the query, and there is none when the query names none.  At most
    5 results are returned. *)
Theorem chat_retrieve_filter_and_limit
    (env : Providers) (store : Store.t) (requestFilters : option ChatFilters)
    (query : string) (results : list SearchResult) :
  Eff.outcome (chatRetrieve env store requestFilters query) = Returned results ->
  (length results <= 5)%nat
  /\ filterDungeonRaidName
       {| opts_filter := Some (chatFilter requestFilters query); opts_topK := Some 5%Z |}
     = match keepTruthy (match requestFilters with
                         | Some f => cf_dungeonRaidName f
                         | None => None
                         end) with
       | Some name => Some name
       | None => extractDungeonName query
       end.
Proof.
  intros H. split.
  - unfold chatRetrieve in H. apply retrieve_returned in H.
    destruct H as [pr [_ ->]]. unfold rankResults.
    change (baseTopK _) with 5%Z.
    pose proof (@slice0_length_le SearchResult
                  (finalResults store query
                     {| opts_filter := Some (chatFilter requestFilters query);
                        opts_topK := Some 5%Z |} pr) 5%Z ltac:(lia)).
    lia.
  - unfold filterDungeonRaidName, chatFilter. cbn [opts_filter f_dungeonRaidName].
    assert (X : forall x, extractDungeonName query = Some x -> JS.truthyStr x = true).
    { intros x E. now apply extractDungeonName_in_collectionNames in E. }
    destruct (extractDungeonName query) as [x |];
      [specialize (X x eq_refl) | clear X];
      destruct requestFilters as [f |]; cbn [cf_dungeonRaidName];
      try destruct (cf_dungeonRaidName f) as [n |]; simpl;
      try destruct (JS.truthyStr n) eqn:T; simpl; unfold keepTruthy;
      rewrite ?X, ?T; reflexivity.
Qed.

(** A chat request without filters whose query names Duality: the fallback
    scan of the Duality entries, cut to five. *)
Lemma chat_retrieve_filter_and_limit_witness :
  exists results,
    Eff.outcome (chatRetrieve (Sample.answering []) Sample.store None
                   "how does the duality fight work")
    = Returned results
    /\ length results = 5%nat
    /\ filterDungeonRaidName
         {| opts_filter := Some (chatFilter None "how does the duality fight work");
            opts_topK := Some 5%Z |}
       = Some "Duality"%string.
Proof.
  eexists. split; [vm_compute; reflexivity |].
  split; [reflexivity |].
  refine (proj2 (@chat_retrieve_filter_and_limit (Sample.answering []) Sample.store
                   None "how does the duality fight work"%string _ _)).
  vm_compute; reflexivity.
Defined.

(** X9.  [registerMechanic] files the triple under the identifier of its
    mechanic: a lookup of that identifier returns the triple registered last,
    the other identifiers keep what they had, a new identifier adds one entry
    and a known one adds none, and a store with one entry per key, each
    filed under its mechanic's identifier, stays such a store. *)
Theorem registerMechanic_upsert
    (store : Store.t) (m : Mechanic) (e : Encounter) (d : DungeonRaid) :
  Store.get (registerMechanic store m e d) (mechanic_id m)
  = Some {| s_mechanic := m; s_encounter := e; s_dungeonRaid := d |}
  /\ (forall other, mechanic_id m <> other ->
        Store.get (registerMechanic store m e d) other = Store.get store other)
  /\ length (registerMechanic store m e d)
     = match Store.get store (mechanic_id m) with
       | Some _ => length store
       | None => S (length store)
       end
  /\ (storeWellFormed store -> storeWellFormed (registerMechanic store m e d)).
Proof.
  unfold registerMechanic. split; [apply store_get_set_same |].
  split; [intros other H; now apply store_get_set_other |].
  split; [apply store_set_length |].
  apply registerMechanic_wellFormed.
Qed.

(** The bells mechanic registered again under the other boss: same number
    of entries, the later encounter wins. *)
Lemma registerMechanic_upsert_witness :
  length (registerMechanic Sample.store Sample.bells Sample.caiatl Sample.duality)
  = length Sample.store
  /\ storeWellFormed (registerMechanic Sample.store Sample.bells Sample.caiatl Sample.duality).
Proof.
  destruct (registerMechanic_upsert Sample.store Sample.bells Sample.caiatl Sample.duality)
    as [_ [_ [L W]]].
  split; [rewrite L; reflexivity |].
  apply W. split.
  - vm_compute. repeat constructor; simpl; intuition discriminate.
  - repeat constructor.
Defined.

(** X10.  The fallback on a store kept by [registerMechanic].  With a
    collection filter and an empty provider answer, every returned result
    carries the stored mechanic and encounter of one store entry of that
    collection (full data, not the placeholder of the reconstruction
    branch), under the key of that entry, and its collection name is the
    filter. *)
Theorem retrieve_fallback_stays_in_collection
    (env : Providers) (store : Store.t) (query : string) (options : SearchOptions)
    (name : string) (results : list SearchResult) :
  storeWellFormed store ->
  filterDungeonRaidName options = Some name ->
  providerAnswer env query options = Returned [] ->
  Eff.outcome (retrieveRelevantMechanics env store query options) = Returned results ->
  Forall (fun sr =>
            ref_name (dungeonRaid sr) = name
            /\ exists entry, In entry store
                 /\ inCollection name entry = true
                 /\ result_id sr = fst entry
                 /\ mechanic sr = s_mechanic (snd entry)
                 /\ encounter sr = s_encounter (snd entry))
         results.
Proof.
  intros [N F] Hn Hp Hr.
  rewrite retrieve_outcome, Hp in Hr. injection Hr as <-.
  rewrite Forall_forall. intros sr Hin.
  apply rankResults_origin in Hin. destruct Hin as [c [Hc Hpush]].
  rewrite (@candidates_fallback store query options name Hn) in Hc.
  apply in_map_iff in Hc. destruct Hc as [[k st] [<- Hc]].
  apply filter_In in Hc. destruct Hc as [Hin Hcol].
  assert (G : Store.get store (md_mechanicId (c_metadata (directCandidate (k, st))))
              = Some st).
  { rewrite Forall_forall in F. pose proof (F _ Hin) as Fk. simpl in Fk.
    simpl. rewrite <- Fk. now apply store_get_In. }
  unfold processCandidate in Hpush. rewrite G in Hpush.
  destruct (positionScore true _ _ _ _) as [s |]; [| destruct Hpush; discriminate].
  assert (E : sr = resultFromStore (directCandidate (k, st)) st s
              \/ sr = resultFromStore (directCandidate (k, st)) st (boostFlow s)).
  { destruct (isEncounterFlowMechanic (s_mechanic st));
      destruct Hpush as [H | H]; try discriminate; injection H as <-; auto. }
  unfold inCollection in Hcol. simpl in Hcol. apply String.eqb_eq in Hcol.
  destruct E as [-> | ->]; simpl; (split; [exact Hcol |]);
    exists (k, st); repeat split; auto;
    unfold inCollection; simpl; now apply String.eqb_eq.
Qed.

(** The sample store is built by [registerMechanic]; the fallback for
    Duality returns seven results, all of Duality. *)
Lemma retrieve_fallback_stays_in_collection_witness :
  exists results,
    Eff.outcome
      (retrieveRelevantMechanics (Sample.answering []) Sample.store
         "how does the fight work" (Sample.inDuality None))
    = Returned results
    /\ length results = 7%nat
    /\ Forall (fun sr => ref_name (dungeonRaid sr) = "Duality"%string) results.
Proof.
  eexists. split; [vm_compute; reflexivity |].
  split; [reflexivity |].
  eapply Forall_impl;
    [| eapply (@retrieve_fallback_stays_in_collection
                 (Sample.answering []) Sample.store "how does the fight work"%string
                 (Sample.inDuality None) "Duality"%string)].
  - intros sr [H _]. exact H.
  - split.
    + vm_compute. repeat constructor; simpl; intuition discriminate.
    + repeat constructor.
  - reflexivity.
  - vm_compute; reflexivity.
  - vm_compute; reflexivity.
Defined.

(* ================================================================== *)
(** ** Target order resolution: properties                             *)
(* ================================================================== *)

Section TargetResolution.

Variable store : Store.t.
Variable options : SearchOptions.

Lemma bossEncounters_from (entries : Store.t) name acc :
  filterDungeonRaidName options = Some name ->
  fold_left
    (fun (acc : list Z) (entry : string * Stored) =>
       let stored := snd entry in
       match filterDungeonRaidName options with
       | Some name =>
           if String.eqb (dungeonRaid_name (s_dungeonRaid stored)) name then
             match encounter_order (s_encounter stored) with
             | Some order =>
                 if isBoss (encounter_type (s_encounter stored)) && JS.truthyNum order
                 then acc ++ [order]
                 else acc
             | None => acc
             end
           else acc
       | None => acc
       end)
    entries acc
  = acc ++ flat_map (bossOrderOf name) entries.
Proof.
  intros Hn. revert acc.
  induction entries as [| e es IH]; intros acc; simpl.
  - now rewrite app_nil_r.
  - rewrite IH, Hn. unfold bossOrderOf at 2, inCollection.
    destruct (String.eqb _ name); [| reflexivity].
    destruct (encounter_order (s_encounter (snd e))) as [o |]; [| reflexivity].
    destruct (isBoss _ && JS.truthyNum o); [| reflexivity].
    now rewrite <- app_assoc.
Qed.

(** The [bossEncounters] array: the orders of the boss entries of the
    collection, one per registered mechanic, in store order. *)
Lemma bossEncounters_flat_map name :
  filterDungeonRaidName options = Some name ->
  bossEncounters store options = flat_map (bossOrderOf name) store.
Proof.
  intros Hn. exact (@bossEncounters_from store name [] Hn).
Qed.

Lemma minOf_least (rest : list Z) : forall first,
  In (JS.minOf first rest) (first :: rest)
  /\ Forall (fun o => (JS.minOf first rest <= o)%Z) (first :: rest).
Proof.
  unfold JS.minOf.
  induction rest as [| x xs IH]; intros first; simpl.
  - split; [now left | repeat constructor; lia].
  - destruct (IH (Z.min first x)) as [Hin Hall].
    inversion Hall as [| ? ? Hm Hxs]; subst. split.
    + simpl in Hin |- *. destruct Hin as [Hin | Hin]; [| auto].
      destruct (Z.min_spec first x) as [[_ E] | [_ E]]; rewrite E in *; auto.
    + constructor; [lia |]. constructor; [lia | exact Hxs].
Qed.

Lemma first_boss_step1 spec :
  position spec = PosFirst -> isBossQuery spec = Some true ->
  resolveFromStore store options (Some spec) false
  = {| maxEncounterOrder := 0;
       targetEncounterOrder :=
         match bossEncounters store options with
         | [] => None
         | x :: xs => Some (JS.minOf x xs)
         end |}.
Proof.
  intros Hp Hb. unfold resolveFromStore, positionIs, isBossQueryOf.
  rewrite Hp, Hb. cbn [positionEqb isTrue orb andb].
  destruct (filterDungeonRaidName options);
    destruct (bossEncounters store options); reflexivity.
Qed.

Lemma ordinal_step1 spec n :
  position spec <> PosFinal -> isBossQuery spec = Some false ->
  orderNumber spec = Some n -> n <> 0%Z ->
  resolveFromStore store options (Some spec) false
  = {| maxEncounterOrder := 0; targetEncounterOrder := Some n |}.
Proof.
  intros Hp Hb Ho Hn. unfold resolveFromStore, positionIs, isBossQueryOf, orderNumberOf.
  rewrite Hb, Ho. cbn [isTrue andb JS.truthyOptNum]. rewrite !andb_false_r.
  assert (P : positionEqb (position spec) PosFinal || false = false)
    by (destruct (position spec); try reflexivity; now elim Hp).
  rewrite P. unfold JS.truthyNum.
  destruct (Z.eqb_spec n 0); [contradiction |]. simpl.
  now destruct (filterDungeonRaidName options).
Qed.

(** The running maximum of the final-position loop. *)
Lemma maxOrderInStore_greatest (entries : Store.t) name isBossQuery : forall start,
  let m := maxOrderInStore entries name isBossQuery start in
  (start <= m)%Z
  /\ (forall entry o, In entry entries ->
        countedForFinal name (isTrue isBossQuery) entry o -> (o <= m)%Z)
  /\ (m = start
      \/ exists entry, In entry entries
           /\ countedForFinal name (isTrue isBossQuery) entry m).
Proof.
  unfold maxOrderInStore, Store.entries.
  induction entries as [| e es IH]; intros start; simpl.
  - split; [lia |]. split; [intros ? ? [] | now left].
  - set (next := match encounter_order (s_encounter (snd e)) with
                 | Some order =>
                     if String.eqb (dungeonRaid_name (s_dungeonRaid (snd e))) name
                        && JS.truthyNum order
                     then
                       if isTrue isBossQuery
                          && negb (isBoss (encounter_type (s_encounter (snd e))))
                       then start
                       else Z.max start order
                     else start
                 | None => start
                 end).
    destruct (IH next) as [H1 [H2 H3]].
    assert (S1 : (start <= next)%Z).
    { unfold next. destruct (encounter_order _); [| lia].
      destruct (_ && JS.truthyNum _); [| lia].
      destruct (_ && negb _); lia. }
    assert (S2 : forall o, countedForFinal name (isTrue isBossQuery) e o -> (o <= next)%Z).
    { intros o [C1 [C2 [C3 C4]]]. unfold next, inCollection in *. rewrite C2, C1.
      unfold JS.truthyNum. destruct (Z.eqb_spec o 0); [contradiction |]. simpl.
      destruct (isTrue isBossQuery); simpl; [rewrite (C4 eq_refl); simpl |]; lia. }
    assert (S3 : next = start \/ countedForFinal name (isTrue isBossQuery) e next).
    { unfold next, countedForFinal, inCollection.
      destruct (encounter_order (s_encounter (snd e))) as [o |]; [| now left].
      destruct (String.eqb _ name) eqn:E1; simpl; [| now left].
      destruct (JS.truthyNum o) eqn:E2; [| now left].
      destruct (isTrue isBossQuery) eqn:E3; simpl.
      - destruct (isBoss _) eqn:E4; simpl; [| now left].
        destruct (Z.max_spec start o) as [[_ ->] | [_ ->]]; [right | now left].
        unfold JS.truthyNum in E2. destruct (Z.eqb_spec o 0); [discriminate |].
        repeat split; auto.
      - destruct (Z.max_spec start o) as [[_ ->] | [_ ->]]; [right | now left].
        unfold JS.truthyNum in E2. destruct (Z.eqb_spec o 0); [discriminate |].
        repeat split; auto. discriminate. }
    split; [lia |]. split.
    + intros entry o [<- | Hin] Hc; [specialize (S2 o Hc); lia | eapply H2; eauto].
    + destruct H3 as [H3 | [entry [Hin Hc]]].
      * rewrite H3. destruct S3 as [-> | S3]; [now left | right].
        exists e. split; [now left | exact S3].
      * right. exists entry. split; [now right | exact Hc].
Qed.

End TargetResolution.

(** X11.  "First boss" with a collection filter resolves to the least order
    among the boss-type entries of that collection that carry a non-zero
    order, and stays unresolved when there is none; a boss encounter counted
    once per mechanic gives the same minimum. *)
Theorem first_boss_targets_least_boss_order
    (store : Store.t) (query : string) (options : SearchOptions)
    (spec : PositionSpec) (name : string) (providerResults : list Candidate) :
  detectEncounterPosition query = Some spec ->
  position spec = PosFirst ->
  isBossQuery spec = Some true ->
  filterDungeonRaidName options = Some name ->
  match targetEncounterOrder
          (snd (candidatesAndTarget store query options providerResults)) with
  | Some target =>
      In target (flat_map (bossOrderOf name) store)
      /\ Forall (fun o => (target <= o)%Z) (flat_map (bossOrderOf name) store)
  | None => flat_map (bossOrderOf name) store = []
  end.
Proof.
  intros Hd Hp Hb Hn.
  assert (N : position spec <> PosFinal) by (rewrite Hp; discriminate).
  unfold candidatesAndTarget.
  rewrite Hd, (@not_final_position_no_flag query spec Hd N).
  destruct (@not_final_steps_keep store options spec providerResults
              (resolveFromStore store options (Some spec) false) N) as [K1 K2].
  destruct (fallbackToStore store options (Some spec) false providerResults
              (resolveFromStore store options (Some spec) false)) as [cands r2].
  simpl in K1, K2. subst r2. cbn [snd]. rewrite K2.
  rewrite (@first_boss_step1 store options spec Hp Hb).
  rewrite (@bossEncounters_flat_map store options name Hn).
  cbn [targetEncounterOrder].
  destruct (flat_map (bossOrderOf name) store) as [| x xs]; [reflexivity |].
  apply minOf_least.
Qed.

(** Duality with boss encounters at orders 2 and 5, two mechanics each: the
    first boss is the one at order 2. *)
Lemma first_boss_targets_least_boss_order_witness :
  targetEncounterOrder
    (snd (candidatesAndTarget Sample.store "what does the first boss do"
            (Sample.inDuality None) []))
  = Some 2%Z
  /\ Forall (fun o => (2 <= o)%Z) (flat_map (bossOrderOf "Duality") Sample.store).
Proof.
  pose proof (@first_boss_targets_least_boss_order Sample.store
                "what does the first boss do"%string (Sample.inDuality None)
                {| position := PosFirst; orderNumber := None; isBossQuery := Some true |}
                "Duality"%string [] eq_refl eq_refl eq_refl eq_refl) as H.
  change (targetEncounterOrder
            (snd (candidatesAndTarget Sample.store "what does the first boss do"
                    (Sample.inDuality None) [])))
    with (Some 2%Z) in H.
  split; [reflexivity | exact (proj2 H)].
Defined.

(** X12.  A final-position query with a collection filter always gets a
    target, fixed before the search and whatever the providers answer: the
    greatest non-zero order among the entries of the collection (the boss
    entries only for "final boss" and "last boss"), or 0 when none is
    positive. *)
Theorem final_position_targets_greatest_order
    (store : Store.t) (query : string) (options : SearchOptions)
    (name : string) (providerResults : list Candidate) :
  filterDungeonRaidName options = Some name ->
  isFinalQuery query = true ->
  let bossOnly := isTrue (isBossQueryOf (detectEncounterPosition query)) in
  exists m,
    targetEncounterOrder (snd (candidatesAndTarget store query options providerResults))
    = Some m
    /\ (0 <= m)%Z
    /\ (forall entry o, In entry store -> countedForFinal name bossOnly entry o ->
                        (o <= m)%Z)
    /\ (m = 0%Z
        \/ exists entry, In entry store /\ countedForFinal name bossOnly entry m).
Proof.
  intros Hn Hf bossOnly.
  rewrite (@candidatesAndTarget_final store query options name Hn Hf providerResults).
  cbn zeta. cbn [targetEncounterOrder].
  eexists. split; [reflexivity |].
  exact (maxOrderInStore_greatest store name
           (isBossQueryOf (detectEncounterPosition query)) 0%Z).
Qed.

(** The spec's scenario: boss encounters of Duality at orders 2 and 5, a
    vault encounter at 3; "final boss" targets 5. *)
Lemma final_position_targets_greatest_order_witness :
  targetEncounterOrder
    (snd (candidatesAndTarget Sample.store "how do I beat the final boss"
            (Sample.inDuality None) []))
  = Some 5%Z
  /\ exists m,
       targetEncounterOrder
         (snd (candidatesAndTarget Sample.store "how do I beat the final boss"
                 (Sample.inDuality None) []))
       = Some m
       /\ (0 <= m)%Z.
Proof.
  split; [reflexivity |].
  destruct (@final_position_targets_greatest_order Sample.store
              "how do I beat the final boss"%string (Sample.inDuality None)
              "Duality"%string [] eq_refl eq_refl) as [m [H1 [H2 _]]].
  exists m. split; assumption.
Defined.

(** X13.  An encounter-qualified ordinal ("first/second/third encounter")
    resolves to the ordinal itself, 1, 2 or 3, with or without a collection
    filter and whatever the store and the providers hold. *)
Theorem encounter_ordinal_targets_its_number
    (store : Store.t) (query : string) (options : SearchOptions)
    (spec : PositionSpec) (providerResults : list Candidate) :
  detectEncounterPosition query = Some spec ->
  isBossQuery spec = Some false ->
  position spec <> PosFinal ->
  targetEncounterOrder (snd (candidatesAndTarget store query options providerResults))
  = orderNumber spec
  /\ In (orderNumber spec) [Some 1%Z; Some 2%Z; Some 3%Z].
Proof.
  intros Hd Hb Hp.
  assert (O : exists n, orderNumber spec = Some n /\ n <> 0%Z
                        /\ In (Some n) [Some 1%Z; Some 2%Z; Some 3%Z]).
  { pose proof Hd as Hd'. rewrite detect_refines_table in Hd'.
    apply firstMatchingPhrase_in in Hd'. destruct Hd' as [phrases [Hin _]].
    unfold positionPhraseTable in Hin. simpl in Hin.
    repeat (destruct Hin as [Hin | Hin];
            [injection Hin as <- <-; simpl in *;
             first [ discriminate Hb
                   | now elim Hp
                   | eexists; split; [reflexivity |];
                     split; [discriminate | simpl; tauto] ] |]).
    contradiction. }
  destruct O as [n [Ho [Hn Hin]]].
  unfold candidatesAndTarget.
  rewrite Hd, (@not_final_position_no_flag query spec Hd Hp).
  destruct (@not_final_steps_keep store options spec providerResults
              (resolveFromStore store options (Some spec) false) Hp) as [K1 K2].
  destruct (fallbackToStore store options (Some spec) false providerResults
              (resolveFromStore store options (Some spec) false)) as [cands r2].
  simpl in K1, K2. subst r2. cbn [snd]. rewrite K2.
  rewrite (@ordinal_step1 store options spec n Hp Hb Ho Hn).
  cbn [targetEncounterOrder]. rewrite Ho. split; [reflexivity | exact Hin].
Qed.

(** "Second encounter" without any filter, on an empty store. *)
Lemma encounter_ordinal_targets_its_number_witness :
  targetEncounterOrder
    (snd (candidatesAndTarget [] "what happens in the second encounter"
            (Sample.unfiltered None) []))
  = Some 2%Z.
Proof.
  exact (proj1 (@encounter_ordinal_targets_its_number []
                  "what happens in the second encounter"%string (Sample.unfiltered None)
                  {| position := PosSecond; orderNumber := Some 2%Z;
                     isBossQuery := Some false |}
                  [] eq_refl eq_refl ltac:(discriminate))).
Defined.

(* ================================================================== *)
(** ** Ranking without a target, provider wrapper, context: properties *)
(* ================================================================== *)

Section NoTarget.

Variable store : Store.t.
Variable r : Resolution.
Variable isFinalBossQuery : bool.
Hypothesis unresolved : targetEncounterOrder r = None.

Lemma positionScore_never_drops fromStore encounterOrder resultScore :
  exists s, positionScore fromStore r isFinalBossQuery encounterOrder resultScore = Some s.
Proof.
  unfold positionScore. rewrite unresolved.
  destruct (_ && _); eexists; reflexivity.
Qed.

(** Without a target every candidate is pushed on exactly one bucket, under
    its own identifier. *)
Lemma processCandidate_pushes c :
  exists sr, result_id sr = c_id c
    /\ flowPushOf store r isFinalBossQuery c ++ otherPushOf store r isFinalBossQuery c
       = [sr].
Proof.
  unfold flowPushOf, otherPushOf, processCandidate.
  destruct (Store.get store _) as [stored |].
  - destruct (positionScore_never_drops true
                (JS.nullish (encounter_order (s_encounter stored))
                   (md_encounterOrder (c_metadata c))) (c_score c)) as [s ->].
    destruct (isEncounterFlowMechanic _); eexists; split; try reflexivity; reflexivity.
  - destruct (positionScore_never_drops false (md_encounterOrder (c_metadata c))
                (c_score c)) as [s ->].
    destruct (isFlowName _); eexists; split; try reflexivity; reflexivity.
Qed.

Lemma buckets_keep_every_candidate (l : list Candidate) :
  Permutation
    (map result_id (flat_map (flowPushOf store r isFinalBossQuery) l
                    ++ flat_map (otherPushOf store r isFinalBossQuery) l))
    (map c_id l).
Proof.
  induction l as [| c cs IH]; simpl; [constructor |].
  destruct (processCandidate_pushes c) as [sr [Hid Hpush]].
  rewrite <- Hid.
  change (result_id sr :: map c_id cs) with (map result_id [sr] ++ map c_id cs).
  rewrite <- Hpush.
  rewrite !map_app in *.
  rewrite <- !app_assoc.
  apply Permutation_app_head.
  rewrite !app_assoc.
  eapply perm_trans; [| apply Permutation_app_head; exact IH].
  rewrite <- !app_assoc.
  apply Permutation_app_swap_app.
Qed.

End NoTarget.

Section FlowFirst.

Lemma contextBuckets_from (results : list SearchResult) flow0 other0 :
  fold_left
    (fun (buckets : list SearchResult * list SearchResult) (result : SearchResult) =>
       let (flowMechanics, otherMechanics) := buckets in
       if isEncounterFlowMechanic (mechanic result)
       then (flowMechanics ++ [result], otherMechanics)
       else (flowMechanics, otherMechanics ++ [result]))
    results (flow0, other0)
  = (flow0 ++ filter inFlowBucket results,
     other0 ++ filter (fun sr => negb (inFlowBucket sr)) results).
Proof.
  revert flow0 other0.
  induction results as [| x xs IH]; intros flow0 other0; simpl.
  - now rewrite !app_nil_r.
  - change (isEncounterFlowMechanic (mechanic x)) with (inFlowBucket x).
    destruct (inFlowBucket x) eqn:E; rewrite IH; cbn [filter negb];
      rewrite <- ?app_assoc; reflexivity.
Qed.

Lemma contextBuckets_filter (results : list SearchResult) :
  contextBuckets results
  = (filter inFlowBucket results, filter (fun sr => negb (inFlowBucket sr)) results).
Proof. unfold contextBuckets. now rewrite contextBuckets_from. Qed.

Lemma filter_all (A : Type) (f : A -> bool) (l : list A) :
  Forall (fun x => f x = true) l -> filter f l = l.
Proof.
  induction 1 as [| x xs Hx _ IH]; simpl; [reflexivity |]. now rewrite Hx, IH.
Qed.

Lemma filter_none (A : Type) (f : A -> bool) (l : list A) :
  Forall (fun x => f x = false) l -> filter f l = [].
Proof.
  induction 1 as [| x xs Hx _ IH]; simpl; [reflexivity |]. now rewrite Hx, IH.
Qed.

(** A list with its flow results in front is its own rendering order. *)
Lemma renderedOrder_flow_first flow other :
  Forall (fun sr => inFlowBucket sr = true) flow ->
  Forall (fun sr => inFlowBucket sr = false) other ->
  renderedOrder (flow ++ other) = flow ++ other.
Proof.
  intros Hf Ho. unfold renderedOrder. rewrite contextBuckets_filter. simpl.
  rewrite !filter_app.
  rewrite (filter_all inFlowBucket Hf), (filter_none inFlowBucket Ho).
  rewrite (@filter_none _ (fun sr => negb (inFlowBucket sr)) flow),
          (@filter_all _ (fun sr => negb (inFlowBucket sr)) other).
  - now rewrite app_nil_r.
  - eapply Forall_impl; [| exact Ho]. intros sr H. simpl. now rewrite H.
  - eapply Forall_impl; [| exact Hf]. intros sr H. simpl. now rewrite H.
Qed.

Lemma rankResults_flow_first store query options providerResults :
  exists flow other,
    rankResults store query options providerResults = flow ++ other
    /\ Forall (fun sr => inFlowBucket sr = true) flow
    /\ Forall (fun sr => inFlowBucket sr = false) other.
Proof.
  unfold rankResults.
  destruct (finalResults_buckets store query options providerResults)
    as [flow [other [-> [Hf [Ho _]]]]].
  destruct (slice0_firstn (flow ++ other) (baseTopK options)) as [n ->].
  rewrite firstn_app. eexists _, _. split; [reflexivity |].
  split; now apply Forall_firstn_keep.
Qed.

Lemma firstChar_append a b c :
  firstChar a = Some c -> firstChar (a ++ b)%string = Some c.
Proof. destruct a; simpl; [discriminate | auto]. Qed.

End FlowFirst.

(** X14.  Without a resolved target order the engine drops no candidate:
    before the truncation the ranked list holds one result per candidate,
    under the candidate's identifier, and the returned list has
    min(limit, number of candidates) elements for a positive limit. *)
Theorem retrieve_without_target_keeps_every_candidate
    (env : Providers) (store : Store.t) (query : string) (options : SearchOptions)
    (providerResults : list Candidate) (results : list SearchResult) :
  providerAnswer env query options = Returned providerResults ->
  Eff.outcome (retrieveRelevantMechanics env store query options) = Returned results ->
  targetEncounterOrder (snd (candidatesAndTarget store query options providerResults))
  = None ->
  (0 < baseTopK options)%Z ->
  let candidates := fst (candidatesAndTarget store query options providerResults) in
  Permutation (map result_id (finalResults store query options providerResults))
              (map c_id candidates)
  /\ length results = Nat.min (Z.to_nat (baseTopK options)) (length candidates).
Proof.
  intros Hp Hr Ht Hk candidates.
  assert (P : Permutation
                (map result_id (finalResults store query options providerResults))
                (map c_id candidates)).
  { unfold finalResults, candidates.
    destruct (candidatesAndTarget store query options providerResults) as [cands r].
    simpl in Ht |- *. rewrite bucketLoop_flat_map, map_app.
    eapply perm_trans;
      [| apply (@buckets_keep_every_candidate store r (isFinalBossQueryOf query) Ht)].
    rewrite map_app.
    apply Permutation_app; apply Permutation_map, Permutation_sym, sortByScore_perm. }
  split; [exact P |].
  rewrite retrieve_outcome, Hp in Hr. injection Hr as <-.
  unfold rankResults. rewrite slice0_nonneg by lia.
  rewrite length_firstn.
  apply Permutation_length in P. rewrite !length_map in P. now rewrite P.
Qed.

(** Four candidates, no position phrase in the query, limit 10: four
    results. *)
Lemma retrieve_without_target_keeps_every_candidate_witness :
  exists results,
    Eff.outcome
      (retrieveRelevantMechanics (Sample.answering Sample.finalBossMatches)
         Sample.store "how does the fight work" (Sample.unfiltered None))
    = Returned results
    /\ length results = 4%nat.
Proof.
  eexists. split; [vm_compute; reflexivity |].
  refine (proj2 (@retrieve_without_target_keeps_every_candidate
                   (Sample.answering Sample.finalBossMatches) Sample.store
                   "how does the fight work"%string (Sample.unfiltered None)
                   (map candidateOfMatch Sample.finalBossMatches) _ _ _ _ _)).
  - vm_compute; reflexivity.
  - vm_compute; reflexivity.
  - vm_compute; reflexivity.
  - reflexivity.
Defined.

(** X15.  The request [searchSimilar] sends.  The provider is never asked
    for 0 matches ([topK] 0 or absent becomes 10), metadata is always
    requested, and the filter is sent only when it has at least one
    constraint: a filter value that is an empty string is no constraint,
    while [contestModeSpecific: false] is one. *)
Theorem searchSimilar_request_shape
    (env : Providers) (queryVector : list Q) (options : SearchOptions)
    (request : QueryRequest) :
  In (IndexQueryCall request) (Eff.calls (searchSimilar env queryVector options)) ->
  qr_vector request = queryVector
  /\ qr_topK request <> 0%Z
  /\ qr_topK request = JS.orDefault (opts_topK options) 10
  /\ qr_includeMetadata request = true
  /\ match qr_filter request with
     | Some pf =>
         (1 <= constraintCount pf)%nat
         /\ ~ In (Some EmptyString) (stringConstraints pf)
         /\ exists f, opts_filter options = Some f
              /\ pf_contestModeSpecific pf = f_contestModeSpecific f
              /\ pf_encounterOrder pf = f_encounterOrder f
     | None =>
         forall f, opts_filter options = Some f ->
           keepTruthy (f_dungeonRaidName f) = None
           /\ keepTruthy (f_encounterType f) = None
           /\ keepTruthy (f_mechanicType f) = None
           /\ keepTruthy (f_difficulty f) = None
           /\ f_contestModeSpecific f = None
           /\ f_encounterOrder f = None
     end.
Proof.
  unfold searchSimilar, Eff.tryCatch, Eff.bind, Eff.call, Eff.lift, Eff.ret,
    Eff.throw, Eff.calls.
  destruct (getIndex env) as [u | m]; simpl; [| tauto].
  set (req := {| qr_vector := queryVector;
                 qr_topK := JS.orDefault (opts_topK options) 10;
                 qr_includeMetadata := true;
                 qr_filter := buildPineconeFilter options |}).
  assert (E : In (IndexQueryCall request) [IndexQueryCall req] -> request = req).
  { intros [[= <-] | []]. reflexivity. }
  intros H.
  assert (R : request = req).
  { apply E. destruct (indexQuery env req); simpl in H;
      rewrite ?app_nil_r in H; exact H. }
  subst request. unfold req. cbn [qr_vector qr_topK qr_includeMetadata qr_filter].
  split; [reflexivity |]. split.
  { unfold JS.orDefault, JS.truthyNum.
    destruct (opts_topK options) as [n |]; [| discriminate].
    destruct (Z.eqb_spec n 0); simpl; [discriminate | assumption]. }
  split; [reflexivity |]. split; [reflexivity |].
  unfold buildPineconeFilter.
  destruct (opts_filter options) as [f |]; [| intros f' [=]].
  assert (K : forall o, keepTruthy o <> Some EmptyString).
  { intros [[| c s] |]; simpl; discriminate. }
  cbn [pf_dungeonRaidName pf_encounterType pf_mechanicType pf_difficulty
       pf_contestModeSpecific pf_encounterOrder].
  pose proof (K (f_dungeonRaidName f)) as K1.
  pose proof (K (f_encounterType f)) as K2.
  pose proof (K (f_mechanicType f)) as K3.
  pose proof (K (f_difficulty f)) as K4.
  destruct (keepTruthy (f_dungeonRaidName f)) as [a |] eqn:E1;
    destruct (keepTruthy (f_encounterType f)) as [b |] eqn:E2;
    destruct (keepTruthy (f_mechanicType f)) as [c |] eqn:E3;
    destruct (keepTruthy (f_difficulty f)) as [d |] eqn:E4;
    destruct (f_contestModeSpecific f) as [g |] eqn:E5;
    destruct (f_encounterOrder f) as [h |] eqn:E6;
    try (intros f' [= <-]; repeat split; assumption);
    (split; [unfold constraintCount; simpl; lia |]);
    (split; [| exists f; repeat split; simpl; congruence]);
    unfold stringConstraints; simpl; intuition congruence.
Qed.

(** A filter with an empty collection name and [contestModeSpecific: false],
    [topK] 0: one constraint is sent, ten matches are asked for. *)
Lemma searchSimilar_request_shape_witness :
  exists request,
    Eff.calls (searchSimilar (Sample.answering []) [0.1]%Q
                 {| opts_filter := Some {| f_dungeonRaidName := Some ""%string;
                                           f_encounterType := None;
                                           f_mechanicType := None;
                                           f_difficulty := None;
                                           f_contestModeSpecific := Some false;
                                           f_encounterOrder := None |};
                    opts_topK := Some 0%Z |})
    = [IndexQueryCall request]
    /\ qr_topK request = 10%Z
    /\ qr_topK request <> 0%Z.
Proof.
  eexists. split; [reflexivity |]. split; [reflexivity |].
  eapply (@searchSimilar_request_shape (Sample.answering []) [0.1]%Q
            {| opts_filter := Some {| f_dungeonRaidName := Some ""%string;
                                      f_encounterType := None;
                                      f_mechanicType := None;
                                      f_difficulty := None;
                                      f_contestModeSpecific := Some false;
                                      f_encounterOrder := None |};
               opts_topK := Some 0%Z |}).
  left. reflexivity.
Defined.

(** X16.  [searchSimilar] contacts the provider at most once and turns every
    failure, whatever its message, into the one error "Failed to search
    vector store": no query is sent when [getIndex] throws.  On success it
    returns one candidate per match, in the provider's order, a match
    without score at score 0, and an empty list when the response has no
    [matches] array. *)
Theorem searchSimilar_outcomes
    (env : Providers) (queryVector : list Q) (options : SearchOptions) :
  let request := {| qr_vector := queryVector;
                    qr_topK := JS.orDefault (opts_topK options) 10;
                    qr_includeMetadata := true;
                    qr_filter := buildPineconeFilter options |} in
  (forall m, getIndex env = Thrown m ->
     searchSimilar env queryVector options = ([], Thrown searchFailed))
  /\ (forall m, getIndex env = Returned tt -> indexQuery env request = Thrown m ->
        searchSimilar env queryVector options
        = ([IndexQueryCall request], Thrown searchFailed))
  /\ (forall response, getIndex env = Returned tt ->
        indexQuery env request = Returned response ->
        exists candidates,
          searchSimilar env queryVector options
          = ([IndexQueryCall request], Returned candidates)
          /\ match matches response with
             | Some ms =>
                 map c_id candidates = map match_id ms
                 /\ map c_metadata candidates = map match_metadata ms
                 /\ map c_score candidates
                    = map (fun m => match match_score m with
                                    | Some s => s
                                    | None => 0%Q
                                    end) ms
             | None => candidates = []
             end).
Proof.
  intros request.
  unfold searchSimilar, Eff.tryCatch, Eff.bind, Eff.call, Eff.lift, Eff.ret, Eff.throw.
  fold request.
  split; [| split].
  - intros m ->. reflexivity.
  - intros m -> ->. reflexivity.
  - intros response -> ->. simpl. eexists. split; [reflexivity |].
    destruct (matches response) as [ms |]; [| reflexivity].
    rewrite !map_map. repeat split.
Qed.

(** The search provider down with "503 unavailable"; and a response whose
    match carries no score. *)
Lemma searchSimilar_outcomes_witness :
  searchSimilar Sample.searchDown [0.1]%Q (Sample.unfiltered None)
  = ([IndexQueryCall {| qr_vector := [0.1]%Q; qr_topK := 10;
                        qr_includeMetadata := true; qr_filter := None |}],
     Thrown searchFailed).
Proof.
  destruct (searchSimilar_outcomes Sample.searchDown [0.1]%Q (Sample.unfiltered None))
    as [_ [H _]].
  exact (H "503 unavailable"%string eq_refl eq_refl).
Defined.

Lemma string_append_assoc (a b c : string) :
  ((a ++ b) ++ c = a ++ (b ++ c))%string.
Proof. induction a as [| x a IH]; simpl; [reflexivity | now rewrite IH]. Qed.

Lemma prefix_of_append (a b : string) : String.prefix a (a ++ b) = true.
Proof.
  induction a as [| c a IH]; simpl.
  - now destruct b.
  - destruct (Ascii.ascii_dec c c) as [_ | N]; [exact IH | congruence].
Qed.

(** The parts of a non-empty list are the preamble and at least one more. *)
Lemma contextParts_nonempty (toFixed1 : Q -> string) (x : SearchResult) xs :
  exists part parts,
    contextParts toFixed1 (x :: xs) = contextPreamble ++ part :: parts.
Proof.
  unfold contextParts. rewrite contextBuckets_filter.
  cbn [filter]. unfold contextSection.
  destruct (inFlowBucket x); cbn [negb].
  - eexists _, _. reflexivity.
  - destruct (filter inFlowBucket xs); eexists _, _; reflexivity.
Qed.

(** X17.  [buildContext] returns the text "No relevant mechanics found."
    for the empty list and for no other list: a non-empty list gives a text
    that starts with the preamble. *)
Theorem buildContext_placeholder_iff_empty
    (toFixed1 : Q -> string) (results : list SearchResult) :
  (buildContext toFixed1 results = noMechanicsFound <-> results = [])
  /\ (results <> [] -> firstChar (buildContext toFixed1 results) = Some "R"%char)
  /\ (results <> [] ->
      String.prefix (String.concat newline contextPreamble)
                    (buildContext toFixed1 results) = true).
Proof.
  assert (R : results <> [] -> firstChar (buildContext toFixed1 results) = Some "R"%char).
  { intros H. destruct results as [| x xs]; [contradiction |].
    unfold buildContext, contextParts.
    destruct (contextBuckets (x :: xs)) as [flow other].
    cbn [app String.concat]. apply firstChar_append, firstChar_append. reflexivity. }
  split; [| split; [exact R |]].
  - split.
    + intros H. destruct results as [| x xs]; [reflexivity |].
      specialize (R ltac:(discriminate)). rewrite H in R. discriminate.
    + intros ->. reflexivity.
  - intros H. destruct results as [| x xs]; [contradiction |].
    unfold buildContext.
    destruct (contextParts_nonempty toFixed1 x xs) as [part [parts ->]].
    unfold contextPreamble. cbn [app String.concat].
    match goal with
    | |- String.prefix (?a ++ ?b ++ ?c)%string (?a ++ ?b ++ ?c ++ ?d)%string = true =>
        replace (a ++ b ++ c ++ d)%string with ((a ++ b ++ c) ++ d)%string
          by now rewrite !string_append_assoc
    end.
    apply prefix_of_append.
Qed.

(** One result in; the text does not start like the placeholder. *)
Lemma buildContext_placeholder_iff_empty_witness :
  buildContext (fun _ => "95.0"%string) [] = noMechanicsFound
  /\ firstChar
       (buildContext (fun _ => "95.0"%string)
          [resultFromMetadata
             (candidateOfMatch (Sample.matchOf Sample.bells Sample.gahlran 0.95)) 0.95%Q])
     = Some "R"%char.
Proof.
  split.
  - apply (buildContext_placeholder_iff_empty (fun _ => "95.0"%string) []). reflexivity.
  - apply (buildContext_placeholder_iff_empty (fun _ => "95.0"%string)). discriminate.
Defined.

(** X18.  [buildContext] after [retrieveRelevantMechanics].  The assembler
    lists the flow mechanics first and the others after them, each group in
    the order of its argument, on any list.  A list the engine returned
    already has that shape, so the context is the preamble, then the entries
    of a front part of the list under the flow heading, then the entries of
    the rest under the other heading: the results appear in ranking order.
    On any list every result is rendered once. *)
Theorem buildContext_keeps_ranking_order
    (env : Providers) (store : Store.t) (query : string) (options : SearchOptions)
    (results : list SearchResult) :
  Eff.outcome (retrieveRelevantMechanics env store query options) = Returned results ->
  renderedOrder results = results
  /\ (exists flow other,
        results = flow ++ other
        /\ forall toFixed1,
             contextParts toFixed1 results
             = contextPreamble
               ++ contextSection toFixed1 true flowHeading flow
               ++ contextSection toFixed1 false otherHeading other)
  /\ (forall anyResults : list SearchResult,
        Permutation anyResults (renderedOrder anyResults))
  /\ (forall (anyResults : list SearchResult) toFixed1,
        let flow := filter inFlowBucket anyResults in
        let other := filter (fun sr => negb (inFlowBucket sr)) anyResults in
        renderedOrder anyResults = flow ++ other
        /\ contextParts toFixed1 anyResults
           = contextPreamble
             ++ contextSection toFixed1 true flowHeading flow
             ++ contextSection toFixed1 false otherHeading other).
Proof.
  intros H. apply retrieve_returned in H. destruct H as [pr [_ ->]].
  destruct (rankResults_flow_first store query options pr)
    as [flow [other [-> [Hf Ho]]]].
  pose proof (renderedOrder_flow_first Hf Ho) as R.
  split; [exact R | split; [| split]];
    [| | intros anyResults toFixed1 flow' other';
         unfold renderedOrder, contextParts; rewrite contextBuckets_filter;
         split; reflexivity].
  - exists flow, other. split; [reflexivity |]. intros toFixed1.
    unfold contextParts.
    assert (B : contextBuckets (flow ++ other) = (flow, other)).
    { unfold renderedOrder in R. rewrite contextBuckets_filter in *. simpl in R.
      rewrite !filter_app in *.
      rewrite (filter_all inFlowBucket Hf), (filter_none inFlowBucket Ho).
      rewrite (@filter_none _ (fun sr => negb (inFlowBucket sr)) flow),
              (@filter_all _ (fun sr => negb (inFlowBucket sr)) other).
      - now rewrite app_nil_r.
      - eapply Forall_impl; [| exact Ho]. intros sr E. simpl. now rewrite E.
      - eapply Forall_impl; [| exact Hf]. intros sr E. simpl. now rewrite E. }
    rewrite B. reflexivity.
  - intros anyResults. unfold renderedOrder. rewrite contextBuckets_filter. simpl.
    induction anyResults as [| x xs IH]; simpl; [constructor |].
    destruct (inFlowBucket x); simpl.
    + now constructor.
    + now apply Permutation_cons_app.
Qed.

(** The ranked list of the flow-first example, rendered in the same order. *)
Lemma buildContext_keeps_ranking_order_witness :
  exists results,
    Eff.outcome
      (retrieveRelevantMechanics
         (Sample.answering [Sample.matchOf Sample.bells Sample.gahlran 0.95;
                            Sample.matchOf Sample.caiatlFlow Sample.caiatl 0.40])
         Sample.store "how does the fight work" (Sample.unfiltered None))
    = Returned results
    /\ map result_id (renderedOrder results) = ["m-cflow"; "m-bells"]%string.
Proof.
  eexists. split; [vm_compute; reflexivity |].
  rewrite (proj1 (@buildContext_keeps_ranking_order
                    (Sample.answering [Sample.matchOf Sample.bells Sample.gahlran 0.95;
                                       Sample.matchOf Sample.caiatlFlow Sample.caiatl 0.40])
                    Sample.store "how does the fight work"%string
                    (Sample.unfiltered None) _ ltac:(vm_compute; reflexivity))).
  reflexivity.
Defined.

(* ================================================================== *)
(** ** Ingestion: properties                                           *)
(* ================================================================== *)

Section Batches.

Variable A : Type.

Lemma firstn_skipn_firstn (l : list A) : forall a b,
  firstn a l ++ firstn b (skipn a l) = firstn (a + b) l.
Proof.
  induction l as [| x xs IH]; intros a b.
  - now rewrite skipn_nil, !firstn_nil.
  - destruct a as [| a]; simpl; [reflexivity |]. now rewrite IH.
Qed.

Lemma slices_concat (l : list A) (m : nat) :
  concat (map (fun i => sliceRange l i (i + BATCH_SIZE))
            (map (fun k => k * BATCH_SIZE)%nat (seq 0 m)))
  = firstn (m * BATCH_SIZE) l.
Proof.
  induction m as [| m IH]; [reflexivity |].
  rewrite seq_S, !map_app, concat_app, IH. cbn [map concat].
  rewrite app_nil_r, Nat.add_0_l. unfold sliceRange.
  replace (m * BATCH_SIZE + BATCH_SIZE - m * BATCH_SIZE)%nat with BATCH_SIZE by lia.
  rewrite firstn_skipn_firstn. f_equal. lia.
Qed.

Lemma batch_count_covers (n : nat) :
  (n <= (n + (BATCH_SIZE - 1)) / BATCH_SIZE * BATCH_SIZE)%nat
  /\ (forall k, (k < (n + (BATCH_SIZE - 1)) / BATCH_SIZE)%nat -> (k * BATCH_SIZE < n)%nat).
Proof.
  unfold BATCH_SIZE.
  pose proof (Nat.div_mod_eq (n + (100 - 1)) 100) as E.
  pose proof (Nat.mod_upper_bound (n + (100 - 1)) 100 ltac:(lia)) as U.
  split; [lia |]. intros k Hk. nia.
Qed.

(** The batches are consecutive slices that make up the list. *)
Lemma batchesOf_concat (l : list A) : concat (batchesOf l) = l.
Proof.
  unfold batchesOf, batchStarts. rewrite slices_concat.
  apply firstn_all2. apply batch_count_covers.
Qed.

Lemma batchesOf_sizes (l : list A) :
  Forall (fun b => (1 <= length b <= BATCH_SIZE)%nat) (batchesOf l).
Proof.
  unfold batchesOf, batchStarts. rewrite Forall_forall. intros b Hb.
  apply in_map_iff in Hb. destruct Hb as [i [<- Hi]].
  apply in_map_iff in Hi. destruct Hi as [k [<- Hk]].
  apply in_seq in Hk.
  pose proof (proj2 (batch_count_covers (length l)) k ltac:(lia)) as C.
  unfold sliceRange. rewrite length_firstn, length_skipn.
  unfold BATCH_SIZE in *. lia.
Qed.

Lemma batchesOf_nil : batchesOf (@nil A) = [].
Proof. reflexivity. Qed.

End Batches.

Section UpsertLoop.

Variable env : IngestProviders.
Variable vectors : list UpsertVector.

Lemma upsertLoop_events (starts : list nat) :
  Log.events (upsertLoop env vectors starts)
  = map UpsertBatch
      (throughFirstFailure env
         (map (fun i => sliceRange vectors i (i + BATCH_SIZE)) starts))
  /\ (Forall (fun i => indexUpsert env (sliceRange vectors i (i + BATCH_SIZE))
                       = Returned tt) starts ->
      Log.outcome (upsertLoop env vectors starts) = Returned tt)
  /\ (Exists (fun i => exists m,
                indexUpsert env (sliceRange vectors i (i + BATCH_SIZE)) = Thrown m)
             starts ->
      exists m, Log.outcome (upsertLoop env vectors starts) = Thrown m).
Proof.
  induction starts as [| i later [IH1 [IH2 IH3]]]; simpl.
  - split; [reflexivity |]. split; [reflexivity |]. intros H. inversion H.
  - unfold Log.bind, Log.emit, Log.events, Log.outcome in *.
    destruct (indexUpsert env (sliceRange vectors i (i + BATCH_SIZE))) as [[] | m] eqn:E.
    + destruct (upsertLoop env vectors later) as [log o]. simpl in *.
      split; [now rewrite IH1 |]. split.
      * intros H. inversion H; subst. auto.
      * intros H. inversion H as [? ? [m Hm] | ? ? Hl]; subst; [congruence | auto].
    + simpl. split; [reflexivity |]. split.
      * intros H. inversion H; subst. congruence.
      * intros _. now exists m.
Qed.

End UpsertLoop.

(** X19.  [upsertMechanics] writes the vectors in batches: consecutive
    slices of at most 100 vectors, none empty, that together are the input in
    its order.  A batch is sent only after all batches before it succeeded;
    when a batch fails, the batches before it stay written, no later batch is
    sent, and the caller gets the one error "Failed to upsert mechanics to
    vector store".  When [getIndex] throws nothing is sent. *)
Theorem upsertMechanics_batches
    (env : IngestProviders) (vectors : list UpsertVector) :
  concat (batchesOf vectors) = vectors
  /\ Forall (fun b => (1 <= length b <= 100)%nat) (batchesOf vectors)
  /\ (ingestGetIndex env = Returned tt ->
      Log.events (upsertMechanics env vectors)
      = map UpsertBatch (throughFirstFailure env (batchesOf vectors))
      /\ (Forall (fun b => indexUpsert env b = Returned tt) (batchesOf vectors) ->
          upsertMechanics env vectors
          = (map UpsertBatch (batchesOf vectors), Returned tt))
      /\ (Exists (fun b => exists m, indexUpsert env b = Thrown m) (batchesOf vectors) ->
          Log.outcome (upsertMechanics env vectors) = Thrown upsertFailed))
  /\ (forall m, ingestGetIndex env = Thrown m ->
        upsertMechanics env vectors = ([], Thrown upsertFailed)).
Proof.
  split; [apply batchesOf_concat |].
  split; [apply batchesOf_sizes |].
  split.
  - intros G.
    destruct (upsertLoop_events env vectors (batchStarts (length vectors)))
      as [H1 [H2 H3]].
    fold (batchesOf vectors) in H1.
    unfold upsertMechanics, Log.tryCatch, Log.bind, Log.throw, Log.events, Log.outcome in *.
    rewrite G.
    destruct (upsertLoop env vectors (batchStarts (length vectors))) as [log o].
    simpl in *. split; [| split].
    + destruct o; simpl; rewrite ?app_nil_r; exact H1.
    + intros F.
      assert (S : forall bs, Forall (fun b => indexUpsert env b = Returned tt) bs ->
                             throughFirstFailure env bs = bs).
      { induction 1 as [| b bs Hb _ IH]; simpl; [reflexivity |].
        now rewrite Hb, IH. }
      rewrite H2.
      * rewrite H1, (S _ F). reflexivity.
      * unfold batchesOf in F. rewrite Forall_map in F. exact F.
    + intros X. unfold batchesOf in X. rewrite Exists_map in X.
      destruct (H3 X) as [m ->]. reflexivity.
  - intros m G. unfold upsertMechanics, Log.tryCatch, Log.bind, Log.throw.
    rewrite G. reflexivity.
Qed.

(** 250 vectors: batches of 100, 100 and 50. *)
Lemma upsertMechanics_batches_witness :
  let vectors :=
    repeat {| uv_id := "m-bells"; uv_values := [];
              uv_metadata := metadataOfStored
                               {| s_mechanic := Sample.bells;
                                  s_encounter := Sample.gahlran;
                                  s_dungeonRaid := Sample.duality |} |} 250 in
  let env := {| createEmbeddings := fun _ => Returned [];
                ingestGetIndex := Returned tt;
                indexUpsert := fun _ => Returned tt |} in
  map (@length _) (batchesOf vectors) = [100; 100; 50]%nat
  /\ Log.outcome (upsertMechanics env vectors) = Returned tt
  /\ length (Log.events (upsertMechanics env vectors)) = 3%nat.
Proof.
  intros vectors env.
  destruct (upsertMechanics_batches env vectors) as [_ [_ [H _]]].
  destruct (H eq_refl) as [_ [H2 _]].
  split; [vm_compute; reflexivity |].
  rewrite H2.
  - split; [reflexivity | vm_compute; reflexivity].
  - apply Forall_forall. intros b _. reflexivity.
Defined.

Section EmbedLoop.

Variable env : IngestProviders.
Variable texts : list string.
Variable f : list string -> list (list Q).
Hypothesis answers : forall batch, createEmbeddings env batch = Returned (f batch).

Lemma embedLoop_success (m : nat) : forall a embeddings processed,
  (forall k, (a <= k < a + m)%nat -> (k * BATCH_SIZE < length texts)%nat) ->
  (m = 0%nat \/ processed = (a * BATCH_SIZE)%nat) ->
  embedLoop env true texts (map (fun k => k * BATCH_SIZE)%nat (seq a m))
    embeddings processed
  = (flat_map (embedIteration texts) (map (fun k => k * BATCH_SIZE)%nat (seq a m)),
     Returned
       (embeddings
        ++ concat (map f (map (fun i => sliceRange texts i (i + BATCH_SIZE))
                            (map (fun k => k * BATCH_SIZE)%nat (seq a m)))))).
Proof.
  induction m as [| m IH]; intros a embeddings processed Hlt Hp.
  - simpl. now rewrite app_nil_r.
  - destruct Hp as [Hp | ->]; [discriminate |].
    cbn [seq map embedLoop flat_map concat].
    rewrite answers.
    assert (L : (a * BATCH_SIZE + length (sliceRange texts (a * BATCH_SIZE)
                                            (a * BATCH_SIZE + BATCH_SIZE))
                 = Nat.min (a * BATCH_SIZE + BATCH_SIZE) (length texts))%nat).
    { pose proof (Hlt a ltac:(lia)) as C.
      unfold sliceRange. rewrite length_firstn, length_skipn.
      unfold BATCH_SIZE in *. lia. }
    cbn zeta. rewrite L. unfold Log.bind, Log.emit, Log.ret. cbn beta iota.
    assert (N : m = 0%nat
                \/ Nat.min (a * BATCH_SIZE + BATCH_SIZE) (length texts)
                   = (S a * BATCH_SIZE)%nat).
    { destruct m as [| m]; [now left | right].
      pose proof (Hlt (S a) ltac:(lia)) as C. unfold BATCH_SIZE in *. lia. }
    rewrite (IH (S a) _ _ (fun k Hk => Hlt k ltac:(lia)) N).
    unfold embedIteration.
    destruct (a * BATCH_SIZE + BATCH_SIZE <? length texts)%nat;
      cbn [app]; rewrite <- ?app_assoc; reflexivity.
Qed.

End EmbedLoop.

Section Registration.

Lemma find_last (A : Type) (p : A -> bool) (l : list A) (x : A) :
  find p (l ++ [x])
  = match find p l with
    | Some y => Some y
    | None => if p x then Some x else None
    end.
Proof.
  induction l as [| y ys IH]; simpl; [reflexivity |].
  destruct (p y); [reflexivity | exact IH].
Qed.

Lemma registerAll_get (items : list Stored) : forall store mechanicId,
  Store.get (registerAll store items) mechanicId
  = match lastWithId items mechanicId with
    | Some item => Some item
    | None => Store.get store mechanicId
    end.
Proof.
  unfold registerAll, lastWithId.
  induction items as [| item rest IH]; intros store mechanicId; simpl; [reflexivity |].
  rewrite IH, find_last.
  destruct (find _ (rev rest)); [reflexivity |].
  unfold registerMechanic.
  destruct (String.eqb_spec (mechanic_id (s_mechanic item)) mechanicId) as [<- | N].
  - rewrite store_get_set_same. now destruct item.
  - now rewrite store_get_set_other.
Qed.

Lemma registerAll_wellFormed (items : list Stored) : forall store,
  storeWellFormed store -> storeWellFormed (registerAll store items).
Proof.
  unfold registerAll.
  induction items as [| item rest IH]; intros store H; simpl; [exact H |].
  apply IH. now apply registerMechanic_wellFormed.
Qed.

Lemma lastWithId_unique (items : list Stored) item :
  NoDup (map (fun it => mechanic_id (s_mechanic it)) items) ->
  In item items ->
  lastWithId items (mechanic_id (s_mechanic item)) = Some item.
Proof.
  unfold lastWithId.
  induction items as [| x xs IH]; simpl; [tauto |].
  intros N Hin. inversion N as [| ? ? Hx Hxs]; subst.
  rewrite find_last.
  destruct Hin as [-> | Hin].
  - destruct (find _ (rev xs)) as [y |] eqn:E.
    + exfalso. apply find_some in E. destruct E as [Hy Hid].
      apply String.eqb_eq in Hid. apply Hx. rewrite <- Hid.
      apply in_map_iff. exists y. split; [reflexivity |]. now apply in_rev.
    + now rewrite String.eqb_refl.
  - now rewrite (IH Hxs Hin).
Qed.

End Registration.

(** X20.  [generateEmbeddings] with a progress callback, while the embedding
    endpoint answers.  The texts are sent in consecutive batches of at most
    100; each batch is followed by a progress notification with the number
    of texts sent so far, the last one reporting all of them, and by a pause
    of 100 ms only when more texts remain.  The embeddings come back batch
    by batch in the order of the texts. *)
Theorem generateEmbeddings_batches
    (env : IngestProviders) (texts : list string)
    (f : list string -> list (list Q)) :
  (forall batch, createEmbeddings env batch = Returned (f batch)) ->
  generateEmbeddings env true texts
  = (flat_map (embedIteration texts) (batchStarts (length texts)),
     Returned (concat (map f (batchesOf texts))))
  /\ concat (batchesOf texts) = texts.
Proof.
  intros H. split; [| apply batchesOf_concat].
  unfold generateEmbeddings, batchStarts, batchesOf, batchStarts.
  rewrite (@embedLoop_success env texts f H); [reflexivity | | now right].
  intros k Hk. apply batch_count_covers. lia.
Qed.

(** 150 texts: a full batch, progress 100/150, a pause, the rest, progress
    150/150 and no pause. *)
Lemma generateEmbeddings_batches_witness :
  let env := {| createEmbeddings := fun batch => Returned (map (fun _ => [0.5]%Q) batch);
                ingestGetIndex := Returned tt;
                indexUpsert := fun _ => Returned tt |} in
  let texts := repeat "Mechanic: Bell teleport"%string 150 in
  map (fun e => match e with
                | EmbedBatch b => ("embed", length b, 0)
                | Progress p t => ("progress", p, t)
                | Sleep _ => ("sleep", 0, 0)
                | UpsertBatch b => ("upsert", length b, 0)
                end%nat%string)
      (Log.events (generateEmbeddings env true texts))
  = [("embed", 100, 0); ("progress", 100, 150); ("sleep", 0, 0);
     ("embed", 50, 0); ("progress", 150, 150)]%nat%string.
Proof.
  intros env texts.
  rewrite (proj1 (@generateEmbeddings_batches env texts
                    (fun batch => map (fun _ => [0.5]%Q) batch)
                    (fun batch => eq_refl))).
  vm_compute. reflexivity.
Defined.

(** What a run of the ingest route leaves in the store. *)
Lemma ingestRoute_get_after_success
    (env : IngestProviders) (limiter : JSMap.t RateLimit.RateLimitStore)
    (store : Store.t) (now : Z) (headers : RateLimit.RequestHeaders)
    (mechanics : list Stored) :
  match run_response (ingestRoute env limiter store now headers mechanics) with
  | Ingested _ _ =>
      forall mechanicId,
        Store.get (run_store (ingestRoute env limiter store now headers mechanics))
          mechanicId
        = match lastWithId mechanics mechanicId with
          | Some item => Some item
          | None => Store.get store mechanicId
          end
  | _ => True
  end.
Proof.
  unfold ingestRoute.
  destruct (RateLimit.checkRateLimit limiter now _ _) as [limiter' rateLimit].
  destruct (RateLimit.allowed rateLimit); cbn [negb]; [| exact I].
  match goal with
  | |- context [Log.outcome ?w] => destruct (Log.outcome w)
  end; cbn [run_response run_store]; [| exact I].
  intros mechanicId. apply registerAll_get.
Qed.

(** X21.  The ingest route.  A rate-limited request contacts no provider
    and leaves the Mechanic Store as it is; so does a request that fails in
    the embedding, vector or upsert step, whatever the upsert already wrote.
    A successful request registers every item: a lookup of an identifier
    then returns the item of the request that carries it last, an identifier
    the request does not mention keeps its entry, and a store with one entry
    per key stays such a store. *)
Theorem ingestRoute_registers_only_on_success
    (env : IngestProviders) (limiter : JSMap.t RateLimit.RateLimitStore)
    (store : Store.t) (now : Z) (headers : RateLimit.RequestHeaders)
    (mechanics : list Stored) :
  let run := ingestRoute env limiter store now headers mechanics in
  match run_response run with
  | IngestRateLimited _ => run_store run = store /\ run_events run = []
  | IngestFailed _ => run_store run = store
  | Ingested n _ =>
      n = length mechanics
      /\ (forall mechanicId,
            Store.get (run_store run) mechanicId
            = match lastWithId mechanics mechanicId with
              | Some item => Some item
              | None => Store.get store mechanicId
              end)
      /\ (storeWellFormed store -> storeWellFormed (run_store run))
  end.
Proof.
  unfold ingestRoute.
  destruct (RateLimit.checkRateLimit limiter now _ _) as [limiter' rateLimit].
  destruct (RateLimit.allowed rateLimit); cbn [negb].
  - match goal with
    | |- context [Log.outcome ?w] => destruct (Log.outcome w)
    end; cbn [run_response run_store].
    + split; [reflexivity |]. split.
      * intros mechanicId. apply registerAll_get.
      * apply registerAll_wellFormed.
    + reflexivity.
  - cbn [run_response run_store run_events]. split; reflexivity.
Qed.

(** Two items ingested into an empty store; and a sixth request in the
    same minute. *)
Lemma ingestRoute_registers_only_on_success_witness :
  let env := {| createEmbeddings := fun batch => Returned (map (fun _ => [0.5]%Q) batch);
                ingestGetIndex := Returned tt;
                indexUpsert := fun _ => Returned tt |} in
  let items := [ {| s_mechanic := Sample.bells; s_encounter := Sample.gahlran;
                    s_dungeonRaid := Sample.duality |};
                 {| s_mechanic := Sample.caiatlFlow; s_encounter := Sample.caiatl;
                    s_dungeonRaid := Sample.duality |} ] in
  let headers := {| RateLimit.xForwardedFor := Some "203.0.113.7"%string;
                    RateLimit.xRealIp := None |} in
  run_response (ingestRoute env [] [] 1000 headers items) = Ingested 2 4
  /\ Store.get (run_store (ingestRoute env [] [] 1000 headers items)) "m-bells"
     = Some {| s_mechanic := Sample.bells; s_encounter := Sample.gahlran;
               s_dungeonRaid := Sample.duality |}
  /\ run_response
       (ingestRoute env
          [("203.0.113.7"%string,
            {| RateLimit.count := 5; RateLimit.resetTime := 61000 |})]
          [] 2000 headers items)
     = IngestRateLimited 61000.
Proof.
  intros env items headers.
  pose proof (ingestRoute_registers_only_on_success env [] [] 1000 headers items) as H.
  cbv zeta in H.
  assert (R : run_response (ingestRoute env [] [] 1000 headers items) = Ingested 2 4)
    by (vm_compute; reflexivity).
  rewrite R in H. destruct H as [_ [G _]].
  split; [exact R |]. split; [rewrite G; reflexivity | vm_compute; reflexivity].
Defined.

Section RoundTrip.

Variable store : Store.t.
Variable r : Resolution.
Variable isFinalBossQuery : bool.
Hypothesis unresolved : targetEncounterOrder r = None.

(** A candidate the store knows is pushed with the stored data. *)
Lemma processCandidate_known c stored :
  Store.get store (md_mechanicId (c_metadata c)) = Some stored ->
  exists s,
    flowPushOf store r isFinalBossQuery c ++ otherPushOf store r isFinalBossQuery c
    = [resultFromStore c stored s].
Proof.
  intros G. unfold flowPushOf, otherPushOf, processCandidate. rewrite G.
  destruct (@positionScore_never_drops r isFinalBossQuery unresolved true
              (JS.nullish (encounter_order (s_encounter stored))
                 (md_encounterOrder (c_metadata c))) (c_score c)) as [s ->].
  destruct (isEncounterFlowMechanic _); eexists; reflexivity.
Qed.

Lemma pushes_In (l : list Candidate) c sr :
  In c l ->
  flowPushOf store r isFinalBossQuery c ++ otherPushOf store r isFinalBossQuery c = [sr] ->
  In sr (flat_map (flowPushOf store r isFinalBossQuery) l
         ++ flat_map (otherPushOf store r isFinalBossQuery) l).
Proof.
  intros Hin Hpush.
  assert (H : In sr (flowPushOf store r isFinalBossQuery c
                     ++ otherPushOf store r isFinalBossQuery c))
    by (rewrite Hpush; now left).
  apply in_app_or in H. apply in_or_app.
  destruct H as [H | H]; [left | right]; apply in_flat_map; exists c; auto.
Qed.

End RoundTrip.

Section LoadStore.

Lemma registerDungeonRaid_triples (d : DungeonRaid) (store : Store.t) :
  registerDungeonRaid store d = registerAll store (triplesOf d).
Proof.
  unfold registerDungeonRaid, triplesOf, registerAll.
  revert store.
  induction (dungeonRaid_encounters d) as [| e es IH]; intros store;
    cbn [fold_left flat_map]; [reflexivity |].
  rewrite fold_left_app, <- IH. f_equal.
  clear IH. revert store.
  induction (encounter_mechanics e) as [| m ms IHm]; intros store;
    cbn [fold_left map]; [reflexivity |].
  now rewrite IHm.
Qed.

(** The first [loadMechanicStore] that can read the directory registers the
    triples of the files that parse, in order, over what the map holds; a
    later one, or one that cannot read the directory, changes nothing. *)
Lemma loadMechanicStore_store (dataDir : DataDir) (state : RagState) :
  rag_store (loadMechanicStore dataDir state)
  = if rag_storeLoaded state then rag_store state
    else registerAll (rag_store state) (diskTriples dataDir).
Proof.
  unfold loadMechanicStore, diskTriples.
  destruct (rag_storeLoaded state); [reflexivity |].
  destruct dataDir as [files |]; [| reflexivity].
  cbn [rag_store]. generalize (rag_store state).
  induction files as [| file rest IH]; intros store; cbn [fold_left flat_map];
    [reflexivity |].
  rewrite IH. unfold registerAll at 2. rewrite fold_left_app.
  destruct file as [d |]; cbn [fold_left]; [| reflexivity].
  now rewrite registerDungeonRaid_triples.
Qed.

End LoadStore.

(** X22.  Round trip from ingestion to retrieval.  After a successful
    ingest request whose items carry distinct mechanic identifiers, take a
    retrieval, left without target order, whose provider answer holds a match
    with the identifier and metadata of an ingested vector.  The retrieval
    first runs [loadMechanicStore].  When the store had been loaded before
    the ingest, or no file on disk carries the identifier, the ranked list
    holds a result with the ingested mechanic, encounter and collection
    themselves.  When the store had not been loaded and a file carries the
    identifier, the load overwrites the ingested entry and the result
    carries the data of the file instead. *)
Theorem ingested_mechanic_is_retrieved_from_store
    (ingestEnv : IngestProviders) (limiter : JSMap.t RateLimit.RateLimitStore)
    (state : RagState) (now : Z) (headers : RateLimit.RequestHeaders)
    (mechanics : list Stored) (n : nat) (remaining : Z)
    (item : Stored) (embedding : list Q) (similarity : Q)
    (env : Providers) (dataDir : DataDir)
    (query : string) (options : SearchOptions) (providerResults : list Candidate) :
  run_response (ingestRoute ingestEnv limiter (rag_store state) now headers mechanics)
  = Ingested n remaining ->
  NoDup (map (fun it => mechanic_id (s_mechanic it)) mechanics) ->
  In item mechanics ->
  providerAnswer env query options = Returned providerResults ->
  In (candidateOfVector (ingestVector embedding item) similarity) providerResults ->
  let ingested :=
    {| rag_store :=
         run_store (ingestRoute ingestEnv limiter (rag_store state) now headers mechanics);
       rag_storeLoaded := rag_storeLoaded state |} in
  let retrieval := retrieveFromState env dataDir ingested query options in
  let ranked := finalResults (rag_store (fst retrieval)) query options providerResults in
  targetEncounterOrder
    (snd (candidatesAndTarget (rag_store (fst retrieval)) query options providerResults))
  = None ->
  Eff.outcome (snd retrieval) = Returned (JS.slice0 ranked (baseTopK options))
  /\ (rag_storeLoaded state = true
      \/ lastWithId (diskTriples dataDir) (mechanic_id (s_mechanic item)) = None ->
      exists sr,
        In sr ranked
        /\ result_id sr = mechanic_id (s_mechanic item)
        /\ mechanic sr = s_mechanic item
        /\ encounter sr = s_encounter item
        /\ ref_name (dungeonRaid sr) = dungeonRaid_name (s_dungeonRaid item))
  /\ (rag_storeLoaded state = false ->
      forall onDisk,
        lastWithId (diskTriples dataDir) (mechanic_id (s_mechanic item)) = Some onDisk ->
        exists sr,
          In sr ranked
          /\ result_id sr = mechanic_id (s_mechanic item)
          /\ mechanic sr = s_mechanic onDisk
          /\ encounter sr = s_encounter onDisk
          /\ ref_name (dungeonRaid sr) = dungeonRaid_name (s_dungeonRaid onDisk)).
Proof.
  intros Hrun Hnd Hitem Hp Hin ingested retrieval ranked Ht.
  set (store' := rag_store (fst retrieval)) in *.
  assert (G0 : Store.get (rag_store ingested) (mechanic_id (s_mechanic item))
               = Some item).
  { pose proof (ingestRoute_get_after_success ingestEnv limiter (rag_store state) now
                  headers mechanics) as H.
    rewrite Hrun in H. cbn [ingested rag_store]. rewrite H.
    now rewrite (@lastWithId_unique mechanics item Hnd Hitem). }
  assert (L : store'
              = if rag_storeLoaded state then rag_store ingested
                else registerAll (rag_store ingested) (diskTriples dataDir)).
  { unfold store', retrieval, retrieveFromState. cbn [fst].
    now rewrite loadMechanicStore_store. }
  assert (K : forall stored,
             Store.get store' (mechanic_id (s_mechanic item)) = Some stored ->
             exists sr,
               In sr ranked
               /\ result_id sr = mechanic_id (s_mechanic item)
               /\ mechanic sr = s_mechanic stored
               /\ encounter sr = s_encounter stored
               /\ ref_name (dungeonRaid sr) = dungeonRaid_name (s_dungeonRaid stored)).
  { intros stored G.
    assert (C : fst (candidatesAndTarget store' query options providerResults)
                = providerResults).
    { apply candidates_provider. intros ->. contradiction. }
    unfold ranked, finalResults.
    destruct (candidatesAndTarget store' query options providerResults) as [cands res].
    cbn [fst snd] in Ht, C. subst cands. rewrite bucketLoop_flat_map.
    destruct (@processCandidate_known store' res (isFinalBossQueryOf query) Ht
                (candidateOfVector (ingestVector embedding item) similarity) stored G)
      as [s Hpush].
    exists (resultFromStore (candidateOfVector (ingestVector embedding item) similarity)
              stored s).
    split; [| repeat split].
    pose proof (@pushes_In store' res (isFinalBossQueryOf query) providerResults _ _
                  Hin Hpush) as P.
    apply in_app_or in P. apply in_or_app.
    destruct P as [P | P]; [left | right]; now apply sortByScore_In. }
  split; [| split].
  - unfold retrieval, retrieveFromState. cbn [snd].
    rewrite retrieve_outcome, Hp. reflexivity.
  - intros H. apply K. rewrite L.
    destruct (rag_storeLoaded state); [exact G0 |].
    destruct H as [H | H]; [discriminate |].
    now rewrite registerAll_get, H.
  - intros Hl onDisk H. 
    destruct (K onDisk) as [sr Hsr]; [| exists sr; exact Hsr].
    rewrite L, Hl. now rewrite registerAll_get, H.
Qed.

(** An item no file carries, ingested before the first load and matched by
    the provider at 0.7, comes back with its own data. *)
Lemma ingested_mechanic_is_retrieved_from_store_witness :
  let ingestEnv :=
    {| createEmbeddings := fun batch => Returned (map (fun _ => [0.5]%Q) batch);
       ingestGetIndex := Returned tt;
       indexUpsert := fun _ => Returned tt |} in
  let headers := {| RateLimit.xForwardedFor := None; RateLimit.xRealIp := None |} in
  let state := {| rag_store := []; rag_storeLoaded := false |} in
  let env :=
    Sample.answering
      [ {| match_id := "m-urns"%string; match_score := Some 0.7%Q;
           match_metadata := metadataOfStored DiskSample.urns |} ] in
  let ingested :=
    {| rag_store :=
         run_store (ingestRoute ingestEnv [] (rag_store state) 1000 headers
                      [DiskSample.urns]);
       rag_storeLoaded := false |} in
  let retrieval :=
    retrieveFromState env (Some [Some DiskSample.dualityFile; None]) ingested
      "how do the urns work" (Sample.unfiltered None) in
  map fst (rag_store (fst retrieval)) = ["m-urns"; "m-gflow"; "m-bells"]%string
  /\ exists sr,
       In sr (finalResults (rag_store (fst retrieval)) "how do the urns work"
                (Sample.unfiltered None)
                [candidateOfVector (ingestVector [0.5]%Q DiskSample.urns) 0.7%Q])
       /\ mechanic sr = s_mechanic DiskSample.urns.
Proof.
  intros ingestEnv headers state env ingested retrieval.
  split; [vm_compute; reflexivity |].
  destruct (@ingested_mechanic_is_retrieved_from_store ingestEnv [] state 1000%Z headers
              [DiskSample.urns] 1%nat 4%Z DiskSample.urns [0.5]%Q 0.7%Q env
              (Some [Some DiskSample.dualityFile; None])
              "how do the urns work"%string (Sample.unfiltered None)
              [candidateOfVector (ingestVector [0.5]%Q DiskSample.urns) 0.7%Q]
              ltac:(vm_compute; reflexivity)
              ltac:(repeat constructor; simpl; tauto)
              ltac:(now left)
              ltac:(vm_compute; reflexivity)
              ltac:(now left)
              ltac:(vm_compute; reflexivity)) as [_ [H _]].
  destruct (H ltac:(right; vm_compute; reflexivity)) as [sr [H1 [_ [H3 _]]]].
  exists sr. split; [exact H1 | exact H3].
Defined.

(* ================================================================== *)
(** ** The search route: properties                                    *)
(* ================================================================== *)

Section SearchRoute.

Variable stringify : SearchRequestFilters -> string.

Lemma cache_get_live (T : Type) (cache : Cache.t T) now key entry :
  JSMap.get cache key = Some entry ->
  (now <= Cache.expiresAt entry)%Z ->
  Cache.get cache now key = (cache, Some (Cache.data entry)).
Proof.
  intros G L. unfold Cache.get. rewrite G.
  destruct (Z.ltb_spec (Cache.expiresAt entry) now); [lia | reflexivity].
Qed.

Lemma cache_get_after_set (T : Type) (cache : Cache.t T) now later key d ttl :
  (later <= now + ttl)%Z ->
  Cache.get (Cache.set cache now key d ttl) later key
  = (Cache.set cache now key d ttl, Some d).
Proof.
  intros L. unfold Cache.set.
  rewrite (@cache_get_live T _ later key {| Cache.data := d; Cache.expiresAt := now + ttl |});
    [reflexivity | apply jsmap_get_set_same | exact L].
Qed.

Lemma buildPineconeFilter_of_request f pf :
  buildPineconeFilter {| opts_filter := Some (filterOfRequest f); opts_topK := None |}
  = Some pf ->
  pf_contestModeSpecific pf = None /\ pf_encounterOrder pf = None.
Proof.
  unfold buildPineconeFilter, filterOfRequest. simpl.
  destruct (keepTruthy (sf_dungeonRaidName f));
    destruct (keepTruthy (sf_encounterType f));
    destruct (keepTruthy (sf_mechanicType f));
    destruct (keepTruthy (sf_difficulty f));
    intros [= <-]; split; reflexivity.
Qed.

End SearchRoute.

(** X23.  A cache hit of the search route.  When the rate limiter lets the
    request through and the cache holds an unexpired entry under the key of
    the query and the filters, the route answers with the cached list and
    contacts no provider.  The key does not depend on [limit], so the answer
    is the cached list whatever limit the request carries, also when the
    list is longer than that limit. *)
Theorem searchRoute_cache_hit_ignores_limit
    (stringify : SearchRequestFilters -> string) (env : Providers) (store : Store.t)
    (limiter : JSMap.t RateLimit.RateLimitStore) (cache : Cache.t (list SearchResult))
    (nowLimit nowGet nowSet : Z) (headers : RateLimit.RequestHeaders)
    (validated : SearchRequest) (entry : Cache.CacheEntry (list SearchResult)) :
  RateLimit.allowed
    (snd (RateLimit.checkRateLimit limiter nowLimit
            (RateLimit.getClientIdentifier headers)
            {| RateLimit.maxRequests := 20; RateLimit.windowMs := 60000 |}))
  = true ->
  JSMap.get cache
    (getSearchCacheKey stringify (sq_query validated) (sq_filters validated))
  = Some entry ->
  (nowGet <= Cache.expiresAt entry)%Z ->
  forall limit,
    let run :=
      searchRoute stringify env store limiter cache nowLimit nowGet nowSet headers
        {| sq_query := sq_query validated; sq_filters := sq_filters validated;
           sq_limit := limit |} in
    search_calls run = []
    /\ search_cache run = cache
    /\ exists remaining,
         search_response run = SearchOk (Cache.data entry) true remaining.
Proof.
  intros Ha Hg He limit. unfold searchRoute.
  destruct (RateLimit.checkRateLimit limiter nowLimit _ _) as [limiter' rateLimit].
  simpl in Ha. rewrite Ha. cbn [negb sq_query sq_filters].
  rewrite (@cache_get_live _ cache nowGet _ entry Hg He).
  cbn [search_calls search_cache search_response].
  split; [reflexivity |]. split; [reflexivity |]. eexists. reflexivity.
Qed.

(** Four results cached for a query; a request for that query with limit 1
    gets all four. *)
Lemma searchRoute_cache_hit_ignores_limit_witness :
  let cached :=
    map (fun m => resultFromMetadata (candidateOfMatch m) 0.5%Q) Sample.finalBossMatches in
  let cache := [("search:bells:"%string,
                 {| Cache.data := cached; Cache.expiresAt := 301000 |})] in
  let run :=
    searchRoute (fun _ => ""%string) Sample.searchDown Sample.store [] cache
      2000 2001 2002
      {| RateLimit.xForwardedFor := None; RateLimit.xRealIp := None |}
      {| sq_query := "bells"; sq_filters := None; sq_limit := Some 1%Z |} in
  search_calls run = []
  /\ exists remaining, search_response run = SearchOk cached true remaining.
Proof.
  intros cached cache run.
  destruct (@searchRoute_cache_hit_ignores_limit
              (fun _ => ""%string) Sample.searchDown Sample.store [] cache
              2000%Z 2001%Z 2002%Z
              {| RateLimit.xForwardedFor := None; RateLimit.xRealIp := None |}
              {| sq_query := "bells"; sq_filters := None; sq_limit := None |}
              {| Cache.data := cached; Cache.expiresAt := 301000 |}
              eq_refl eq_refl ltac:(simpl; lia) (Some 1%Z)) as [H1 [_ H3]].
  split; [exact H1 | exact H3].
Defined.

(** What a run of the search route leaves in the cache. *)
Lemma searchRoute_cache_after
    (stringify : SearchRequestFilters -> string) (env : Providers) (store : Store.t)
    (limiter : JSMap.t RateLimit.RateLimitStore) (cache : Cache.t (list SearchResult))
    (nowLimit nowGet nowSet : Z) (headers : RateLimit.RequestHeaders)
    (validated : SearchRequest) :
  let key := getSearchCacheKey stringify (sq_query validated) (sq_filters validated) in
  let run :=
    searchRoute stringify env store limiter cache nowLimit nowGet nowSet headers
      validated in
  match search_response run with
  | SearchOk results false _ =>
      search_cache run
      = Cache.set (fst (Cache.get cache nowGet key)) nowSet key results (5 * 60 * 1000)
  | SearchOk _ true _ => search_calls run = []
  | SearchRateLimited _ => search_cache run = cache /\ search_calls run = []
  | SearchFailed _ => search_cache run = fst (Cache.get cache nowGet key)
  end.
Proof.
  cbv zeta. unfold searchRoute.
  destruct (RateLimit.checkRateLimit limiter nowLimit _ _) as [limiter' rateLimit].
  destruct (RateLimit.allowed rateLimit); cbn [negb];
    [| cbn [search_response search_cache search_calls]; split; reflexivity].
  destruct (Cache.get cache nowGet _) as [cache1 [hit |]] eqn:G;
    [cbn [search_response search_calls]; reflexivity |].
  destruct (Eff.outcome _) as [results | message];
    cbn [search_response search_cache fst]; reflexivity.
Qed.

(** X24.  The search route caches a successful retrieval for five minutes.
    After a request that was answered by the engine, a request with the same
    query and filters (and any limit) that passes the rate limiter and reads
    the cache no later than five minutes after the write gets the same
    results, marked as cached, without any provider call.  A request that
    fails or is rate limited writes nothing to the cache. *)
Theorem searchRoute_serves_repeat_from_cache
    (stringify : SearchRequestFilters -> string) (env : Providers) (store : Store.t)
    (limiter : JSMap.t RateLimit.RateLimitStore) (cache : Cache.t (list SearchResult))
    (nowLimit nowGet nowSet : Z) (headers : RateLimit.RequestHeaders)
    (validated : SearchRequest) :
  let run :=
    searchRoute stringify env store limiter cache nowLimit nowGet nowSet headers
      validated in
  match search_response run with
  | SearchOk results false _ =>
      forall env2 store2 nowLimit2 nowGet2 nowSet2 headers2 limit2,
        RateLimit.allowed
          (snd (RateLimit.checkRateLimit (search_limiter run) nowLimit2
                  (RateLimit.getClientIdentifier headers2)
                  {| RateLimit.maxRequests := 20; RateLimit.windowMs := 60000 |}))
        = true ->
        (nowGet2 <= nowSet + 300000)%Z ->
        let run2 :=
          searchRoute stringify env2 store2 (search_limiter run) (search_cache run)
            nowLimit2 nowGet2 nowSet2 headers2
            {| sq_query := sq_query validated; sq_filters := sq_filters validated;
               sq_limit := limit2 |} in
        search_calls run2 = []
        /\ exists remaining, search_response run2 = SearchOk results true remaining
  | SearchOk _ true _ => search_calls run = []
  | SearchRateLimited _ => search_cache run = cache /\ search_calls run = []
  | SearchFailed _ => search_cache run = fst (Cache.get cache nowGet
                        (getSearchCacheKey stringify (sq_query validated)
                           (sq_filters validated)))
  end.
Proof.
  intros run.
  pose proof (searchRoute_cache_after stringify env store limiter cache
                nowLimit nowGet nowSet headers validated) as H.
  cbv zeta in H. fold run in H.
  destruct (search_response run) as [resetAt | results [|] remaining | message];
    try exact H.
  intros env2 store2 nowLimit2 nowGet2 nowSet2 headers2 limit2 Ha Ht run2.
  unfold run2, searchRoute.
  destruct (RateLimit.checkRateLimit (search_limiter run) nowLimit2 _ _)
    as [limiter2 rateLimit2].
  simpl in Ha. rewrite Ha. cbn [negb sq_query sq_filters]. rewrite H.
  rewrite cache_get_after_set by lia.
  cbn [search_calls search_response]. split; [reflexivity |]. eexists. reflexivity.
Qed.

(** A search answered by the engine, repeated one minute later with another
    limit while the search provider is down: served from the cache. *)
Lemma searchRoute_serves_repeat_from_cache_witness :
  let headers := {| RateLimit.xForwardedFor := Some "203.0.113.7"%string;
                    RateLimit.xRealIp := None |} in
  let request limit := {| sq_query := "how does the fight work"; sq_filters := None;
                          sq_limit := limit |} in
  let run := searchRoute (fun _ => ""%string)
               (Sample.answering Sample.finalBossMatches) Sample.store [] []
               1000 1001 1500 headers (request None) in
  let run2 := searchRoute (fun _ => ""%string) Sample.searchDown Sample.store
                (search_limiter run) (search_cache run)
                61000 61001 61002 headers (request (Some 2%Z)) in
  search_calls run2 = []
  /\ exists results remaining,
       search_response run = SearchOk results false 19
       /\ length results = 4%nat
       /\ search_response run2 = SearchOk results true remaining.
Proof.
  intros headers request run run2.
  pose proof (@searchRoute_serves_repeat_from_cache (fun _ => ""%string)
                (Sample.answering Sample.finalBossMatches) Sample.store [] []
                1000%Z 1001%Z 1500%Z headers (request None)) as H.
  cbv zeta in H. fold run in H.
  assert (R : exists results, search_response run = SearchOk results false 19
                              /\ length results = 4%nat).
  { eexists. split; [vm_compute; reflexivity | reflexivity]. }
  destruct R as [results [R L]]. rewrite R in H.
  destruct (H Sample.searchDown Sample.store 61000%Z 61001%Z 61002%Z headers (Some 2%Z)
              ltac:(vm_compute; reflexivity) ltac:(lia)) as [H1 [remaining H2]].
  split; [exact H1 |]. exists results, remaining. repeat split; assumption.
Defined.

(** X25.  The [contestModeOnly] flag of a search request has no effect on
    the retrieval: the options handed to the engine do not depend on it, and
    no provider query of the route carries a contest-mode or encounter-order
    constraint. *)
Theorem searchRoute_ignores_contestModeOnly
    (stringify : SearchRequestFilters -> string) (env : Providers) (store : Store.t)
    (limiter : JSMap.t RateLimit.RateLimitStore) (cache : Cache.t (list SearchResult))
    (nowLimit nowGet nowSet : Z) (headers : RateLimit.RequestHeaders)
    (validated : SearchRequest) :
  (forall f flag,
     sq_filters validated = Some f ->
     searchRouteOptions
       {| sq_query := sq_query validated;
          sq_filters := Some {| sf_dungeonRaidName := sf_dungeonRaidName f;
                                sf_encounterType := sf_encounterType f;
                                sf_mechanicType := sf_mechanicType f;
                                sf_difficulty := sf_difficulty f;
                                sf_contestModeOnly := flag |};
          sq_limit := sq_limit validated |}
     = searchRouteOptions validated)
  /\ Forall (fun c =>
               match callFilter c with
               | Some pf => pf_contestModeSpecific pf = None
                            /\ pf_encounterOrder pf = None
               | None => True
               end)
       (search_calls
          (searchRoute stringify env store limiter cache nowLimit nowGet nowSet headers
             validated)).
Proof.
  split.
  - intros f flag E. unfold searchRouteOptions. rewrite E. reflexivity.
  - assert (C : Forall (fun c =>
                          match callFilter c with
                          | Some pf => pf_contestModeSpecific pf = None
                                       /\ pf_encounterOrder pf = None
                          | None => True
                          end)
                  (Eff.calls (retrieveRelevantMechanics env store (sq_query validated)
                                (searchRouteOptions validated)))).
    { rewrite retrieve_calls.
      destruct (embeddingsCreate env (sq_query validated)) as [v | m];
        [| repeat constructor].
      destruct (getIndex env); repeat constructor. simpl.
      unfold searchRouteOptions.
      destruct (sq_filters validated) as [f |]; simpl; [| exact I].
      destruct (buildPineconeFilter _) as [pf |] eqn:B; [| exact I].
      apply (@buildPineconeFilter_of_request f pf). exact B. }
    unfold searchRoute.
    destruct (RateLimit.checkRateLimit limiter nowLimit _ _) as [limiter' rateLimit].
    destruct (RateLimit.allowed rateLimit); cbn [negb]; [| constructor].
    destruct (Cache.get cache nowGet _) as [cache1 [hit |]]; [constructor |].
    destruct (Eff.outcome _); exact C.
Qed.

(** A search for contest-mode mechanics of Duality: the provider query is
    constrained by the collection only. *)
Lemma searchRoute_ignores_contestModeOnly_witness :
  map callFilter
    (search_calls
       (searchRoute (fun _ => "{}"%string) (Sample.answering []) Sample.store [] []
          1000 1001 1002
          {| RateLimit.xForwardedFor := None; RateLimit.xRealIp := None |}
          {| sq_query := "bells";
             sq_filters := Some {| sf_dungeonRaidName := Some "Duality"%string;
                                   sf_encounterType := None;
                                   sf_mechanicType := None;
                                   sf_difficulty := None;
                                   sf_contestModeOnly := Some true |};
             sq_limit := None |}))
  = [None;
     Some {| pf_dungeonRaidName := Some "Duality"%string; pf_encounterType := None;
             pf_mechanicType := None; pf_difficulty := None;
             pf_contestModeSpecific := None; pf_encounterOrder := None |}]
  /\ Forall (fun c =>
               match callFilter c with
               | Some pf => pf_contestModeSpecific pf = None
                            /\ pf_encounterOrder pf = None
               | None => True
               end)
       (search_calls
          (searchRoute (fun _ => "{}"%string) (Sample.answering []) Sample.store [] []
             1000 1001 1002
             {| RateLimit.xForwardedFor := None; RateLimit.xRealIp := None |}
             {| sq_query := "bells";
                sq_filters := Some {| sf_dungeonRaidName := Some "Duality"%string;
                                      sf_encounterType := None;
                                      sf_mechanicType := None;
                                      sf_difficulty := None;
                                      sf_contestModeOnly := Some true |};
                sq_limit := None |})).
Proof.
  split; [vm_compute; reflexivity |].
  apply searchRoute_ignores_contestModeOnly.
Defined.

(* ================================================================== *)
(** ** Session store: properties                                       *)
(* ================================================================== *)

Section SessionMaps.

Variable V : Type.

Lemma jsmap_values_set (m : JSMap.t V) key v x :
  In x (JSMap.values (JSMap.set m key v)) -> x = v \/ In x (JSMap.values m).
Proof.
  unfold JSMap.values.
  induction m as [| [k w] rest IH]; simpl.
  - intros [H | []]. now left.
  - destruct (String.eqb k key); simpl.
    + intros [H | H]; [now left | now right; right].
    + intros [H | H]; [now right; left |].
      destruct (IH H) as [E | E]; [now left | now right; right].
Qed.

Lemma jsmap_values_delete (m : JSMap.t V) key x :
  In x (JSMap.values (JSMap.delete m key)) -> In x (JSMap.values m).
Proof.
  unfold JSMap.values.
  induction m as [| [k w] rest IH]; simpl; [tauto |].
  destruct (String.eqb k key); simpl.
  - intros H. right. now apply IH.
  - intros [H | H]; [now left | right; now apply IH].
Qed.

Lemma jsmap_get_values (m : JSMap.t V) key v :
  JSMap.get m key = Some v -> In v (JSMap.values m).
Proof.
  unfold JSMap.values.
  induction m as [| [k w] rest IH]; simpl; [discriminate |].
  destruct (String.eqb k key).
  - intros H. injection H as ->. now left.
  - intros H. right. now apply IH.
Qed.

End SessionMaps.

Section SessionEncounters.

Import Sessions.

Lemma find_name_absent (name : string) (l : list EncounterContext) :
  find (fun e => String.eqb (ec_name e) name) l = None ->
  ~ In name (map ec_name l).
Proof.
  induction l as [| e rest IH]; simpl; [tauto |].
  destruct (String.eqb (ec_name e) name) eqn:E; [discriminate |].
  intros H [H1 | H1].
  - apply String.eqb_neq in E. contradiction.
  - now apply IH.
Qed.

Lemma NoDup_snoc (A : Type) (l : list A) (x : A) :
  NoDup l -> ~ In x l -> NoDup (l ++ [x]).
Proof.
  induction l as [| y rest IH]; simpl; intros N H.
  - constructor; [tauto | constructor].
  - inversion N as [| ? ? N1 N2]; subst.
    constructor.
    + rewrite in_app_iff. simpl. intros [H1 | [H1 | []]]; [contradiction |].
      apply H. now left.
    + apply IH; [assumption |]. intros H1. apply H. now right.
Qed.

Lemma encountersOk_withMechanics (s : Session) ms :
  encountersOk s -> encountersOk (withMechanics s ms).
Proof. intros H. exact H. Qed.

Lemma encountersOk_push (s : Session) (e : EncounterContext) d c :
  encountersOk s ->
  ~ In (ec_name e) (map ec_name (encounters s)) ->
  ec_name e <> EmptyString ->
  ec_order e = (Z.of_nat (length (encounters s)) + 1)%Z ->
  encountersOk
    {| id := id s; dungeonName := d; startTime := startTime s;
       currentEncounter := c; mechanics := mechanics s;
       encounters := encounters s ++ [e] |}.
Proof.
  intros [N [F O]] Hn He Ho. unfold encountersOk. cbn [encounters].
  repeat split.
  - rewrite map_app. cbn [map]. now apply NoDup_snoc.
  - apply Forall_app. split; [assumption |]. constructor; [assumption | constructor].
  - rewrite map_app, length_app. cbn [map length].
    rewrite Nat.add_1_r, seq_S, map_app, O. cbn [map]. f_equal. f_equal.
    rewrite Ho. lia.
Qed.

Lemma truthyStr_nonempty (s : string) : JS.truthyStr s = true -> s <> EmptyString.
Proof. destruct s; simpl; congruence. Qed.

Lemma createSession_ok (sessions : t) clock random d c :
  encountersOk (snd (createSession sessions clock random d c)).
Proof.
  unfold createSession, encountersOk. cbn [snd encounters].
  destruct c as [name |]; cbn [keepTruthy].
  - destruct (JS.truthyStr name) eqn:T.
    + cbn [map length seq]. repeat split.
      * constructor; [simpl; tauto | constructor].
      * constructor; [| constructor]. cbn [ec_name]. now apply truthyStr_nonempty.
    + cbn [map length seq]. repeat split; constructor.
  - cbn [map length seq]. repeat split; constructor.
Qed.

Lemma apply_keeps_encounters (sessions : t) (op : Op) :
  (forall s, In s (getAllSessions sessions) -> encountersOk s) ->
  forall s, In s (getAllSessions (apply sessions op)) -> encountersOk s.
Proof.
  intros Inv s. unfold getAllSessions in *.
  destruct op as [clock random d c | clock sid u | clock random sid m
                 | sid mid u | sid mid | sid]; cbn [apply].
  - intros H. apply jsmap_values_set in H. destruct H as [-> | H]; [| now apply Inv].
    exact (createSession_ok sessions clock random d c).
  - unfold updateSession.
    destruct (JSMap.get sessions sid) as [s0 |] eqn:G; cbn [fst]; [| now apply Inv].
    pose proof (Inv _ (jsmap_get_values _ _ G)) as Ok0.
    intros H. apply jsmap_values_set in H. destruct H as [-> | H]; [| now apply Inv].
    assert (Ok1 : encountersOk
                    match su_dungeonName u with
                    | Some d =>
                        {| id := id s0; dungeonName := d; startTime := startTime s0;
                           currentEncounter := currentEncounter s0;
                           mechanics := mechanics s0; encounters := encounters s0 |}
                    | None => s0
                    end)
      by (destruct (su_dungeonName u); exact Ok0).
    set (s1 := match su_dungeonName u with Some _ => _ | None => _ end) in *.
    destruct (su_currentEncounter u) as [name |]; [| exact Ok1].
    destruct (find (fun e => String.eqb (ec_name e) name) (encounters s1)) eqn:Fd;
      [exact Ok1 |].
    destruct (JS.truthyStr name) eqn:T; [| exact Ok1].
    apply encountersOk_push; cbn [ec_name ec_order].
    + exact Ok1.
    + now apply find_name_absent.
    + now apply truthyStr_nonempty.
    + reflexivity.
  - unfold addMechanic.
    destruct (JSMap.get sessions sid) as [s0 |] eqn:G; cbn [fst]; [| now apply Inv].
    intros H. apply jsmap_values_set in H. destruct H as [-> | H]; [| now apply Inv].
    apply encountersOk_withMechanics, (Inv _ (jsmap_get_values _ _ G)).
  - unfold updateMechanic.
    destruct (JSMap.get sessions sid) as [s0 |] eqn:G; cbn [fst]; [| now apply Inv].
    destruct (findIndex (mechanics s0) mid) as [i |]; cbn [fst]; [| now apply Inv].
    destruct (nth_error (mechanics s0) i); cbn [fst]; [| now apply Inv].
    intros H. apply jsmap_values_set in H. destruct H as [-> | H]; [| now apply Inv].
    apply encountersOk_withMechanics, (Inv _ (jsmap_get_values _ _ G)).
  - unfold deleteMechanic.
    destruct (JSMap.get sessions sid) as [s0 |] eqn:G; cbn [fst]; [| now apply Inv].
    destruct (findIndex (mechanics s0) mid) as [i |]; cbn [fst]; [| now apply Inv].
    intros H. apply jsmap_values_set in H. destruct H as [-> | H]; [| now apply Inv].
    apply encountersOk_withMechanics, (Inv _ (jsmap_get_values _ _ G)).
  - unfold deleteSession. cbn [fst]. intros H. apply jsmap_values_delete in H.
    now apply Inv.
Qed.

Lemma fold_apply_keeps_encounters (ops : list Op) (sessions : t) :
  (forall s, In s (getAllSessions sessions) -> encountersOk s) ->
  forall s, In s (getAllSessions (fold_left apply ops sessions)) -> encountersOk s.
Proof.
  revert sessions. induction ops as [| op rest IH]; intros sessions Inv; simpl.
  - exact Inv.
  - apply IH. now apply apply_keeps_encounters.
Qed.

(** X26. Whatever calls the session module has served since it was loaded,
    every session it holds has an encounter list with distinct, non-empty
    names whose orders are 1, 2, 3, ... in list order. *)
Theorem session_encounters_numbered (ops : list Op) :
  Forall encountersOk (getAllSessions (run ops)).
Proof.
  apply Forall_forall. unfold run.
  apply fold_apply_keeps_encounters. intros s [].
Qed.

End SessionEncounters.
Section SessionMechanics.

Import Sessions.

Lemma findIndex_snoc_fresh (ms : list SessionMechanic) (m : SessionMechanic) :
  findIndex ms (sm_id m) = None ->
  findIndex (ms ++ [m]) (sm_id m) = Some (length ms).
Proof.
  induction ms as [| x rest IH]; simpl.
  - intros _. now rewrite String.eqb_refl.
  - destruct (String.eqb (sm_id x) (sm_id m)); [discriminate |].
    destruct (findIndex rest (sm_id m)); [discriminate |].
    intros _. now rewrite IH.
Qed.

Lemma removeAt_snoc (ms : list SessionMechanic) (m : SessionMechanic) :
  removeAt (ms ++ [m]) (length ms) = ms.
Proof. induction ms as [| x rest IH]; simpl; [reflexivity | now rewrite IH]. Qed.

Lemma withMechanics_same (s : Session) : withMechanics s (mechanics s) = s.
Proof. now destruct s. Qed.

Lemma findIndex_first (ms : list SessionMechanic) mechanicId i :
  findIndex ms mechanicId = Some i ->
  (exists m, nth_error ms i = Some m /\ sm_id m = mechanicId)
  /\ (forall j m, (j < i)%nat -> nth_error ms j = Some m -> sm_id m <> mechanicId).
Proof.
  revert i. induction ms as [| x rest IH]; simpl; intros i; [discriminate |].
  destruct (String.eqb (sm_id x) mechanicId) eqn:E.
  - intros H. injection H as <-. split.
    + exists x. split; [reflexivity | now apply String.eqb_eq].
    + intros j m Hj. lia.
  - destruct (findIndex rest mechanicId) as [k |]; [| discriminate].
    simpl. intros H. injection H as <-.
    destruct (IH k eq_refl) as [Hm Hbefore]. split; [exact Hm |].
    intros [| j] m Hj; simpl.
    + intros H. injection H as <-. now apply String.eqb_neq.
    + apply Hbefore. lia.
Qed.

Lemma setAt_same (ms : list SessionMechanic) i v m :
  nth_error ms i = Some m -> nth_error (setAt ms i v) i = Some v.
Proof.
  revert i. induction ms as [| x rest IH]; intros [| i]; simpl; try discriminate.
  - reflexivity.
  - apply IH.
Qed.

Lemma setAt_other (ms : list SessionMechanic) i j v :
  j <> i -> nth_error (setAt ms i v) j = nth_error ms j.
Proof.
  revert i j. induction ms as [| x rest IH]; intros [| i] [| j] H; simpl;
    try reflexivity; try congruence.
  apply IH. congruence.
Qed.

Lemma setAt_length (ms : list SessionMechanic) i v :
  length (setAt ms i v) = length ms.
Proof.
  revert i. induction ms as [| x rest IH]; intros [| i]; simpl; try reflexivity.
  now rewrite IH.
Qed.

(** X27. Capturing a mechanic in a known session and then deleting it by the
    identifier that was returned gives the session back as it was, when no
    mechanic of the session already had that identifier; the other sessions
    are as they were. *)
Theorem addMechanic_then_deleteMechanic (sessions : t) (clock : Clock)
    (random sessionId : string) (mechanic : MechanicInput) (session : Session) :
  getSession sessions sessionId = Some session ->
  findIndex (mechanics session)
    ("mechanic-" ++ showNumber (idNow clock) ++ "-" ++ random) = None ->
  exists added,
    snd (addMechanic sessions clock random sessionId mechanic) = Some added
    /\ sm_id added = ("mechanic-" ++ showNumber (idNow clock) ++ "-" ++ random)%string
    /\ let captured := fst (addMechanic sessions clock random sessionId mechanic) in
       let deleted := deleteMechanic captured sessionId (sm_id added) in
       option_map mechanics (getSession captured sessionId)
       = Some (mechanics session ++ [added])
       /\ snd deleted = true
       /\ getSession (fst deleted) sessionId = Some session
       /\ forall other, other <> sessionId ->
            getSession (fst deleted) other = getSession sessions other.
Proof.
  unfold getSession. intros G Fresh. unfold addMechanic. rewrite G.
  set (added := Build_SessionMechanic _ _ _ _ _ _ _ _ _ _).
  assert (Fresh' : findIndex (mechanics session) (sm_id added) = None) by exact Fresh.
  cbn [fst snd]. exists added. split; [reflexivity |]. split; [reflexivity |].
  cbn zeta. rewrite jsmap_get_set_same. cbn [option_map withMechanics mechanics].
  split; [reflexivity |].
  unfold deleteMechanic. rewrite jsmap_get_set_same.
  change (mechanics (withMechanics session (mechanics session ++ [added])))
    with (mechanics session ++ [added]).
  rewrite (findIndex_snoc_fresh _ _ Fresh').
  cbn [fst snd]. split; [reflexivity |]. split.
  - rewrite jsmap_get_set_same. f_equal.
    unfold withMechanics. cbn [id dungeonName startTime currentEncounter mechanics encounters].
    rewrite removeAt_snoc. now destruct session.
  - intros other Ho.
    rewrite jsmap_get_set_other by congruence.
    now rewrite jsmap_get_set_other by congruence.
Qed.

(** A third capture in the sample session, deleted again. *)
Lemma addMechanic_then_deleteMechanic_witness :
  getSession
    (fst (deleteMechanic
            (fst (addMechanic SessionSample.sessions (SessionSample.clockAt 4000)
                    "c3" SessionSample.sessionId
                    (SessionSample.capture "Urns" "Carry the urn to the statue")))
            SessionSample.sessionId "mechanic-4000-c3"))
    SessionSample.sessionId
  = getSession SessionSample.sessions SessionSample.sessionId.
Proof.
  edestruct (@addMechanic_then_deleteMechanic SessionSample.sessions
               (SessionSample.clockAt 4000) "c3"%string SessionSample.sessionId
               (SessionSample.capture "Urns" "Carry the urn to the statue"))
    as [added [_ [Hid [_ [_ [H _]]]]]];
    [vm_compute; reflexivity | vm_compute; reflexivity |].
  rewrite Hid in H. vm_compute in H. vm_compute. exact H.
Defined.

(** X28. [updateMechanic] on a known session and identifier rewrites the
    first mechanic carrying that identifier and nothing else: the mechanic
    keeps its identifier and discovery time, every other position of the
    list, the encounters and the other sessions are as they were. *)
Theorem updateMechanic_rewrites_first_match (sessions : t) (sessionId mechanicId : string)
    (updates : MechanicUpdates) (session : Session) (index : nat) :
  getSession sessions sessionId = Some session ->
  findIndex (mechanics session) mechanicId = Some index ->
  exists current updated session',
    nth_error (mechanics session) index = Some current
    /\ (forall j m, (j < index)%nat -> nth_error (mechanics session) j = Some m ->
          sm_id m <> mechanicId)
    /\ snd (updateMechanic sessions sessionId mechanicId updates) = Some updated
    /\ updated = applyUpdates current updates
    /\ sm_id updated = mechanicId
    /\ sm_discoveredAt updated = sm_discoveredAt current
    /\ getSession (fst (updateMechanic sessions sessionId mechanicId updates)) sessionId
       = Some session'
    /\ nth_error (mechanics session') index = Some updated
    /\ (forall j, j <> index ->
          nth_error (mechanics session') j = nth_error (mechanics session) j)
    /\ length (mechanics session') = length (mechanics session)
    /\ encounters session' = encounters session
    /\ forall other, other <> sessionId ->
         getSession (fst (updateMechanic sessions sessionId mechanicId updates)) other
         = getSession sessions other.
Proof.
  unfold getSession. intros G F.
  destruct (findIndex_first _ _ F) as [[current [Hn Hid]] Hbefore].
  unfold updateMechanic. rewrite G, F, Hn. cbn [fst snd].
  exists current, (applyUpdates current updates).
  eexists. split; [reflexivity |]. split; [exact Hbefore |].
  split; [reflexivity |]. split; [reflexivity |].
  split; [exact Hid |]. split; [reflexivity |].
  split; [apply jsmap_get_set_same |]. cbn [withMechanics mechanics encounters].
  split; [now apply setAt_same with (m := current) |].
  split; [intros j Hj; now apply setAt_other |].
  split; [apply setAt_length |].
  split; [reflexivity |].
  intros other Ho. apply jsmap_get_set_other. congruence.
Qed.

(** The first captured mechanic of the sample session, marked solved. *)
Lemma updateMechanic_rewrites_first_match_witness :
  option_map (fun m => (sm_id m, sm_name m, sm_status m))
    (snd (updateMechanic SessionSample.sessions SessionSample.sessionId
            "mechanic-2000-a1" SessionSample.solved))
  = Some ("mechanic-2000-a1", "Bell Ringing", "solved")%string.
Proof.
  edestruct (@updateMechanic_rewrites_first_match SessionSample.sessions
               SessionSample.sessionId "mechanic-2000-a1"%string SessionSample.solved)
    as [current [updated [session' [Hc [_ [Hu [Hup _]]]]]]];
    [vm_compute; reflexivity | vm_compute; reflexivity |].
  rewrite Hu, Hup. vm_compute in Hc. injection Hc as <-. reflexivity.
Defined.

End SessionMechanics.
Section SessionSearch.

Import Sessions.

Lemma includes_prefix (text needle : string) :
  String.prefix needle text = true -> JS.includes text needle = true.
Proof. destruct text; simpl; intros ->; reflexivity. Qed.

Lemma includes_fragment (before needle rest : string) :
  JS.includes (before ++ needle ++ rest) needle = true.
Proof.
  induction before as [| c before IH].
  - cbn [String.append]. apply includes_prefix, prefix_of_append.
  - cbn [String.append JS.includes].
    destruct (String.prefix needle (String c (before ++ needle ++ rest)));
      [reflexivity | exact IH].
Qed.

Lemma includes_empty (text : string) : JS.includes text "" = true.
Proof. destruct text; reflexivity. Qed.

Lemma matchesQuery_empty (m : SessionMechanic) : matchesQuery "" m = true.
Proof. unfold matchesQuery. now rewrite includes_empty. Qed.

(** X29. Searching a session matches without regard to letter case: a
    mechanic of the session whose name contains the query, both taken in
    lower case, is among the results; and the empty query returns every
    mechanic of the session. *)
Theorem searchSessionMechanics_ignores_case (sessions : t) (sessionId query : string)
    (session : Session) :
  getSession sessions sessionId = Some session ->
  (forall m before rest,
     In m (mechanics session) ->
     JS.toLowerCase (sm_name m) = (before ++ JS.toLowerCase query ++ rest)%string ->
     In m (searchSessionMechanics sessions sessionId query))
  /\ searchSessionMechanics sessions sessionId "" = mechanics session.
Proof.
  unfold getSession, searchSessionMechanics. intros G. rewrite G. cbn zeta.
  split.
  - intros m before rest Hin Hname. apply filter_In. split; [exact Hin |].
    unfold matchesQuery. rewrite Hname, includes_fragment. reflexivity.
  - cbn [JS.toLowerCase]. apply filter_all, Forall_forall. intros m _. apply matchesQuery_empty.
Qed.

(** The query BELL finds the mechanic named Bell Ringing. *)
Lemma searchSessionMechanics_ignores_case_witness :
  exists m,
    sm_name m = "Bell Ringing"%string
    /\ In m (searchSessionMechanics SessionSample.sessions SessionSample.sessionId "BELL").
Proof.
  edestruct (@searchSessionMechanics_ignores_case SessionSample.sessions
               SessionSample.sessionId "BELL"%string) as [H _];
    [vm_compute; reflexivity |].
  eexists. split; [| eapply (H _ ""%string " ringing"%string);
                     [left; reflexivity | vm_compute; reflexivity]].
  reflexivity.
Defined.

End SessionSearch.

Section LatestSession.

Import Sessions.

Lemma insertByStart_head (x : Session) (l : list Session) :
  hd_error (insertByStart x l)
  = match l with
    | [] => Some x
    | y :: _ => if (startTime y <=? startTime x)%Z then Some x else Some y
    end.
Proof.
  destruct l as [| y ys]; simpl; [reflexivity |].
  now destruct (startTime y <=? startTime x)%Z.
Qed.

Lemma sortByStart_head (l : list Session) :
  match hd_error (sortByStart l) with
  | None => l = []
  | Some latest =>
      exists earlier later,
        l = earlier ++ latest :: later
        /\ Forall (fun s => (startTime s < startTime latest)%Z) earlier
        /\ Forall (fun s => (startTime s <= startTime latest)%Z) later
  end.
Proof.
  induction l as [| x rest IH]; [reflexivity |].
  cbn [sortByStart fold_right]. fold (sortByStart rest).
  rewrite insertByStart_head.
  destruct (sortByStart rest) as [| y ys] eqn:S; cbn [hd_error] in IH.
  - subst rest. exists [], []. repeat split; constructor.
  - destruct IH as [earlier [later [E [Hb Ha]]]].
    destruct (startTime y <=? startTime x)%Z eqn:C.
    + apply Z.leb_le in C. exists [], rest. split; [reflexivity |].
      split; [constructor |]. subst rest. apply Forall_app. split.
      * eapply Forall_impl; [| exact Hb]. cbv beta. intros s Hs. lia.
      * constructor; [exact C |].
        eapply Forall_impl; [| exact Ha]. cbv beta. intros s Hs. lia.
    + apply Z.leb_gt in C. exists (x :: earlier), later.
      split; [subst rest; reflexivity |].
      split; [constructor; assumption | exact Ha].
Qed.

(** X30. [getLatestSession] answers nothing exactly when the module holds
    no session; otherwise it answers a held session that no session started
    after, and among those with that start time the one created first. *)
Theorem getLatestSession_is_latest (sessions : t) :
  match getLatestSession sessions with
  | None => getAllSessions sessions = []
  | Some latest =>
      exists earlier later,
        getAllSessions sessions = earlier ++ latest :: later
        /\ Forall (fun s => (startTime s < startTime latest)%Z) earlier
        /\ Forall (fun s => (startTime s <= startTime latest)%Z) later
  end.
Proof.
  unfold getLatestSession.
  pose proof (sortByStart_head (getAllSessions sessions)) as H.
  destruct (getAllSessions sessions) as [| s rest] eqn:E; [reflexivity |].
  exact H.
Qed.

End LatestSession.
